(** * evs auto-dom: a shallow embedding of the lisp-expression evaluator
    and of the hooks built on it.

    Sources embedded here:
    - the current evaluator [element.js] (identity paths, [parseProps],
      memoization, [processLisp], [createElement], [renderWith], [Fragment]);
    - [src/internal/auto-dom/hooks.js] ([useModel], [hasModel],
      [forceUpdate], [findParentVnode]);
    - [src/internal/auto-dom/value-types.js] ([isType] and the type symbols);
    - two earlier revisions of the evaluator, kept in modules [KeyPassthrough]
      (the revision that threads [$$keyPassthrough]) and [ChildrenCheck]
      (the revision whose [parseProps] rejects duplicated children).

    JavaScript values are modelled as immutable trees.  Code that fills a
    freshly created object (an argument array, a props object) is written as
    the pure construction of that object; the process-wide tables are
    threaded explicitly as a [state].  Objects carry no identity of their
    own: the two places where the sources compare objects by identity
    (configs in [processLisp], watcher closures in [cleanupOnDestroy]) get
    an identity number, and an [Object.assign] onto an object held by the
    tree-value store is written as an update of the entry it was read
    from.

    Limits of the model.  A user function is a function of its arguments
    ([userFn]); the module [Reentrant] is the evaluator once more over user
    functions that read and write the tables, and the properties about
    what an evaluation requests or leaves untouched are stated there, with
    what they need of the components as hypotheses.  Numbers are integers
    and print in decimal notation whatever their size (JavaScript turns to
    the exponent notation from 1e21 on).  A table keyed by values finds a
    key by [strict_eq], which tells strings, numbers and the other
    primitives apart; an object used as a key is not found again.  The
    children held by a parent node are a copy of the fragment stored under
    the child's RefId, not the same array: an update of the one is not seen
    through the other. *)

From Stdlib Require Import String Ascii List ZArith Bool Lia PeanoNat.
From Stdlib Require Import DecimalString.
Import ListNotations.
Open Scope string_scope.
Open Scope list_scope.

(* ================================================================== *)
(** * JavaScript values *)
(* ================================================================== *)

(** Function objects.  A function written by the user of the library is
    named by a number and interpreted by the environment ([userFn] below);
    the functions the library itself creates are constructors of their own. *)
Inductive fn_name : Type :=
| FUser (n : nat)
| FFactory (tag : string)        (* [defineElement(tag)], typed [domComponent] *)
| FVnodeFactory (tag : string)   (* the earlier [defineElement], flagged [isVnodeFactory] *)
| FFragment                      (* the exported [Fragment] *)
| FAlwaysTrue.                   (* [utils.alwaysTrue] *)

(** Numbers are the integer-valued JavaScript numbers (keys and indices);
    arrays carry their named own properties ([type], [$$keyPassthrough])
    next to their items; objects list their enumerable own properties in
    [Object.keys] order. *)
#[warnings="-register-all"]
Inductive value : Type :=
| VUndef
| VNull
| VBool (b : bool)
| VNum (n : Z)
| VStr (s : string)
| VSym (description : string)
| VFun (f : fn_name)
| VArr (named : list (string * value)) (items : list value)
| VObj (fields : list (string * value))
| VEmptyProps.                   (* the frozen [emptyProps] of element.js *)

Definition fields := list (string * value).

(** Outcome of running a piece of code: a value, a thrown exception, or a
    point where the model gives no answer. *)
Inductive error : Type :=
| TypeError (what : string)
| KeyTypeError (keyType : string) (key : value)
| KeyPatternError (keyType : string) (key : value)
| SeedPathTypeError
| UnrecognizedVnodeValue (v : value)
| DuplicateChildrenError
| RootIdRequired
| UserError (payload : value).

Inductive stuck : Type :=
| OutOfFuel
| Unmodelled (what : string).

Inductive outcome (A : Type) : Type :=
| Ok (a : A)
| Throw (e : error)
| Stuck (why : stuck).
Arguments Ok {A} a.
Arguments Throw {A} e.
Arguments Stuck {A} why.

Definition obind {A B} (x : outcome A) (k : A -> outcome B) : outcome B :=
  match x with
  | Ok a => k a
  | Throw e => Throw e
  | Stuck w => Stuck w
  end.

(** ** Primitive operations *)

Definition fn_eqb (f g : fn_name) : bool :=
  match f, g with
  | FUser a, FUser b => Nat.eqb a b
  | FFactory a, FFactory b => String.eqb a b
  | FVnodeFactory a, FVnodeFactory b => String.eqb a b
  | FFragment, FFragment => true
  | FAlwaysTrue, FAlwaysTrue => true
  | _, _ => false
  end.

(** [a === b] (and the key comparison of [Map]).  Arrays and objects carry
    no identity in this model: two of them never compare equal, which is
    the answer JavaScript gives for distinct objects. *)
Definition strict_eq (a b : value) : bool :=
  match a, b with
  | VUndef, VUndef => true
  | VNull, VNull => true
  | VBool x, VBool y => Bool.eqb x y
  | VNum x, VNum y => Z.eqb x y
  | VStr x, VStr y => String.eqb x y
  | VSym x, VSym y => String.eqb x y
  | VFun f, VFun g => fn_eqb f g
  | _, _ => false
  end.

Definition typeof (v : value) : string :=
  match v with
  | VUndef => "undefined"
  | VBool _ => "boolean"
  | VNum _ => "number"
  | VStr _ => "string"
  | VSym _ => "symbol"
  | VFun _ => "function"
  | VNull | VArr _ _ | VObj _ | VEmptyProps => "object"
  end.

Definition truthy (v : value) : bool :=
  match v with
  | VUndef | VNull => false
  | VBool b => b
  | VNum n => negb (Z.eqb n 0)
  | VStr s => negb (String.eqb s "")
  | _ => true
  end.

(** [a || b] *)
Definition js_or (a b : value) : value := if truthy a then a else b.

Fixpoint assoc (k : string) (fs : fields) : option value :=
  match fs with
  | [] => None
  | (k', v) :: rest => if String.eqb k k' then Some v else assoc k rest
  end.

(** [o[k] = v] on a property list: overwrite in place, else append. *)
Fixpoint assoc_set (k : string) (v : value) (fs : fields) : fields :=
  match fs with
  | [] => [(k, v)]
  | (k', v') :: rest =>
      if String.eqb k k' then (k, v) :: rest
      else (k', v') :: assoc_set k v rest
  end.

Fixpoint assoc_remove (k : string) (fs : fields) : fields :=
  match fs with
  | [] => []
  | (k', v') :: rest =>
      if String.eqb k k' then assoc_remove k rest
      else (k', v') :: assoc_remove k rest
  end.

Definition from_option (o : option value) : value :=
  match o with Some v => v | None => VUndef end.

Definition domComponent : string := "@domComponent".
Definition fnComponent : string := "@fnComponent".
Definition vnode : string := "@vnode".

(** [v.k] for a named property [k] of a value that is neither [null] nor
    [undefined]; inherited properties are not modelled. *)
Definition get_prop (v : value) (k : string) : value :=
  match v with
  | VObj fs => from_option (assoc k fs)
  | VArr named items =>
      if String.eqb k "length" then VNum (Z.of_nat (length items))
      else from_option (assoc k named)
  | VEmptyProps => if String.eqb k "$$empty" then VBool true else VUndef
  | VFun (FFactory tag) =>
      if String.eqb k "type" then VSym domComponent
      else if String.eqb k "name" then VStr tag else VUndef
  | VFun (FVnodeFactory tag) =>
      if String.eqb k "isVnodeFactory" then VBool true
      else if String.eqb k "name" then VStr tag else VUndef
  | _ => VUndef
  end.

(** [v.k] where [v] may be [null] or [undefined]. *)
Definition member (v : value) (k : string) : outcome value :=
  match v with
  | VUndef | VNull => Throw (TypeError "cannot read a property of a nullish value")
  | _ => Ok (get_prop v k)
  end.

(** [v[i]] for an index [i]. *)
Definition get_index (v : value) (i : nat) : value :=
  match v with
  | VArr _ items => nth i items VUndef
  | _ => VUndef
  end.

(** [target.k = v] in strict mode. *)
Definition set_prop (target : value) (k : string) (v : value) : outcome value :=
  match target with
  | VObj fs => Ok (VObj (assoc_set k v fs))
  | VArr named items => Ok (VArr (assoc_set k v named) items)
  | VUndef | VNull => Throw (TypeError "cannot set a property of a nullish value")
  | VBool _ | VNum _ | VStr _ | VSym _ =>
      Throw (TypeError "cannot create a property on a primitive")
  | VEmptyProps => Throw (TypeError "object is not extensible")
  | VFun _ => Stuck (Unmodelled "own properties of a function")
  end.

Definition string_of_Z (n : Z) : string := NilZero.string_of_int (Z.to_int n).

(** [`${v}`]: the implicit string conversion of template literals. *)
Definition to_string (v : value) : outcome string :=
  match v with
  | VUndef => Ok "undefined"
  | VNull => Ok "null"
  | VBool true => Ok "true"
  | VBool false => Ok "false"
  | VNum n => Ok (string_of_Z n)
  | VStr s => Ok s
  | VSym _ => Throw (TypeError "cannot convert a Symbol value to a string")
  | VObj _ | VEmptyProps => Ok "[object Object]"
  | VArr _ _ => Stuck (Unmodelled "Array.prototype.toString")
  | VFun _ => Stuck (Unmodelled "Function.prototype.toString")
  end.

(** [String(v)]: the explicit conversion, which accepts symbols. *)
Definition String_ (v : value) : outcome string :=
  match v with
  | VSym d => Ok ("Symbol(" ++ d ++ ")")%string
  | _ => to_string v
  end.

(** ** utils.js

    Modelled from the spec: utils.js is not among the sources; [isArray],
    [isFunc], [isDef], [withDefault], [identity] and [alwaysTrue] are the
    usual one-liners their names and call sites describe. *)
Definition isArray (v : value) : bool :=
  match v with VArr _ _ => true | _ => false end.

Definition isFunc (v : value) : bool :=
  match v with VFun _ => true | _ => false end.

Definition isDef (v : value) : bool :=
  match v with VUndef => false | _ => true end.

Definition withDefault {A} (v : option A) (dflt : A) : A :=
  match v with Some a => a | None => dflt end.

(** [is-plain-object]: object literals; [emptyProps] is created from a
    literal prototype and passes the test as well. *)
Definition isPlainObject (v : value) : bool :=
  match v with VObj _ | VEmptyProps => true | _ => false end.

(** ** value-types.js *)

(** [isType = (value, type) => value && value.type === type] *)
Definition isType (v : value) (type : string) : bool :=
  truthy v && strict_eq (get_prop v "type") (VSym type).

(** ** Strings: the pieces of [String.prototype] the sources use *)

Fixpoint split_go (sep : string) (skip : nat) (acc : string) (s : string)
  : list string :=
  match s with
  | EmptyString => [acc]
  | String c rest =>
      match skip with
      | S k => split_go sep k acc rest
      | O =>
          if prefix sep s
          then acc :: split_go sep (String.length sep - 1) "" rest
          else split_go sep 0 (acc ++ String c "")%string rest
      end
  end.

(** [s.split(sep)] for a non-empty separator. *)
Definition split (sep s : string) : list string := split_go sep 0 "" s.

(** [xs.join(sep)] on strings. *)
Fixpoint join (sep : string) (xs : list string) : string :=
  match xs with
  | [] => ""
  | [x] => x
  | x :: rest => (x ++ sep ++ join sep rest)%string
  end.

(** [xs.slice(0, n)] *)
Definition slice0 {A} (n : nat) (xs : list A) : list A := firstn n xs.

(** The character class of [/^[a-zA-Z0-9-_/]*$/]. *)
Definition key_char (c : ascii) : bool :=
  let n := nat_of_ascii c in
  (((97 <=? n) && (n <=? 122)) || ((65 <=? n) && (n <=? 90))
   || ((48 <=? n) && (n <=? 57))
   || (n =? 45) || (n =? 95) || (n =? 47))%nat.

(** [/^[class]*$/.test(s)] *)
Fixpoint all_chars (class : ascii -> bool) (s : string) : bool :=
  match s with
  | EmptyString => true
  | String c rest => class c && all_chars class rest
  end.

(** [keyRegex.test(s)] *)
Definition keyRegex_test (s : string) : bool := all_chars key_char s.

(* ================================================================== *)
(** * The collaborators of the evaluator and the process-wide tables *)
(* ================================================================== *)

(** What element.js and hooks.js import from modules that are not part of
    the sources: the constants, the vnode constructors and tables of
    vnode.js, the patch function, the build mode and the functions supplied
    by the user.  The evaluator is defined over any such environment. *)
Record collaborators : Type := {
  (* constants.js *)
  pathSeparator : string;
  sp_refId : string;              (* [specialProps.$$refId] *)
  sp_previousRefId : string;      (* [specialProps.$$previousRefId] *)
  sp_shouldUpdate : string;       (* [specialProps.shouldUpdate] *)
  isSpecialProp : string -> bool; (* truthiness of [specialProps[k]] *)
  (* vnode.js *)
  createVnode : value -> value -> value;
  createTextVnode : value -> value;
  primitiveTypes : string -> bool;
  ignoredValues : value -> bool;
  validateVnodeValue : value -> outcome unit;
  (* snabbdom *)
  patch : value -> value -> value;
  (* [process.env.NODE_ENV === 'development'] *)
  isDevelopment : bool;
  (* functions written by the user: components, predicates, producers;
     each is a function of its arguments that answers or throws (a
     component that calls a hook is outside this model: the hooks are
     modelled on their own, below) *)
  userFn : nat -> list value -> outcome value
}.

(** The config recorded against a RefId: [{ props, key, ctor }].  [cfg_id]
    is the identity of the object, so that [currentConfig === config] can
    be decided. *)
Record config : Type := mkConfig {
  cfg_id : nat;
  cfg_props : value;
  cfg_key : value;
  cfg_ctor : value
}.

Definition config_obj (c : config) : value :=
  VObj [("props", cfg_props c); ("key", cfg_key c); ("ctor", cfg_ctor c)].

(** The watcher closure [() => forceUpdate(refId)] created by one call of
    [useModel]; closures are compared by identity. *)
Record watcher : Type := mkWatcher {
  watcher_id : nat;
  watcher_refId : string
}.

(** An atom of atomic-state: its value and its [watchersList]. *)
Record model : Type := mkModel {
  model_id : nat;
  model_value : value;
  watchersList : list (value * watcher)
}.

(** An entry queued by [enqueueHook(refId, cleanupOnDestroy, args)]. *)
Record hook : Type := mkHook {
  hook_refId : string;
  hook_key : value;
  hook_shouldCleanup : value;
  hook_watcherFn : watcher
}.

(** A [Map]: keys in insertion order. *)
Definition jsmap (K V : Type) := list (K * V).

Section JsMap.
Context {K V : Type} (eqb : K -> K -> bool).

Fixpoint map_get (k : K) (m : jsmap K V) : option V :=
  match m with
  | [] => None
  | (k', v) :: rest => if eqb k k' then Some v else map_get k rest
  end.

Fixpoint map_set (k : K) (v : V) (m : jsmap K V) : jsmap K V :=
  match m with
  | [] => [(k, v)]
  | (k', v') :: rest =>
      if eqb k k' then (k, v) :: rest else (k', v') :: map_set k v rest
  end.

Fixpoint map_delete (k : K) (m : jsmap K V) : jsmap K V :=
  match m with
  | [] => []
  | (k', v') :: rest =>
      if eqb k k' then rest else (k', v') :: map_delete k rest
  end.

Definition map_has (k : K) (m : jsmap K V) : bool :=
  match map_get k m with Some _ => true | None => false end.
End JsMap.

(** The module-level tables of render-context.js, vnode.js and hooks.js,
    the allocator of object identities, and a record of the calls made to
    the outside (component invocations, patch requests). *)
Record state : Type := mkState {
  currentConfigs : jsmap value config;
  currentDispatchers : jsmap value value;
  treeValues : jsmap value value;
  activeModels : jsmap string (jsmap value model);
  hookQueue : list hook;
  nextId : nat;
  invocations : list (value * value);
  patchRequests : list (value * value);
  completedPasses : nat
}.

Definition emptyState : state :=
  mkState [] [] [] [] [] 1 [] [] 0.

Definition with_configs (f : jsmap value config -> jsmap value config) (s : state) :=
  mkState (f (currentConfigs s)) (currentDispatchers s) (treeValues s)
          (activeModels s) (hookQueue s) (nextId s) (invocations s)
          (patchRequests s) (completedPasses s).
Definition with_dispatchers (f : jsmap value value -> jsmap value value) (s : state) :=
  mkState (currentConfigs s) (f (currentDispatchers s)) (treeValues s)
          (activeModels s) (hookQueue s) (nextId s) (invocations s)
          (patchRequests s) (completedPasses s).
Definition with_treeValues (f : jsmap value value -> jsmap value value) (s : state) :=
  mkState (currentConfigs s) (currentDispatchers s) (f (treeValues s))
          (activeModels s) (hookQueue s) (nextId s) (invocations s)
          (patchRequests s) (completedPasses s).
Definition with_activeModels
  (f : jsmap string (jsmap value model) -> jsmap string (jsmap value model))
  (s : state) :=
  mkState (currentConfigs s) (currentDispatchers s) (treeValues s)
          (f (activeModels s)) (hookQueue s) (nextId s) (invocations s)
          (patchRequests s) (completedPasses s).
Definition with_hookQueue (f : list hook -> list hook) (s : state) :=
  mkState (currentConfigs s) (currentDispatchers s) (treeValues s)
          (activeModels s) (f (hookQueue s)) (nextId s) (invocations s)
          (patchRequests s) (completedPasses s).
Definition with_nextId (f : nat -> nat) (s : state) :=
  mkState (currentConfigs s) (currentDispatchers s) (treeValues s)
          (activeModels s) (hookQueue s) (f (nextId s)) (invocations s)
          (patchRequests s) (completedPasses s).
Definition with_invocations
  (f : list (value * value) -> list (value * value)) (s : state) :=
  mkState (currentConfigs s) (currentDispatchers s) (treeValues s)
          (activeModels s) (hookQueue s) (nextId s) (f (invocations s))
          (patchRequests s) (completedPasses s).
Definition with_patchRequests
  (f : list (value * value) -> list (value * value)) (s : state) :=
  mkState (currentConfigs s) (currentDispatchers s) (treeValues s)
          (activeModels s) (hookQueue s) (nextId s) (invocations s)
          (f (patchRequests s)) (completedPasses s).
Definition with_completedPasses (f : nat -> nat) (s : state) :=
  mkState (currentConfigs s) (currentDispatchers s) (treeValues s)
          (activeModels s) (hookQueue s) (nextId s) (invocations s)
          (patchRequests s) (f (completedPasses s)).

(** ** The monad of the evaluator: state, exceptions, fuel *)

Definition M (A : Type) : Type := state -> state * outcome A.

Definition ret {A} (a : A) : M A := fun s => (s, Ok a).

Definition bind {A B} (m : M A) (k : A -> M B) : M B :=
  fun s =>
    match m s with
    | (s', Ok a) => k a s'
    | (s', Throw e) => (s', Throw e)
    | (s', Stuck w) => (s', Stuck w)
    end.

Definition lift {A} (o : outcome A) : M A := fun s => (s, o).
Definition gets {A} (f : state -> A) : M A := fun s => (s, Ok (f s)).
Definition modify (f : state -> state) : M unit := fun s => (f s, Ok tt).

Declare Scope eval_scope.
Delimit Scope eval_scope with eval.
Notation "x <- m ;; k" := (bind m (fun x => k))
  (at level 61, m at next level, right associativity) : eval_scope.
Notation "m ;;; k" := (bind m (fun _ => k))
  (at level 61, right associativity) : eval_scope.
Open Scope eval_scope.

(** [xs.map((v, i) => f(v, i))] where [f] has effects: the calls are made
    in index order and the first exception ends the loop. *)
Fixpoint mapM_from {A B} (i : nat) (f : A -> nat -> M B) (xs : list A)
  : M (list B) :=
  match xs with
  | [] => ret []
  | x :: rest =>
      y <- f x i ;;
      ys <- mapM_from (S i) f rest ;;
      ret (y :: ys)
  end.

(** ** render-context.js and the tree-value store of vnode.js

    Modelled from the spec: render-context.js and vnode.js are not among
    the sources.  The memoization store holds, per RefId, the config most
    recently recorded; the tree-value store holds, per RefId, the value
    most recently committed.  A RefId that was never written reads as
    [noCurrentConfig] (here [None]) and as [undefined]. *)
Definition getCurrentConfig (refId : value) : M (option config) :=
  gets (fun s => map_get strict_eq refId (currentConfigs s)).

Definition setCurrentConfig (refId : value) (c : config) : M unit :=
  modify (with_configs (map_set strict_eq refId c)).

Definition getCurrentDispatcher (refId : value) : M value :=
  gets (fun s => from_option (map_get strict_eq refId (currentDispatchers s))).

Definition setCurrentDispatcher (refId : value) (f : value) : M unit :=
  modify (with_dispatchers (map_set strict_eq refId f)).

Definition lookupTreeValue (refId : value) (s : state) : value :=
  from_option (map_get strict_eq refId (treeValues s)).

Definition getTreeValue (refId : value) : M value :=
  gets (lookupTreeValue refId).

Definition hasTreeValue (refId : value) : M bool :=
  gets (fun s => map_has strict_eq refId (treeValues s)).

(** The shape of the [onPathValue] callback: [(refId, value, config)]. *)
Definition pathValueCallback := value -> value -> config -> M unit.

Definition setTreeValue : pathValueCallback :=
  fun refId v _ => modify (with_treeValues (map_set strict_eq refId v)).

(** [identity] used as the completion callback: nothing is recorded. *)
Definition identityCallback : pathValueCallback :=
  fun _ _ _ => ret tt.

(** A fresh object identity. *)
Definition fresh : M nat :=
  fun s => (with_nextId S s, Ok (nextId s)).

(* ================================================================== *)
(** * element.js: the evaluator *)
(* ================================================================== *)

Section Element.
Context (E : collaborators).

(** [const newPath = Symbol('newPath')].  Symbols are told apart by their
    description; the sources create four of them. *)
Definition newPath : value := VSym "newPath".

(** [const Fragment = ({ children }) => children] *)
Definition Fragment (props : value) : outcome value := member props "children".

(** [f(...args)] for a function value [f]. *)
Definition call (f : value) (args : list value) : outcome value :=
  match f with
  | VFun (FUser n) => userFn E n args
  | VFun (FFactory tag) =>
      (* [elementFactory(config) { return createVnode(tagName, config) }] *)
      Ok (createVnode E (VStr tag) (nth 0 args VUndef))
  | VFun FFragment => Fragment (nth 0 args VUndef)
  | VFun FAlwaysTrue => Ok (VBool true)
  | VFun (FVnodeFactory _) => Stuck (Unmodelled "factory of an earlier revision")
  | _ => Throw (TypeError "not a function")
  end.

(** [vnodeKeyTypes[typeof key]] *)
Definition vnodeKeyTypes (type : string) : bool :=
  String.eqb type "string" || String.eqb type "number".

Definition validateKey (key : value) (keyType : string) : outcome value :=
  if negb (isDevelopment E) then Ok key
  else if isDef key then
    if negb (vnodeKeyTypes (typeof key)) then Throw (KeyTypeError keyType key)
    else
      obind (to_string key) (fun s =>
        if negb (keyRegex_test s) then Throw (KeyPatternError keyType key)
        else Ok key)
  else Ok key.

Definition addToRefId (currentPath location : value) : outcome value :=
  if strict_eq currentPath newPath then Ok location
  else
    obind (to_string currentPath) (fun p =>
    obind (to_string location) (fun l =>
      Ok (VStr (p ++ pathSeparator E ++ l)%string))).

Definition array_items (v : value) : list value :=
  match v with VArr _ items => items | _ => [] end.

(** The callback handed to [prepareArgs] and [parseProps]:
    [(arg, path, prevKey, prevCtor, onPathValue)]. *)
Definition argProcessor :=
  value -> value -> value -> value -> pathValueCallback -> M value.

(** [identity] as an argument processor: the argument, unevaluated. *)
Definition identityProcessor : argProcessor := fun arg _ _ _ _ => ret arg.

Definition prepareArgs (lisp : value) (callback : argProcessor)
  (path prevCtor : value) (onPathValue : pathValueCallback) (skip : nat)
  : M value :=
  args <- mapM_from 0
            (fun arg i => callback arg path (VNum (Z.of_nat i)) prevCtor onPathValue)
            (skipn skip (array_items lisp)) ;;
  ret (VArr [] args).

(** [Object.keys(o)] *)
Definition object_keys (o : value) : list string :=
  match o with VObj fs => map fst fs | _ => [] end.

Definition applyProps (configProps : fields) (props : value) : fields :=
  fold_left
    (fun p k => if isSpecialProp E k then p else assoc_set k (get_prop props k) p)
    (object_keys props) configProps.

Definition getPropsFromArgs (v : value) : value :=
  let firstArg := get_index v 1 in
  let hasProps := isPlainObject firstArg && negb (isType firstArg vnode) in
  if hasProps then firstArg else VEmptyProps.

(** [const { key = prevKey } = props] *)
Definition resolveKey (props prevKey : value) : value :=
  if isDef (get_prop props "key") then get_prop props "key" else prevKey.

(** The RefId of an invocation: [previousRefId] if given, else the path
    extended by the key. *)
Definition resolveRefId (props path prevKey : value) : outcome value :=
  let previousRefId := get_prop props (sp_previousRefId E) in
  if isDef previousRefId then Ok previousRefId
  else addToRefId path (resolveKey props prevKey).

(** [const skipValues = !props.$$empty ? 2 : 1] *)
Definition skipValues (props : value) : nat :=
  if negb (truthy (get_prop props "$$empty")) then 2 else 1.

(** [const { shouldUpdate = alwaysTrue } = props] *)
Definition resolveShouldUpdate (props : value) : value :=
  if isDef (get_prop props "shouldUpdate") then get_prop props "shouldUpdate"
  else VFun FAlwaysTrue.

(** The props of the new config:
    [applyProps({ [$$refId]: refId, children: args }, props)]. *)
Definition configProps (props refId args : value) : value :=
  VObj (applyProps
          (assoc_set "children" args (assoc_set (sp_refId E) refId []))
          props).

Definition parseProps (v : value) (process : argProcessor)
  (path prevKey ctor : value) (onPathValue : pathValueCallback) : M config :=
  let props := getPropsFromArgs v in
  lift (validateKey (get_prop props "key") "key") ;;;
  refId <- lift (resolveRefId props path prevKey) ;;
  args <- prepareArgs v process refId ctor onPathValue (skipValues props) ;;
  id <- fresh ;;
  let config := mkConfig id (configProps props refId args) refId ctor in
  currentConfig <- getCurrentConfig refId ;;
  let shouldUpdate := resolveShouldUpdate props in
  match currentConfig with
  | Some current =>
      (* [hasConfig && !shouldUpdate(oProps, config.props)] *)
      r <- lift (call shouldUpdate [cfg_props current; cfg_props config]) ;;
      if negb (truthy r) then ret current else ret config
  | None => ret config
  end.

(** The props a component function is invoked with at [refId]: its
    arguments reach it unevaluated. *)
Definition componentProps (v refId : value) : value :=
  let props := getPropsFromArgs v in
  configProps props refId (VArr [] (skipn (skipValues props) (array_items v))).

(** [lisp[0]] *)
Definition getLispFunc (lisp : value) : value := get_index lisp 0.

Definition isLispLike (v : value) : bool :=
  isArray v && isFunc (get_index v 0).

Definition recordInvocation (f input : value) : M unit :=
  modify (with_invocations (fun log => log ++ [(f, input)])).

(** In development the expression is annotated: [v.type = fnComponent]. *)
Definition annotate (v : value) : value :=
  if isDevelopment E then
    match v with
    | VArr named items => VArr (assoc_set "type" (VSym fnComponent) named) items
    | _ => v
    end
  else v.

Fixpoint processLisp (fuel : nat) (v path prevKey prevCtor : value)
  (onPathValue : pathValueCallback) {struct fuel} : M value :=
  match fuel with
  | O => lift (Stuck OutOfFuel)
  | S fuel' =>
    if primitiveTypes E (typeof v) then ret (createTextVnode E v)
    else if ignoredValues E v then
      text <- lift (String_ v) ;;
      ret (createVnode E (VStr "!")
             (VObj [("props", VEmptyProps); ("children", VStr text)]))
    else if negb (isLispLike v) then
      if isArray v then
        nextPath <- lift (addToRefId path (VStr "@item")) ;;
        results <- mapM_from 0
                     (fun item defaultKey =>
                        processLisp fuel' item nextPath
                          (VNum (Z.of_nat defaultKey)) prevCtor onPathValue)
                     (array_items v) ;;
        ret (VArr [] results)
      else
        lift (validateVnodeValue E v) ;;;
        ret v
    else
      let v := annotate v in
      let f := getLispFunc v in
      let isVnodeFn := isType f domComponent in
      let nextCtor := f in
      let process : argProcessor :=
        if isVnodeFn then processLisp fuel' else identityProcessor in
      config <- parseProps v process path prevKey nextCtor onPathValue ;;
      let fInput := if isVnodeFn then config_obj config else cfg_props config in
      let refId := get_prop (cfg_props config) (sp_refId E) in
      currentConfig <- getCurrentConfig refId ;;
      let isMemoized :=
        match currentConfig with
        | Some current => Nat.eqb (cfg_id current) (cfg_id config)
        | None => false
        end in
      if isMemoized then getTreeValue refId
      else
        setCurrentConfig refId config ;;;
        setCurrentDispatcher refId f ;;;
        recordInvocation f fInput ;;;
        nextValue <- lift (call f [fInput]) ;;
        finalValue <- processLisp fuel' nextValue refId (VStr "@fn")
                        nextCtor onPathValue ;;
        onPathValue refId finalValue config ;;;
        ret finalValue
  end.

Definition validateSeedPath (seedPath : value) : M unit :=
  isPreExistingPath <- hasTreeValue seedPath ;;
  if isPreExistingPath then ret tt
  else if negb (vnodeKeyTypes (typeof seedPath)) then lift (Throw SeedPathTypeError)
  else
    lift (validateKey seedPath "seedPath") ;;;
    ret tt.

Definition createElement (fuel : nat) (v seedPath : value)
  (onPathValue : pathValueCallback) : M value :=
  (if isDevelopment E then validateSeedPath seedPath else ret tt) ;;;
  if isType v vnode then ret v
  else
    seed <- lift (String_ seedPath) ;;
    processLisp fuel v newPath (VStr seed) VUndef onPathValue.

(** Modelled from the spec: [onVtreeCompleted] of vnode.js is not among the
    sources; a completed pass is counted. *)
Definition onVtreeCompleted : M unit := modify (with_completedPasses S).

(** [patch(fromNode, toNode)]: the request is recorded and the committed
    tree is whatever the patch engine answers. *)
Definition requestPatch (fromNode toNode : value) : M value :=
  modify (with_patchRequests (fun log => log ++ [(fromNode, toNode)])) ;;;
  ret (patch E fromNode toNode).

Definition renderWith (fuel : nat) (fromNode component seedPath : value)
  (onPathValue : pathValueCallback) : M value :=
  toNode <- createElement fuel component seedPath onPathValue ;;
  onVtreeCompleted ;;;
  requestPatch fromNode toNode.

End Element.

(* ================================================================== *)
(** * hooks.js *)
(* ================================================================== *)

Section Hooks.
Context (E : collaborators).

Definition getPathRoot (path : string) : string :=
  match String.index 0 (pathSeparator E) path with
  | None => path
  | Some sepIndex => String.substring 0 sepIndex path
  end.

Definition getScopedModels (path : string) (s : state)
  : option (jsmap value model) :=
  map_get String.eqb (getPathRoot path) (activeModels s).

Definition setupScopedModels (path : string) : M unit :=
  modify (with_activeModels (map_set String.eqb (getPathRoot path) [])).

Fixpoint findParentVnode_from (pathIndex : nat) (pathArray : list string)
  (s : state) : value :=
  match pathIndex with
  | O => VStr "noParentVnodeFound"
  | S pathIndex' =>
      let path := join (pathSeparator E) (slice0 pathIndex pathArray) in
      let v := lookupTreeValue (VStr path) s in
      if isType v vnode then v
      else findParentVnode_from pathIndex' pathArray s
  end.

Definition findParentVnode (pathArray : list string) : M value :=
  gets (findParentVnode_from (length pathArray) pathArray).

(** The path under which [findParentVnode] found its answer. *)
Fixpoint parentVnodePath_from (pathIndex : nat) (pathArray : list string)
  (s : state) : string :=
  match pathIndex with
  | O => "noParentVnodeFound"
  | S pathIndex' =>
      let path := join (pathSeparator E) (slice0 pathIndex pathArray) in
      if isType (lookupTreeValue (VStr path) s) vnode then path
      else parentVnodePath_from pathIndex' pathArray s
  end.

(** [Object.assign(target, source)] between two arrays or two objects. *)
Definition object_assign (target source : value) : outcome value :=
  match target, source with
  | VUndef, _ | VNull, _ =>
      Throw (TypeError "cannot convert undefined or null to object")
  | _, VUndef | _, VNull => Ok target
  | VArr named xs, VArr named' ys =>
      Ok (VArr (fold_left (fun p kv => assoc_set (fst kv) (snd kv) p) named' named)
               (ys ++ skipn (length ys) xs))
  | VObj fs, VObj fs' =>
      Ok (VObj (fold_left (fun p kv => assoc_set (fst kv) (snd kv) p) fs' fs))
  | _, _ => Stuck (Unmodelled "Object.assign between values of different kinds")
  end.

(** [updateSourceValue = Object.assign], applied to a value that was read
    from the tree-value store under [path]: the store holds that very
    object, so the entry shows the assignment. *)
Definition updateSourceValue (path target source : value) : M unit :=
  merged <- lift (object_assign target source) ;;
  modify (with_treeValues (map_set strict_eq path merged)).

(** Modelled from the spec: atomic-state is an external library; its
    reactive primitive offers [createCell(initial)], [addWatch(cell,
    watcherId, callback)] and [removeWatch(cell, watcherId)] (§6), and
    hooks.js reads the watchers of a cell through [watchersList]. *)
Definition removeWatch (m : model) (refId : string) : model :=
  mkModel (model_id m) (model_value m)
          (map_delete strict_eq (VStr refId) (watchersList m)).

Definition addWatch (m : model) (refId : string) (w : watcher) : model :=
  mkModel (model_id m) (model_value m)
          (map_set strict_eq (VStr refId) w (watchersList m)).

Definition setScopedModel (refId : string) (key : value) (m : model) : M unit :=
  modify (with_activeModels (fun all =>
    match map_get String.eqb (getPathRoot refId) all with
    | Some scoped =>
        map_set String.eqb (getPathRoot refId) (map_set strict_eq key m scoped) all
    | None => all
    end)).

Definition deleteScopedModel (refId : string) (key : value) : M unit :=
  modify (with_activeModels (fun all =>
    match map_get String.eqb (getPathRoot refId) all with
    | Some scoped =>
        map_set String.eqb (getPathRoot refId) (map_delete strict_eq key scoped) all
    | None => all
    end)).

Definition cleanupOnDestroy (type : string) (refId : string) (h : hook) : M unit :=
  scopedModels <- gets (getScopedModels refId) ;;
  match scopedModels with
  | None => lift (Throw (TypeError "cannot read a property of undefined"))
  | Some scoped =>
      if String.eqb type "destroy" then
        match map_get strict_eq (hook_key h) scoped with
        | None => lift (Throw (TypeError "cannot read a property of undefined"))
        | Some m =>
            let isWatcherReplaced :=
              match map_get strict_eq (VStr refId) (watchersList m) with
              | Some currentWatcher =>
                  negb (Nat.eqb (watcher_id currentWatcher)
                                (watcher_id (hook_watcherFn h)))
              | None => true
              end in
            if isWatcherReplaced then ret tt
            else
              setScopedModel refId (hook_key h) (removeWatch m refId) ;;;
              r <- lift (call E (hook_shouldCleanup h) []) ;;
              if truthy r then deleteScopedModel refId (hook_key h) else ret tt
        end
      else ret tt
  end.

(** The substitution of the old fragment inside the children of the parent
    vnode.  [currentValue] is threaded through: the first match assigns the
    new fragment onto it. *)
Fixpoint processChildren (nextValue : value) (ch : value) (currentValue : value)
  {struct ch} : value * outcome value :=
  match ch with
  | VArr _ items =>
      (* [ch[0].refId === currentValue[0].refId] *)
      match member (nth 0 items VUndef) "refId" with
      | Ok chRefId =>
          match member (get_index currentValue 0) "refId" with
          | Ok currentRefId =>
              if strict_eq chRefId currentRefId then
                match object_assign currentValue nextValue with
                | Ok assigned => (assigned, Ok nextValue)
                | Throw e => (currentValue, Throw e)
                | Stuck w => (currentValue, Stuck w)
                end
              else
                let mapped :=
                  (fix go (xs : list value) (cur : value) {struct xs}
                     : value * outcome (list value) :=
                     match xs with
                     | [] => (cur, Ok [])
                     | x :: rest =>
                         match processChildren nextValue x cur with
                         | (cur', Ok y) =>
                             match go rest cur' with
                             | (cur'', Ok ys) => (cur'', Ok (y :: ys))
                             | (cur'', Throw e) => (cur'', Throw e)
                             | (cur'', Stuck w) => (cur'', Stuck w)
                             end
                         | (cur', Throw e) => (cur', Throw e)
                         | (cur', Stuck w) => (cur', Stuck w)
                         end
                     end) items currentValue in
                match mapped with
                | (cur', Ok ys) => (cur', Ok (VArr [] ys))
                | (cur', Throw e) => (cur', Throw e)
                | (cur', Stuck w) => (cur', Stuck w)
                end
          | Throw e => (currentValue, Throw e)
          | Stuck w => (currentValue, Stuck w)
          end
      | Throw e => (currentValue, Throw e)
      | Stuck w => (currentValue, Stuck w)
      end
  | _ => (currentValue, Ok ch)
  end.

(** [xs.map(processChildren)] *)
Fixpoint mapChildren (nextValue : value) (xs : list value) (currentValue : value)
  : value * outcome (list value) :=
  match xs with
  | [] => (currentValue, Ok [])
  | x :: rest =>
      match processChildren nextValue x currentValue with
      | (cur', Ok y) =>
          match mapChildren nextValue rest cur' with
          | (cur'', Ok ys) => (cur'', Ok (y :: ys))
          | (cur'', Throw e) => (cur'', Throw e)
          | (cur'', Stuck w) => (cur'', Stuck w)
          end
      | (cur', Throw e) => (cur', Throw e)
      | (cur', Stuck w) => (cur', Stuck w)
      end
  end.

(** [{ ...o, [k]: v }] *)
Definition spread_with (o : value) (k : string) (v : value) : outcome value :=
  match o with
  | VObj fs => Ok (VObj (assoc_set k v fs))
  | VUndef | VNull | VEmptyProps => Ok (VObj [(k, v)])
  | _ => Stuck (Unmodelled "spread of a value that is not an object")
  end.

(** [{ ...rest, [$$previousRefId]: $$refId, [shouldUpdate]: alwaysTrue }]
    for [{ $$refId, ...rest } = props]. *)
Definition forcedProps (props : value) : value :=
  let refId' := get_prop props "$$refId" in
  let rest := match props with VObj fs => assoc_remove "$$refId" fs | _ => [] end in
  VObj (assoc_set (sp_shouldUpdate E) (VFun FAlwaysTrue)
          (assoc_set (sp_previousRefId E) refId' rest)).

Definition forceUpdate (fuel : nat) (refId : string) : M unit :=
  current <- getCurrentConfig (VStr refId) ;;
  match current with
  | None => lift (Stuck (Unmodelled "noCurrentConfig"))
  | Some config =>
    (* [const { props: { $$refId, ...rest } } = getCurrentConfig(refId)] *)
    let currentProps := forcedProps (cfg_props config) in
    dispatcher <- getCurrentDispatcher (VStr refId) ;;
    let pathArray := split (pathSeparator E) refId in
    let isVtreeRoot := Nat.eqb (length pathArray) 1 in
    currentValue <- getTreeValue (VStr refId) ;;
    let isFragment := isArray currentValue in
    if negb isFragment then
      let onPathValue := if isVtreeRoot then setTreeValue else identityCallback in
      nextValue <- renderWith E fuel currentValue
                     (VArr [] [dispatcher; currentProps]) (VStr refId) onPathValue ;;
      if isVtreeRoot then
        (* the render has just stored its result under the RefId: the
           assignment lands on the object the store held before *)
        lift (object_assign currentValue nextValue) ;;;
        ret tt
      else updateSourceValue (VStr refId) currentValue nextValue
    else
      parentVnode <- findParentVnode pathArray ;;
      parentPath <- gets (parentVnodePath_from (length pathArray) pathArray) ;;
      parentProps <- lift (member parentVnode "props") ;;
      oChildren <- lift (member parentProps "children") ;;
      nextValue <- createElement E fuel (VArr [] [dispatcher; currentProps])
                     (VStr refId) identityCallback ;;
      match oChildren with
      | VArr _ items =>
          let '(currentValue', mapped) := mapChildren nextValue items currentValue in
          (* the assignments made onto [currentValue] by [processChildren] *)
          modify (with_treeValues (map_set strict_eq (VStr refId) currentValue')) ;;;
          newChildren <- lift mapped ;;
          let parentRefId := get_prop parentProps "$$refId" in
          nextProps <- lift (spread_with parentProps "children"
                               (VArr [] newChildren)) ;;
          copy <- lift (spread_with parentVnode "props" nextProps) ;;
          let nextParentVnode := createVnode E copy VUndef in
          renderWith E fuel parentVnode nextParentVnode parentRefId
            identityCallback ;;;
          updateSourceValue (VStr parentPath) parentVnode nextParentVnode
      | _ => lift (Throw (TypeError "oChildren.map is not a function"))
      end
  end.

(** [atom(isFunc(initialModel) ? initialModel() : initialModel)] *)
Definition initModel (initialModel : value) : M model :=
  initial <- (if isFunc initialModel then lift (call E initialModel [])
              else ret initialModel) ;;
  id <- fresh ;;
  ret (mkModel id initial []).

(** [defaultOptions.shouldCleanup = () => true] *)
Definition defaultShouldCleanup : value := VFun FAlwaysTrue.

(** Modelled from the spec: [enqueueHook] of vnode.js is not among the
    sources; it "registers a teardown callback scheduled for when the
    owning node is destroyed" (§4.4).  The callback is always
    [cleanupOnDestroy]; its arguments are queued. *)
Definition enqueueHook (h : hook) : M unit :=
  modify (with_hookQueue (fun q => q ++ [h])).

(** [useModel(refId, key = refId, initialModel, options = defaultOptions)].
    The model is an object shared between the registry and the caller;
    the watcher added to it is therefore visible in both. *)
Fixpoint useModel (fuel : nat) (refId : string) (key initialModel options : value)
  {struct fuel} : M model :=
  match fuel with
  | O => lift (Stuck OutOfFuel)
  | S fuel' =>
    let key := if isDef key then key else VStr refId in
    scopedModels <- gets (getScopedModels refId) ;;
    match scopedModels with
    | None =>
        setupScopedModels refId ;;;
        useModel fuel' refId key initialModel options
    | Some scoped =>
        m <- match map_get strict_eq key scoped with
             | Some existing => ret existing
             | None => initModel initialModel
             end ;;
        given <- (if isDef options then lift (member options "shouldCleanup")
                  else ret VUndef) ;;
        let shouldCleanup := if isDef given then given else defaultShouldCleanup in
        wid <- fresh ;;
        let update := mkWatcher wid refId in
        let m' := addWatch m refId update in
        setScopedModel refId key m' ;;;
        enqueueHook (mkHook refId key shouldCleanup update) ;;;
        ret m'
    end
  end.

(** [const emptyMap = new Map()] *)
Definition emptyMap : jsmap value model := [].

Definition hasModel (refId : string) (key : value) (s : state) : bool :=
  map_has strict_eq key (withDefault (getScopedModels refId s) emptyMap).

Definition getAllModels (refId : string) (s : state)
  : option (jsmap value model) :=
  getScopedModels refId s.

End Hooks.

(* ================================================================== *)
(** * element.js over components with effects *)
(* ================================================================== *)

(** [userFn] makes a user function a function of its arguments.  In the
    sources a component is arbitrary code: it may use the hooks and, by
    changing a watched model, start a render while it is being evaluated.
    This module is the evaluator of element.js once more, over user
    functions that are computations on the tables; the functions of the
    library itself are those of [call]. *)
Module Reentrant.
Section Evaluator.
Context (E : collaborators) (userCode : nat -> list value -> M value).

(** [f(...args)] *)
Definition call (f : value) (args : list value) : M value :=
  match f with
  | VFun (FUser n) => userCode n args
  | _ => lift (call E f args)
  end.

Definition parseProps (v : value) (process : argProcessor)
  (path prevKey ctor : value) (onPathValue : pathValueCallback) : M config :=
  let props := getPropsFromArgs v in
  lift (validateKey E (get_prop props "key") "key") ;;;
  refId <- lift (resolveRefId E props path prevKey) ;;
  args <- prepareArgs v process refId ctor onPathValue (skipValues props) ;;
  id <- fresh ;;
  let config := mkConfig id (configProps E props refId args) refId ctor in
  currentConfig <- getCurrentConfig refId ;;
  let shouldUpdate := resolveShouldUpdate props in
  match currentConfig with
  | Some current =>
      (* [hasConfig && !shouldUpdate(oProps, config.props)] *)
      r <- call shouldUpdate [cfg_props current; cfg_props config] ;;
      if negb (truthy r) then ret current else ret config
  | None => ret config
  end.

Fixpoint processLisp (fuel : nat) (v path prevKey prevCtor : value)
  (onPathValue : pathValueCallback) {struct fuel} : M value :=
  match fuel with
  | O => lift (Stuck OutOfFuel)
  | S fuel' =>
    if primitiveTypes E (typeof v) then ret (createTextVnode E v)
    else if ignoredValues E v then
      text <- lift (String_ v) ;;
      ret (createVnode E (VStr "!")
             (VObj [("props", VEmptyProps); ("children", VStr text)]))
    else if negb (isLispLike v) then
      if isArray v then
        nextPath <- lift (addToRefId E path (VStr "@item")) ;;
        results <- mapM_from 0
                     (fun item defaultKey =>
                        processLisp fuel' item nextPath
                          (VNum (Z.of_nat defaultKey)) prevCtor onPathValue)
                     (array_items v) ;;
        ret (VArr [] results)
      else
        lift (validateVnodeValue E v) ;;;
        ret v
    else
      let v := annotate E v in
      let f := getLispFunc v in
      let isVnodeFn := isType f domComponent in
      let nextCtor := f in
      let process : argProcessor :=
        if isVnodeFn then processLisp fuel' else identityProcessor in
      config <- parseProps v process path prevKey nextCtor onPathValue ;;
      let fInput := if isVnodeFn then config_obj config else cfg_props config in
      let refId := get_prop (cfg_props config) (sp_refId E) in
      currentConfig <- getCurrentConfig refId ;;
      let isMemoized :=
        match currentConfig with
        | Some current => Nat.eqb (cfg_id current) (cfg_id config)
        | None => false
        end in
      if isMemoized then getTreeValue refId
      else
        setCurrentConfig refId config ;;;
        setCurrentDispatcher refId f ;;;
        recordInvocation f fInput ;;;
        nextValue <- call f [fInput] ;;
        finalValue <- processLisp fuel' nextValue refId (VStr "@fn")
                        nextCtor onPathValue ;;
        onPathValue refId finalValue config ;;;
        ret finalValue
  end.

Definition createElement (fuel : nat) (v seedPath : value)
  (onPathValue : pathValueCallback) : M value :=
  (if isDevelopment E then validateSeedPath E seedPath else ret tt) ;;;
  if isType v vnode then ret v
  else
    seed <- lift (String_ seedPath) ;;
    processLisp fuel v newPath (VStr seed) VUndef onPathValue.

Definition renderWith (fuel : nat) (fromNode component seedPath : value)
  (onPathValue : pathValueCallback) : M value :=
  toNode <- createElement fuel component seedPath onPathValue ;;
  onVtreeCompleted ;;;
  requestPatch E fromNode toNode.

End Evaluator.
End Reentrant.

(* ================================================================== *)
(** * Earlier revisions of element.js *)
(* ================================================================== *)

(** What the earlier revisions import from vnode.js, and the user's
    functions.  These revisions keep no tables: evaluation is a function
    of the expression and of the path. *)
Record vnodeLibrary : Type := {
  isVnode : value -> bool;
  createVnode3 : value -> value -> value -> value;  (* [(tagName, props, refId)] *)
  ignoredValuesOf : value -> bool;
  developmentBuild : bool;
  userFunction : nat -> list value -> outcome value
}.

Fixpoint mapO_from {A B} (i : nat) (f : A -> nat -> outcome B) (xs : list A)
  : outcome (list B) :=
  match xs with
  | [] => Ok []
  | x :: rest =>
      obind (f x i) (fun y =>
      obind (mapO_from (S i) f rest) (fun ys => Ok (y :: ys)))
  end.

(** An element of [path.join('.')]: [null] and [undefined] print as the
    empty string. *)
Definition join_item (v : value) : outcome string :=
  match v with
  | VUndef | VNull => Ok ""
  | _ => to_string v
  end.

(** [path.join('.')] *)
Definition join_path (path : list value) : outcome string :=
  obind (mapO_from 0 (fun v _ => join_item v) path) (fun parts => Ok (join "." parts)).

(** [[...xs]] *)
Definition spread_items (v : value) : outcome (list value) :=
  match v with
  | VArr _ items => Ok items
  | VStr _ => Stuck (Unmodelled "iteration over the characters of a string")
  | _ => Throw (TypeError "value is not iterable")
  end.

(** [{ ...props }]: the enumerable own properties. *)
Definition own_fields (o : value) : fields :=
  match o with VObj fs => fs | _ => [] end.

Section Earlier.
Context (L : vnodeLibrary).

(** [f(props, path)] *)
Definition callEarlier (f : value) (args : list value) : outcome value :=
  match f with
  | VFun (FUser n) => userFunction L n args
  | VFun (FVnodeFactory tag) =>
      (* [elementFactory(props, refId) { return createVnode(tagName, props, refId) }] *)
      Ok (createVnode3 L (VStr tag) (nth 0 args VUndef) (nth 1 args VUndef))
  | VFun _ => Stuck (Unmodelled "function of the current revision")
  | _ => Throw (TypeError "not a function")
  end.

(** The callback of [prepareArgs]: [(arg, path)]. *)
Definition earlierProcessor := value -> value -> outcome value.

(** [prepareArgs]: every element after the head goes through the callback
    with the path extended by its position. *)
Definition prepareArgsEarlier (lisp : value) (callback : earlierProcessor)
  (path : list value) : outcome (list value) :=
  mapO_from 0
    (fun arg argPosition =>
       callback arg (VArr [] (path ++ [VNum (Z.of_nat argPosition)])))
    (skipn 1 (array_items lisp)).

(** [const hasProps = isPlainObject(firstArg) && !isVnode(firstArg)], then
    [args.shift()]: the props and the remaining arguments. *)
Definition shiftProps (args : list value) : value * list value :=
  let firstArg := nth 0 args VUndef in
  if isPlainObject firstArg && negb (isVnode L firstArg)
  then (firstArg, skipn 1 args)
  else (VObj [], args).

End Earlier.

(** ** The revision with [$$keyPassthrough] (src/unnamed/part_001) *)
Module KeyPassthrough.
Section Revision.
Context (L : vnodeLibrary).

Definition parsePath (nodePath : value) : outcome (list value) :=
  match nodePath with
  | VArr _ items => Ok items
  | VStr _ => Stuck (Unmodelled "Number(v) on the segments of a path string")
  | _ => Throw (TypeError "value.split is not a function")
  end.

Definition parseProps (v : value) (process : earlierProcessor)
  (path : list value) : outcome value :=
  obind (prepareArgsEarlier v process path) (fun args =>
  let '(props, children) := shiftProps L args in
  let childrenFromProps := get_prop props "children" in
  obind (if truthy childrenFromProps
         then obind (spread_items childrenFromProps)
                    (fun fromProps => Ok (fromProps ++ children))
         else Ok children) (fun combinedChildren =>
  obind (join_path path) (fun refId =>
  Ok (VObj (assoc_set "children" (VArr [] combinedChildren)
             (assoc_set "$$refId" (VStr refId) (own_fields props))))))).

Fixpoint processLisp (fuel : nat) (v nodePath : value) {struct fuel}
  : outcome value :=
  match fuel with
  | O => Stuck OutOfFuel
  | S fuel' =>
    obind (parsePath nodePath) (fun pathArray =>
    if negb (isLispLike v) then
      if isArray v then
        obind (mapO_from 0
                 (fun item i =>
                    processLisp fuel' item
                      (VArr [] (pathArray ++ [VNum (Z.of_nat i)])))
                 (array_items v))
              (fun results => Ok (VArr [] results))
      else Ok v
    else
      let f := getLispFunc v in
      let process : earlierProcessor :=
        if truthy (get_prop f "isVnodeFactory") then processLisp fuel'
        else fun arg _ => Ok arg in
      obind (parseProps v process pathArray) (fun props =>
      obind (callEarlier L f [props; VArr [] pathArray]) (fun nextValue =>
      let key := js_or (get_prop v "$$keyPassthrough") (get_prop props "key") in
      obind (if isDef key && negb (ignoredValuesOf L nextValue) then
               if isVnode L nextValue then set_prop nextValue "key" key
               else set_prop nextValue "$$keyPassthrough" key
             else Ok nextValue) (fun nextValue' =>
      processLisp fuel' nextValue' (VArr [] pathArray)))))
  end.

Definition createElement (fuel : nat) (v rootId : value) : outcome value :=
  if isVnode L v then Ok v
  else if negb (isDef rootId) then Throw RootIdRequired
  else
    let id := if isArray rootId then rootId else VArr [] [rootId] in
    processLisp fuel v id.

End Revision.
End KeyPassthrough.

(** ** The revision that rejects duplicated children
       (src/unnamed/part_000, the revision with [validateKey]) *)
Module ChildrenCheck.
Section Revision.
Context (L : vnodeLibrary).

(** The character class of [/^[a-zA-Z0-9-_@]*$/]. *)
Definition key_char (c : ascii) : bool :=
  let n := nat_of_ascii c in
  (((97 <=? n) && (n <=? 122)) || ((65 <=? n) && (n <=? 90))
   || ((48 <=? n) && (n <=? 57))
   || (n =? 45) || (n =? 95) || (n =? 64))%nat.

Definition validateKey (key : value) : outcome value :=
  if negb (developmentBuild L) then Ok key
  else if isDef key then
    if negb (String.eqb (typeof key) "string" || String.eqb (typeof key) "number")
    then Throw (KeyTypeError "Key" key)
    else
      obind (to_string key) (fun s =>
        if negb (all_chars key_char s) then Throw (KeyPatternError "Key" key)
        else Ok key)
  else Ok key.

(** [path.splice(-1, 1, key)]: the last segment gives way to the key. *)
Definition splice_last (path : list value) (key : value) : list value :=
  removelast path ++ [key].

(** [parseProps]: the props, and the path array as the call leaves it. *)
Definition parseProps (v : value) (process : earlierProcessor)
  (path : list value) : outcome (value * list value) :=
  obind (prepareArgsEarlier v process path) (fun args =>
  let '(props, args) := shiftProps L args in
  let childrenLength := length args in
  let children :=
    if (0 <? childrenLength)%nat then VArr [] args else get_prop props "children" in
  let hasDuplicateChildrenProps :=
    (0 <? childrenLength)%nat && truthy (get_prop props "children") in
  if hasDuplicateChildrenProps then Throw DuplicateChildrenError
  else
    let path :=
      if truthy (get_prop props "key")
      then splice_last path (get_prop props "key") else path in
    obind (join_path path) (fun refId =>
    Ok (VObj (assoc_set "children" children
               (assoc_set "$$refPath" (VArr [] path)
                 (assoc_set "$$refId" (VStr refId) (own_fields props)))),
        path))).

Definition parsePath (nodePath : value) : outcome (list value) :=
  match nodePath with
  | VArr _ items => Ok items
  | _ => Stuck (Unmodelled "Number(v) on the segments of a path string")
  end.

Fixpoint processLisp (fuel : nat) (v nodePath : value) {struct fuel}
  : outcome value :=
  match fuel with
  | O => Stuck OutOfFuel
  | S fuel' =>
    obind (parsePath nodePath) (fun pathArray =>
    if negb (isLispLike v) then
      if isArray v then
        obind (mapO_from 0
                 (fun item i =>
                    processLisp fuel' item
                      (VArr [] (pathArray ++ [VNum (Z.of_nat i)])))
                 (array_items v))
              (fun results => Ok (VArr [] results))
      else Ok v
    else
      let f := getLispFunc v in
      obind (parseProps v (processLisp fuel') pathArray) (fun parsed =>
      let '(props, pathArray) := parsed in
      obind (callEarlier L f [props; VArr [] pathArray]) (fun nextValue =>
      obind (validateKey (js_or (get_prop props "key")
                                (get_prop v "$$keyPassthrough"))) (fun key =>
      obind (if isDef key && negb (ignoredValuesOf L nextValue) then
               if isVnode L nextValue then set_prop nextValue "key" key
               else set_prop nextValue "$$keyPassthrough" key
             else Ok nextValue) (fun nextValue' =>
      processLisp fuel' nextValue' (get_prop props "$$refPath"))))))
  end.

Definition validateSeedPath (seedPath : value) : outcome unit :=
  if negb (String.eqb (typeof seedPath) "string"
           || String.eqb (typeof seedPath) "number")
     && negb (isArray seedPath)
  then Throw SeedPathTypeError
  else
    match seedPath with
    | VStr s => if negb (all_chars key_char s) then Throw SeedPathTypeError else Ok tt
    | _ => Ok tt
    end.

Definition createElement (fuel : nat) (v seedPath : value) : outcome value :=
  if isVnode L v then Ok v
  else
    obind (if developmentBuild L then validateSeedPath seedPath else Ok tt)
          (fun _ => processLisp fuel v seedPath).

End Revision.
End ChildrenCheck.

(* ================================================================== *)
(** * A concrete environment *)
(* ================================================================== *)

(** Modelled from the spec: vnode.js is not among the sources.  A composite
    node is "tag/selector + canonical props + ordered children + optional
    key + DOM-binding placeholder" (§3); with a node description as its
    only argument, as hooks.js calls it, [createVnode] "will generate a new
    vnode based on the props". *)
Definition specCreateVnode (sel config : value) : value :=
  match sel with
  | VObj description =>
      VObj (assoc_set "children" (get_prop (get_prop sel "props") "children")
              (assoc_set "type" (VSym vnode) description))
  | _ =>
      VObj [("type", VSym vnode);
            ("sel", sel);
            ("props", get_prop config "props");
            ("children",
             if isDef (get_prop config "children") then get_prop config "children"
             else get_prop (get_prop config "props") "children");
            ("key", get_prop config "key");
            ("elm", VUndef)]
  end.

(** Modelled from the spec: a primitive is "converted to a text node" (§3). *)
Definition specCreateTextVnode (v : value) : value :=
  VObj [("type", VSym vnode); ("text", v)].

(** Modelled from the spec: strings and numbers are the primitives that
    become text (§4.3); [null] and [false] are the ignored values (§3). *)
Definition specPrimitiveTypes (type : string) : bool :=
  String.eqb type "string" || String.eqb type "number".

Definition specIgnoredValues (v : value) : bool :=
  match v with
  | VNull => true
  | VBool false => true
  | _ => false
  end.

(** Modelled from the spec: "a value reaches leaf position without being a
    primitive, ignored-sentinel, collection, or already-valid node" is an
    error, "gated behind a development-mode flag" (§7). *)
Definition specValidateVnodeValue (dev : bool) (v : value) : outcome unit :=
  if dev && negb (isType v vnode) then Throw (UnrecognizedVnodeValue v) else Ok tt.

(** Modelled from the spec: constants.js is not among the sources.  The
    reserved keys are [children], [key], [shouldUpdate] and the bookkeeping
    keys (§3); paths are joined with "/" (§8). *)
Definition specIsSpecialProp (k : string) : bool :=
  String.eqb k "children" || String.eqb k "key" || String.eqb k "shouldUpdate"
  || String.eqb k "$$refId" || String.eqb k "$$previousRefId".

(** Modelled from the spec: [patch(oldTree, newTree) -> committedTree] (§6). *)
Definition specPatch (oldTree newTree : value) : value := newTree.

Definition specEnv (dev : bool) (fns : nat -> list value -> outcome value)
  : collaborators :=
  {| pathSeparator := "/";
     sp_refId := "$$refId";
     sp_previousRefId := "$$previousRefId";
     sp_shouldUpdate := "shouldUpdate";
     isSpecialProp := specIsSpecialProp;
     createVnode := specCreateVnode;
     createTextVnode := specCreateTextVnode;
     primitiveTypes := specPrimitiveTypes;
     ignoredValues := specIgnoredValues;
     validateVnodeValue := specValidateVnodeValue dev;
     patch := specPatch;
     isDevelopment := dev;
     userFn := fns |}.

(** Modelled from the spec: the vnode.js of the earlier revisions is not
    among the sources; a node is recognised by its type tag and built from
    its tag, props and RefId. *)
Definition specVnodeLibrary (dev : bool) (fns : nat -> list value -> outcome value)
  : vnodeLibrary :=
  {| isVnode := fun v => isPlainObject v && isType v vnode;
     createVnode3 := fun sel props refId =>
       VObj [("type", VSym vnode); ("sel", sel); ("props", props);
             ("children", get_prop props "children"); ("key", get_prop props "key");
             ("refId", refId)];
     ignoredValuesOf := specIgnoredValues;
     developmentBuild := dev;
     userFunction := fns |}.

(** ** Sample components *)

(** A node built ahead of its use, without a key. *)
Definition prebuiltNode : value :=
  VObj [("type", VSym vnode); ("sel", VStr "div"); ("key", VUndef)].

(** [0]: [(props) => props.x]; [1]: [(a, b) => a.x === b.x];
    [2]: [() => ["x", "a"]]; [3]: [() => ["x", "b"]]; [4]: [() => []];
    [5]: [Wrapper = () => [Inner, {}]]; [6]: [Inner = () => [div, "leaf"]]
    (earlier revisions); [7]: [() => "text"];
    [8]: [Wrapper = () => [Inner, {}]]; [9]: [Inner = () => prebuiltNode]. *)
Definition sampleFns (n : nat) (args : list value) : outcome value :=
  match n with
  | 0 => member (nth 0 args VUndef) "x"
  | 1 =>
      obind (member (nth 0 args VUndef) "x") (fun ax =>
      obind (member (nth 1 args VUndef) "x") (fun bx =>
      Ok (VBool (strict_eq ax bx))))
  | 2 => Ok (VArr [] [VStr "x"; VStr "a"])
  | 3 => Ok (VArr [] [VStr "x"; VStr "b"])
  | 4 => Ok (VArr [] [])
  | 5 => Ok (VArr [] [VFun (FUser 6); VObj []])
  | 6 => Ok (VArr [] [VFun (FVnodeFactory "div"); VStr "leaf"])
  | 7 => Ok (VStr "text")
  | 8 => Ok (VArr [] [VFun (FUser 9); VObj []])
  | 9 => Ok prebuiltNode
  | _ => Ok VUndef
  end.

Definition prodEnv : collaborators := specEnv false sampleFns.
Definition devEnv : collaborators := specEnv true sampleFns.

(** [[Comp, { x, shouldUpdate: (a, b) => a.x === b.x }]] *)
Definition memoExpression (x : Z) : value :=
  VArr [] [VFun (FUser 0);
           VObj [("x", VNum x); ("shouldUpdate", VFun (FUser 1))]].

(** The state a computation leaves behind, and its answer. *)
Definition state_after {A} (m : M A) (s : state) : state := fst (m s).
Definition answer_of {A} (m : M A) (s : state) : outcome A := snd (m s).

(* ================================================================== *)
(** * Vocabulary of the properties *)
(* ================================================================== *)

(** An evaluation only appends to the record of invocations, only adds
    RefIds to the memoization store and requests no patch: [extends s s']
    says that [s'] is such a later state of [s]. *)
Definition extends (s s' : state) : Prop :=
  (exists tail, invocations s' = invocations s ++ tail)
  /\ (forall k, map_has strict_eq k (currentConfigs s) = true ->
                map_has strict_eq k (currentConfigs s') = true)
  /\ patchRequests s' = patchRequests s.

Definition monotone {A} (m : M A) : Prop :=
  forall s, extends s (fst (m s)).

(** The fresh config of a component invocation. *)
Definition freshConfig (E : collaborators) (v refId ctor : value) (s : state)
  : config :=
  mkConfig (nextId s) (componentProps E v refId) refId ctor.

(** What [processLisp] does with the config [parseProps] answered: the
    part of its body after the call of [parseProps]. *)
Definition settleInvocation (E : collaborators) (fuel : nat) (f : value)
  (onPathValue : pathValueCallback) (config : config) : M value :=
  let fInput := if isType f domComponent then config_obj config else cfg_props config in
  let refId := get_prop (cfg_props config) (sp_refId E) in
  currentConfig <- getCurrentConfig refId ;;
  let isMemoized :=
    match currentConfig with
    | Some current => Nat.eqb (cfg_id current) (cfg_id config)
    | None => false
    end in
  if isMemoized then getTreeValue refId
  else
    setCurrentConfig refId config ;;;
    setCurrentDispatcher refId f ;;;
    recordInvocation f fInput ;;;
    nextValue <- lift (call E f [fInput]) ;;
    finalValue <- processLisp E fuel nextValue refId (VStr "@fn") f onPathValue ;;
    onPathValue refId finalValue config ;;;
    ret finalValue.




(** What the library of the earlier revisions is relied on for: nodes are
    objects, marking an object with [$$keyPassthrough] does not make it a
    node, and an ignored value is neither an array nor a node. *)
Record vnodeLibraryLaws (L : vnodeLibrary) : Prop := {
  vnode_is_object : forall x, isVnode L x = true -> exists fs, x = VObj fs;
  passthrough_mark_is_no_vnode : forall fs k,
    isVnode L (VObj fs) = false ->
    isVnode L (VObj (assoc_set "$$keyPassthrough" k fs)) = false;
  ignored_is_no_node : forall x,
    ignoredValuesOf L x = true -> isArray x = false /\ isVnode L x = false
}.

(** The key an expression is invoked with: the key passed through to it,
    else the key of its configuration object. *)
Inductive invokedWithKey (L : vnodeLibrary) (key : value) : value -> Prop :=
| passedThrough : forall v,
    get_prop v "$$keyPassthrough" = key -> invokedWithKey L key v
| ownKey : forall named head config rest,
    truthy (from_option (assoc "$$keyPassthrough" named)) = false ->
    isVnode L (VObj config) = false ->
    get_prop (VObj config) "key" = key ->
    invokedWithKey L key (VArr named (head :: VObj config :: rest)).

(** [[head, { children }, "b"]]: a children prop and a positional child. *)
Definition duplicatedChildren (head children : value) : value :=
  VArr [] [head; VObj [("children", children)]; VStr "b"].

(** [[Wrapper, { key: "k" }]] with [Wrapper = () => [Inner, {}]] and
    [Inner = () => [div, "leaf"]]; and the same with an [Inner] that
    answers a node built ahead. *)
Definition wrapperExpression : value :=
  VArr [] [VFun (FUser 5); VObj [("key", VStr "k")]].

Definition wrapperOfPrebuilt : value :=
  VArr [] [VFun (FUser 8); VObj [("key", VStr "k")]].

(** [ch[0].refId === currentValue[0].refId] *)
Definition sameFragment (ch currentValue : value) : bool :=
  match member (get_index ch 0) "refId" with
  | Ok chRefId =>
      match member (get_index currentValue 0) "refId" with
      | Ok currentRefId => strict_eq chRefId currentRefId
      | _ => false
      end
  | _ => false
  end.

(** [[div, "before", [A], "after"]] with [A = () => ["x", "a"]], rendered
    at the seed ["R"]; [[div, [A], [B]]] with [B = () => ["x", "b"]]; and
    [[div, [A], [Empty]]] with [Empty = () => []]. *)
Definition fragmentBetweenText : value :=
  VArr [] [VFun (FFactory "div"); VStr "before"; VArr [] [VFun (FUser 2)];
           VStr "after"].
Definition textState : state :=
  state_after (renderWith devEnv 10 VUndef fragmentBetweenText (VStr "R")
                 setTreeValue) emptyState.
Definition fragmentXA : value :=
  VArr [] [specCreateTextVnode (VStr "x"); specCreateTextVnode (VStr "a")].

Definition fragmentXB : value :=
  VArr [] [specCreateTextVnode (VStr "x"); specCreateTextVnode (VStr "b")].

Definition twoFragments : value :=
  VArr [] [VFun (FFactory "div"); VArr [] [VFun (FUser 2)];
           VArr [] [VFun (FUser 3)]].
Definition twoFragmentsState : state :=
  state_after (renderWith devEnv 10 VUndef twoFragments (VStr "R") setTreeValue)
    emptyState.

Definition emptySibling : value :=
  VArr [] [VFun (FFactory "div"); VArr [] [VFun (FUser 2)];
           VArr [] [VFun (FUser 4)]].
Definition emptySiblingState : state :=
  state_after (renderWith devEnv 10 VUndef emptySibling (VStr "R") setTreeValue)
    emptyState.

(** [[div, "before", [Comp, { x }], "after"]] with [Comp = (props) =>
    props.x], and the state after a render with [x = ["x", "a"]] at the
    seed ["R"] followed by an evaluation with [x = ["x", "b"]] that
    recorded no tree value. *)
Definition listing (x : value) : value :=
  VArr [] [VFun (FFactory "div"); VStr "before";
           VArr [] [VFun (FUser 0); VObj [("x", x)]]; VStr "after"].
Definition staleListingState : state :=
  state_after
    (createElement devEnv 10 (listing (VArr [] [VStr "x"; VStr "b"]))
       (VStr "R") identityCallback)
    (state_after
       (renderWith devEnv 10 VUndef (listing (VArr [] [VStr "x"; VStr "a"]))
          (VStr "R") setTreeValue)
       emptyState).

(** The children of the node most recently handed to the patch engine. *)
Definition lastPatchedChildren (s : state) : value :=
  get_prop (get_prop (snd (last (patchRequests s) (VUndef, VUndef))) "props")
    "children".

(** One render of [[Comp, { x, shouldUpdate }]] at the seed ["R"], and the
    states after the first and the second render with [x = 1]. *)
Definition renderMemo (x : Z) : M value :=
  renderWith prodEnv 10 VUndef (memoExpression x) (VStr "R") setTreeValue.

Definition memoState1 : state := state_after (renderMemo 1) emptyState.
Definition memoState2 : state := state_after (renderMemo 1) memoState1.
Definition memoState3 : state := state_after (renderMemo 2) memoState2.

(** ** Vocabulary of the further properties *)

(** The [shouldCleanup] a call of [useModel] ends up with. *)
Definition shouldCleanupOf (options : value) : outcome value :=
  if isDef options then
    obind (member options "shouldCleanup")
          (fun given => Ok (if isDef given then given else defaultShouldCleanup))
  else Ok defaultShouldCleanup.

(** The tables after [useModel] stored [m] under [key], with its teardown
    hook queued and [used] identities allocated. *)
Definition afterUseModel (E : collaborators) (refId : string) (key : value)
  (m : model) (scoped : jsmap value model) (h : hook) (used : nat) (s : state)
  : state :=
  mkState (currentConfigs s) (currentDispatchers s) (treeValues s)
          (map_set String.eqb (getPathRoot E refId)
             (map_set strict_eq key m scoped) (activeModels s))
          (hookQueue s ++ [h]) (used + nextId s) (invocations s)
          (patchRequests s) (completedPasses s).

(** [m] relates every state to the state it leaves, by [R]. *)
Definition keeps (R : state -> state -> Prop) {A} (m : M A) : Prop :=
  forall s, R s (fst (m s)).

(** The state after the three writes that precede the call of a component
    function: config and dispatcher recorded, invocation logged. *)
Definition invoked (refId : value) (c : config) (f input : value) (s : state)
  : state :=
  mkState (map_set strict_eq refId c (currentConfigs s))
          (map_set strict_eq refId f (currentDispatchers s))
          (treeValues s) (activeModels s) (hookQueue s) (nextId s)
          (invocations s ++ [(f, input)]) (patchRequests s) (completedPasses s).

(** Nothing was committed between [s] and [s']: no patch requested, no
    pass completed. *)
Definition noCommit (s s' : state) : Prop :=
  patchRequests s' = patchRequests s /\ completedPasses s' = completedPasses s.

(** Nothing was rendered between [s] and [s']: no tree value written, no
    patch requested, no pass completed. *)
Definition noRender (s s' : state) : Prop :=
  treeValues s' = treeValues s /\ noCommit s s'.

(** Every recorded config sits under the RefId its props carry, has an
    object literal as props, is older than the next object identity, and
    has a function as its dispatcher. *)
Definition storeWellFormed (E : collaborators) (s : state) : Prop :=
  forall k c, map_get strict_eq k (currentConfigs s) = Some c ->
    get_prop (cfg_props c) (sp_refId E) = k
    /\ (exists fs, cfg_props c = VObj fs)
    /\ cfg_id c < nextId s
    /\ exists f, map_get strict_eq k (currentDispatchers s) = Some f
                 /\ isFunc f = true.

(** [storeWellFormed] is kept from [s] to [s']. *)
Definition keepsWellFormed (E : collaborators) (s s' : state) : Prop :=
  nextId s <= nextId s' /\ (storeWellFormed E s -> storeWellFormed E s').

(** What [forceUpdate] relies on in constants.js and vnode.js: the names of
    the bookkeeping props are the ones the sources spell out, the RefId
    prop is reserved, and expressions are neither text nor ignored. *)
Record bookkeepingLaws (E : collaborators) : Prop := {
  refId_name : sp_refId E = "$$refId";
  shouldUpdate_name : sp_shouldUpdate E = "shouldUpdate";
  previousRefId_name : sp_previousRefId E <> "shouldUpdate";
  refId_reserved : isSpecialProp E (sp_refId E) = true;
  objects_are_no_text : primitiveTypes E "object" = false;
  arrays_are_not_ignored :
    forall named items, ignoredValues E (VArr named items) = false
}.

(** [useModel(refId, "count", 0)], and the states after a first and a
    second use at ["root/a"]. *)
Definition counterUse (refId : string) : M model :=
  useModel prodEnv 2 refId (VStr "count") (VNum 0) VUndef.
Definition counterState1 : state := state_after (counterUse "root/a") emptyState.
Definition counterState2 : state := state_after (counterUse "root/a") counterState1.

(** The model and the hook of the first use. *)
Definition counterModel : model :=
  mkModel 1 (VNum 0) [(VStr "root/a", mkWatcher 2 "root/a")].
Definition counterHook : hook :=
  mkHook "root/a" (VStr "count") defaultShouldCleanup (mkWatcher 2 "root/a").

(** [[Comp, { key: "k", x: 1 }]] *)
Definition keyedExpression : value :=
  VArr [] [VFun (FUser 0); VObj [("key", VStr "k"); ("x", VNum 1)]].

(** [[Comp, { x }]] with [Comp = (props) => props.x], and the state after
    a render with [x = 1] at the seed ["R"] followed by an evaluation with
    [x = 2] that recorded no tree value. *)
Definition plainExpression (x : Z) : value :=
  VArr [] [VFun (FUser 0); VObj [("x", VNum x)]].
Definition staleState : state :=
  state_after
    (createElement prodEnv 10 (plainExpression 2) (VStr "R") identityCallback)
    (state_after
       (renderWith prodEnv 10 VUndef (plainExpression 1) (VStr "R") setTreeValue)
       emptyState).

(** User code that is a function of its arguments, as [userFn] has it. *)
Definition pureCode (E : collaborators) (n : nat) (args : list value) : M value :=
  lift (userFn E n args).

(** [Counter = () => useModel("R", "count", 0).value]: a component that
    uses a hook, whatever its number. *)
Definition counterComponent (n : nat) (args : list value) : M value :=
  m <- useModel prodEnv 2 "R" (VStr "count") (VNum 0) VUndef ;;
  ret (model_value m).

(** [[Counter, {}]] *)
Definition counterExpression : value := VArr [] [VFun (FUser 0); VObj []].

(* ================================================================== *)
(** * Properties *)
(* ================================================================== *)

(** ** Property lists and maps *)

Lemma assoc_set_same : forall k v fs, assoc k (assoc_set k v fs) = Some v.
Proof.
  intros k v fs; induction fs as [|[k' v'] rest IH]; simpl.
  - now rewrite String.eqb_refl.
  - destruct (String.eqb k k') eqn:Hk; simpl.
    + now rewrite String.eqb_refl.
    + now rewrite Hk.
Qed.

Lemma assoc_set_other : forall k k' v fs,
  String.eqb k k' = false -> assoc k (assoc_set k' v fs) = assoc k fs.
Proof.
  intros k k' v fs Hne; induction fs as [|[k0 v0] rest IH]; simpl.
  - now rewrite Hne.
  - destruct (String.eqb k' k0) eqn:Hk0; simpl.
    + apply String.eqb_eq in Hk0; subst k0. now rewrite Hne.
    + destruct (String.eqb k k0); [reflexivity | exact IH].
Qed.

Lemma strict_eq_VStr_refl : forall s, strict_eq (VStr s) (VStr s) = true.
Proof. intros s; simpl; apply String.eqb_refl. Qed.

Section MapFacts.
Context {K V : Type} (eqb : K -> K -> bool).

Lemma map_get_set_same : forall k (v : V) m,
  eqb k k = true -> map_get eqb k (map_set eqb k v m) = Some v.
Proof.
  intros k v m Hrefl; induction m as [|[k' v'] rest IH]; simpl.
  - now rewrite Hrefl.
  - destruct (eqb k k') eqn:Hk; simpl.
    + now rewrite Hrefl.
    + now rewrite Hk.
Qed.

Lemma map_get_set_other : forall k k' (v : V) m,
  (forall a b, eqb a b = true -> a = b) ->
  eqb k k' = false -> map_get eqb k (map_set eqb k' v m) = map_get eqb k m.
Proof.
  intros k k' v m eqb_eq Hne; induction m as [|[k0 v0] rest IH]; simpl.
  - now rewrite Hne.
  - destruct (eqb k' k0) eqn:Hk0; simpl.
    + apply eqb_eq in Hk0; subst k0. now rewrite Hne.
    + destruct (eqb k k0); [reflexivity | exact IH].
Qed.
End MapFacts.

(** ** Fragment *)

(** C10. The exported [Fragment] component is the projection onto the
    [children] prop: applied to a props mapping it answers the value held
    under [children], untouched, and [undefined] when there is none. *)
Theorem Fragment_projects_children : forall (E : collaborators) (p : fields),
  Fragment (VObj p) = Ok (get_prop (VObj p) "children")
  /\ call E (VFun FFragment) [VObj p] = Fragment (VObj p)
  /\ (forall c, Fragment (VObj (assoc_set "children" c p)) = Ok c).
Proof.
  intros E p; repeat split.
  intros c; unfold Fragment; simpl. now rewrite assoc_set_same.
Qed.

(** ** Key validation *)

(** C7. In development, a defined key whose type is neither string nor
    number makes [validateKey] throw, and so does a string or number key
    whose text fails [/^[a-zA-Z0-9-_/]*$/]; outside development
    [validateKey] answers the key itself, whatever the key. *)
Theorem validateKey_development_gated :
  forall (E : collaborators) (key : value) (keyType : string),
  (isDevelopment E = true -> isDef key = true ->
     (vnodeKeyTypes (typeof key) = false ->
        validateKey E key keyType = Throw (KeyTypeError keyType key))
     /\ (forall text, vnodeKeyTypes (typeof key) = true ->
           to_string key = Ok text -> keyRegex_test text = false ->
           validateKey E key keyType = Throw (KeyPatternError keyType key)))
  /\ (isDevelopment E = false -> validateKey E key keyType = Ok key).
Proof.
  intros E key keyType; split.
  - intros Hdev Hdef; split.
    + intros Htype. unfold validateKey. now rewrite Hdev, Hdef, Htype.
    + intros text Htype Htext Hre. unfold validateKey.
      rewrite Hdev, Hdef, Htype, Htext; simpl. now rewrite Hre.
  - intros Hprod. unfold validateKey. now rewrite Hprod.
Qed.

Lemma validateKey_development_gated_witness :
  validateKey devEnv (VBool true) "key" = Throw (KeyTypeError "key" (VBool true))
  /\ validateKey devEnv (VStr "a b") "key" = Throw (KeyPatternError "key" (VStr "a b"))
  /\ validateKey prodEnv (VStr "a b") "key" = Ok (VStr "a b").
Proof.
  split; [|split].
  - apply (validateKey_development_gated devEnv (VBool true) "key");
      reflexivity.
  - apply (proj1 (validateKey_development_gated devEnv (VStr "a b") "key")
             eq_refl eq_refl) with (text := "a b"); reflexivity.
  - apply (validateKey_development_gated prodEnv (VStr "a b") "key");
      reflexivity.
Defined.

(** ** [createElement] on a node *)

(** In development the seed is validated before the node is looked at:
    [createElement(existingNode)], with no seed, throws. *)
Lemma createElement_vnode_development_seed :
  createElement devEnv 5 (specCreateTextVnode (VStr "t")) VUndef
    identityCallback emptyState
  = (emptyState, Throw SeedPathTypeError).
Proof. reflexivity. Qed.

Lemma createElement_of_vnode :
  forall (E : collaborators) (fuel : nat) (v seedPath : value)
         (onPathValue : pathValueCallback) (s : state),
  isType v vnode = true ->
  isDevelopment E = false \/ answer_of (validateSeedPath E seedPath) s = Ok tt ->
  createElement E fuel v seedPath onPathValue s = (s, Ok v).
Proof.
  intros E fuel v seedPath onPathValue s Hv Hseed.
  unfold createElement, bind.
  destruct (isDevelopment E) eqn:Hdev.
  - destruct Hseed as [Hseed | Hseed]; [discriminate|].
    unfold answer_of in Hseed.
    assert (Hst : fst (validateSeedPath E seedPath s) = s).
    { unfold validateSeedPath, bind, hasTreeValue, gets, lift, ret; simpl.
      destruct (map_has strict_eq seedPath (treeValues s)); [reflexivity|].
      destruct (negb (vnodeKeyTypes (typeof seedPath))); [reflexivity|].
      destruct (validateKey E seedPath "seedPath"); reflexivity. }
    destruct (validateSeedPath E seedPath s) as [s' r]; simpl in *; subst.
    now rewrite Hv.
  - unfold ret. now rewrite Hv.
Qed.

(** C6 (amended). Outside development, and in development when the seed
    path passes [validateSeedPath], [createElement] applied to a node
    answers that node and leaves every table as it was. *)
Theorem createElement_vnode_identity :
  forall (E : collaborators) (fuel : nat) (v seedPath : value)
         (onPathValue : pathValueCallback) (s : state),
  isType v vnode = true ->
  isDevelopment E = false \/ answer_of (validateSeedPath E seedPath) s = Ok tt ->
  createElement E fuel v seedPath onPathValue s = (s, Ok v).
Proof.
  intros E fuel v seedPath onPathValue s Hv Hseed.
  now apply createElement_of_vnode.
Qed.

Lemma createElement_vnode_identity_witness :
  createElement devEnv 0 (specCreateTextVnode (VStr "t")) (VStr "root")
    identityCallback emptyState
  = (emptyState, Ok (specCreateTextVnode (VStr "t"))).
Proof.
  apply createElement_vnode_identity; [reflexivity | right; reflexivity].
Defined.

(** ** Hooks: the scoped model registry *)

(** C9. [hasModel] is total: when the subtree root of [refId] has no
    scoped registry, it answers [false] for every key (the lookup falls
    back to the empty map). *)
Theorem hasModel_without_registry :
  forall (E : collaborators) (refId : string) (key : value) (s : state),
  getScopedModels E refId s = None ->
  hasModel E refId key s = false.
Proof.
  intros E refId key s Hnone. unfold hasModel. now rewrite Hnone.
Qed.

Lemma hasModel_without_registry_witness :
  hasModel prodEnv "root/a" (VStr "count") emptyState = false.
Proof.
  apply hasModel_without_registry. reflexivity.
Defined.

(** The model [useModel] hands out once the registry of the root exists. *)
Lemma useModel_registers :
  forall (E : collaborators) (fuel : nat) (refId : string)
         (key initialModel options : value) (s s' : state)
         (scoped : jsmap value model) (m : model),
  isDef key = true ->
  getScopedModels E refId s = Some scoped ->
  useModel E (S fuel) refId key initialModel options s = (s', Ok m) ->
  getScopedModels E refId s' = Some (map_set strict_eq key m scoped)
  /\ (forall existing, map_get strict_eq key scoped = Some existing ->
        model_id m = model_id existing /\ model_value m = model_value existing)
  /\ (map_get strict_eq key scoped = None ->
        watchersList m = [(VStr refId, mkWatcher (S (nextId s)) refId)]
        /\ model_id m = nextId s
        /\ (if isFunc initialModel
            then call E initialModel [] = Ok (model_value m)
            else model_value m = initialModel)).
Proof.
  intros E fuel refId key initialModel options s s' scoped m Hkey Hscoped Hrun.
  simpl in Hrun. rewrite Hkey in Hrun.
  unfold bind at 1 in Hrun. unfold gets at 1 in Hrun. rewrite Hscoped in Hrun.
  unfold getScopedModels in *.
  destruct (map_get strict_eq key scoped) as [existing|] eqn:Hget.
  - (* the model exists: the producer is not run *)
    unfold bind, ret, lift, fresh, enqueueHook, modify in Hrun; simpl in Hrun.
    destruct (isDef options) eqn:Hopt.
    + destruct (member options "shouldCleanup") as [given| |] eqn:Hmem;
        simpl in Hrun; try discriminate.
      inversion Hrun; subst s' m; clear Hrun. simpl.
      split; [|split].
      * rewrite Hscoped. f_equal. apply map_get_set_same, String.eqb_refl.
      * intros ex Hex; inversion Hex; subst; simpl; auto.
      * discriminate.
    + simpl in Hrun. inversion Hrun; subst s' m; clear Hrun. simpl.
      split; [|split].
      * rewrite Hscoped. f_equal. apply map_get_set_same, String.eqb_refl.
      * intros ex Hex; inversion Hex; subst; simpl; auto.
      * discriminate.
  - (* no model under the key: [initModel] creates one *)
    unfold initModel in Hrun.
    unfold bind, ret, lift, fresh, enqueueHook, modify in Hrun; simpl in Hrun.
    destruct (isFunc initialModel) eqn:Hfun.
    + destruct (call E initialModel []) as [v0| |] eqn:Hcall; simpl in Hrun;
        try discriminate.
      destruct (isDef options) eqn:Hopt.
      * destruct (member options "shouldCleanup") as [given| |] eqn:Hmem;
          simpl in Hrun; try discriminate.
        inversion Hrun; subst s' m; clear Hrun. simpl.
        split; [|split].
        -- rewrite Hscoped. f_equal. apply map_get_set_same, String.eqb_refl.
        -- discriminate.
        -- auto.
      * simpl in Hrun. inversion Hrun; subst s' m; clear Hrun. simpl.
        split; [|split].
        -- rewrite Hscoped. f_equal. apply map_get_set_same, String.eqb_refl.
        -- discriminate.
        -- auto.
    + destruct (isDef options) eqn:Hopt.
      * destruct (member options "shouldCleanup") as [given| |] eqn:Hmem;
          simpl in Hrun; try discriminate.
        inversion Hrun; subst s' m; clear Hrun. simpl.
        split; [|split].
        -- rewrite Hscoped. f_equal. apply map_get_set_same, String.eqb_refl.
        -- discriminate.
        -- auto.
      * simpl in Hrun. inversion Hrun; subst s' m; clear Hrun. simpl.
        split; [|split].
        -- rewrite Hscoped. f_equal. apply map_get_set_same, String.eqb_refl.
        -- discriminate.
        -- auto.
Qed.

Lemma useModel_returns :
  forall (E : collaborators) (fuel : nat) (refId : string)
         (key initialModel options : value) (s : state)
         (scoped : jsmap value model),
  getScopedModels E refId s = Some scoped ->
  options <> VNull ->
  (isFunc initialModel = true -> exists v, call E initialModel [] = Ok v) ->
  exists s' m, useModel E (S fuel) refId key initialModel options s = (s', Ok m).
Proof.
  intros E fuel refId key initialModel options s scoped Hscoped Hopt Hinit.
  simpl. unfold bind at 1. unfold gets at 1. rewrite Hscoped.
  assert (Hmem : isDef options = true ->
                 exists given, member options "shouldCleanup" = Ok given).
  { intros Hdef. destruct options; simpl in *;
      try discriminate; try congruence; eexists; reflexivity. }
  destruct (map_get strict_eq (if isDef key then key else VStr refId) scoped)
    as [existing|].
  - unfold bind, ret, lift, fresh, enqueueHook, modify; simpl.
    destruct (isDef options) eqn:Hdef.
    + destruct (Hmem eq_refl) as [given Hgiven]. rewrite Hgiven; simpl.
      eexists; eexists; reflexivity.
    + simpl. eexists; eexists; reflexivity.
  - unfold initModel, bind, ret, lift, fresh, enqueueHook, modify; simpl.
    destruct (isFunc initialModel) eqn:Hfun.
    + destruct (Hinit eq_refl) as [v Hv]. rewrite Hv; simpl.
      destruct (isDef options) eqn:Hdef.
      * destruct (Hmem eq_refl) as [given Hgiven]. rewrite Hgiven; simpl.
        eexists; eexists; reflexivity.
      * simpl. eexists; eexists; reflexivity.
    + destruct (isDef options) eqn:Hdef.
      * destruct (Hmem eq_refl) as [given Hgiven]. rewrite Hgiven; simpl.
        eexists; eexists; reflexivity.
      * simpl. eexists; eexists; reflexivity.
Qed.

Lemma getScopedModels_after_setup :
  forall (E : collaborators) (refId : string) (s : state),
  getScopedModels E refId (fst (setupScopedModels E refId s)) = Some [].
Proof.
  intros E refId s. unfold getScopedModels, setupScopedModels, modify; simpl.
  apply map_get_set_same, String.eqb_refl.
Qed.

(** C8. With the key argument omitted, [useModel] uses [refId] as the
    model key: the call is the call with [key = refId]; it answers (given
    fuel for its one re-entry, options that can be read and an initial
    value that can be produced) and the model it answers is the one the
    scoped registry of the subtree root of [refId] now holds under the key
    [refId] -- the model that was there, if there was one. *)
Theorem useModel_key_defaults_to_refId :
  forall (E : collaborators) (fuel : nat) (refId : string)
         (initialModel options : value) (s : state),
  useModel E fuel refId VUndef initialModel options s
  = useModel E fuel refId (VStr refId) initialModel options s
  /\ (forall s' m,
        useModel E fuel refId VUndef initialModel options s = (s', Ok m) ->
        (exists scoped,
           getScopedModels E refId s' = Some scoped
           /\ map_get strict_eq (VStr refId) scoped = Some m)
        /\ (forall scoped0 existing,
              getScopedModels E refId s = Some scoped0 ->
              map_get strict_eq (VStr refId) scoped0 = Some existing ->
              model_id m = model_id existing
              /\ model_value m = model_value existing))
  /\ (2 <= fuel -> options <> VNull ->
      (isFunc initialModel = true -> exists v, call E initialModel [] = Ok v) ->
      exists s' m,
        useModel E fuel refId VUndef initialModel options s = (s', Ok m)).
Proof.
  intros E fuel refId initialModel options s. split; [|split].
  - destruct fuel; reflexivity.
  - intros s' m Hrun.
    destruct fuel as [|fuel]; [discriminate|].
    destruct (getScopedModels E refId s) as [scoped|] eqn:Hscoped.
    + destruct (useModel_registers E fuel refId (VStr refId) initialModel
                  options s s' scoped m eq_refl Hscoped Hrun)
        as (Hreg & Hexisting & _).
      split.
      * exists (map_set strict_eq (VStr refId) m scoped). split; [exact Hreg|].
        apply map_get_set_same, strict_eq_VStr_refl.
      * intros scoped0 existing Hs0 Hex. inversion Hs0; subst scoped0.
        now apply Hexisting.
    + (* no registry yet: it is set up and the call is made again *)
      simpl in Hrun. unfold bind at 1 in Hrun. unfold gets at 1 in Hrun.
      rewrite Hscoped in Hrun. unfold bind at 1 in Hrun.
      remember (setupScopedModels E refId s) as setup eqn:Hsetup.
      pose proof (getScopedModels_after_setup E refId s) as Hafter.
      rewrite <- Hsetup in Hafter.
      destruct setup as [s1 [[]| |]]; try (unfold setupScopedModels, modify in Hsetup;
                                          discriminate).
      simpl in Hafter.
      destruct fuel as [|fuel]; [discriminate|].
      destruct (useModel_registers E fuel refId (VStr refId) initialModel
                  options s1 s' [] m eq_refl Hafter Hrun)
        as (Hreg & _ & _).
      split.
      * exists (map_set strict_eq (VStr refId) m []). split; [exact Hreg|].
        apply map_get_set_same, strict_eq_VStr_refl.
      * intros scoped0 existing Hs0; discriminate.
  - intros Hfuel Hopt Hinit.
    destruct fuel as [|[|fuel]]; try lia.
    destruct (getScopedModels E refId s) as [scoped|] eqn:Hscoped.
    + exact (useModel_returns E (S fuel) refId VUndef initialModel options s
               scoped Hscoped Hopt Hinit).
    + cbn [useModel]. unfold bind at 1. unfold gets at 1. rewrite Hscoped.
      unfold bind at 1.
      remember (setupScopedModels E refId s) as setup eqn:Hsetup.
      pose proof (getScopedModels_after_setup E refId s) as Hafter.
      rewrite <- Hsetup in Hafter.
      destruct setup as [s1 [[]| |]]; try (unfold setupScopedModels, modify in Hsetup;
                                          discriminate).
      simpl in Hafter.
      exact (useModel_returns E fuel refId (VStr refId) initialModel options s1
               [] Hafter Hopt Hinit).
Qed.

Lemma useModel_key_defaults_to_refId_witness :
  exists s' m,
    useModel prodEnv 2 "root/a" VUndef (VNum 0) VUndef emptyState = (s', Ok m).
Proof.
  apply (useModel_key_defaults_to_refId prodEnv 2 "root/a" (VNum 0) VUndef
           emptyState).
  - lia.
  - discriminate.
  - discriminate.
Defined.


(** ** What an evaluation never undoes *)

Lemma extends_refl : forall s, extends s s.
Proof.
  intros s; repeat split; [exists []; now rewrite app_nil_r | auto].
Qed.

Lemma extends_trans : forall s1 s2 s3,
  extends s1 s2 -> extends s2 s3 -> extends s1 s3.
Proof.
  intros s1 s2 s3 [[t1 H1] [K1 P1]] [[t2 H2] [K2 P2]]; repeat split.
  - exists (t1 ++ t2). now rewrite H2, H1, app_assoc.
  - auto.
  - congruence.
Qed.

Lemma fn_eqb_eq : forall f g, fn_eqb f g = true -> f = g.
Proof.
  intros [a|a|a| |] [b|b|b| |]; simpl; intros H; try discriminate;
    try reflexivity; f_equal;
    first [now apply Nat.eqb_eq | now apply String.eqb_eq].
Qed.

Lemma strict_eq_eq : forall a b, strict_eq a b = true -> a = b.
Proof.
  intros a b; destruct a, b; simpl; intros H; try discriminate;
    try reflexivity; f_equal.
  - now apply Bool.eqb_prop.
  - now apply Z.eqb_eq.
  - now apply String.eqb_eq.
  - now apply String.eqb_eq.
  - now apply fn_eqb_eq.
Qed.

Lemma map_has_set : forall (V : Type) (k k' : value) (c : V) m,
  map_has strict_eq k m = true ->
  map_has strict_eq k (map_set strict_eq k' c m) = true.
Proof.
  intros V k k' c m. unfold map_has.
  induction m as [|[k0 v0] rest IH]; simpl; [discriminate|].
  destruct (strict_eq k' k0) eqn:Hk0; simpl.
  - apply strict_eq_eq in Hk0; subst k0.
    destruct (strict_eq k k'); auto.
  - destruct (strict_eq k k0); auto.
Qed.

Lemma monotone_ret : forall A (a : A), monotone (ret a).
Proof. intros A a s; apply extends_refl. Qed.

Lemma monotone_lift : forall A (o : outcome A), monotone (lift o).
Proof. intros A o s; apply extends_refl. Qed.

Lemma monotone_gets : forall A (f : state -> A), monotone (gets f).
Proof. intros A f s; apply extends_refl. Qed.

Lemma monotone_bind : forall A B (m : M A) (k : A -> M B),
  monotone m -> (forall a, monotone (k a)) -> monotone (bind m k).
Proof.
  intros A B m k Hm Hk s. unfold bind.
  specialize (Hm s). destruct (m s) as [s' [a|e|w]]; simpl in *; auto.
  eapply extends_trans; [exact Hm | apply Hk].
Qed.

Ltac unchanged_tables :=
  repeat split; simpl; [exists []; now rewrite app_nil_r | auto].

Lemma monotone_fresh : monotone fresh.
Proof. intros s; unchanged_tables. Qed.

Lemma monotone_getCurrentConfig : forall refId, monotone (getCurrentConfig refId).
Proof. intros; apply monotone_gets. Qed.

Lemma monotone_getTreeValue : forall refId, monotone (getTreeValue refId).
Proof. intros; apply monotone_gets. Qed.

Lemma monotone_setCurrentConfig : forall refId c, monotone (setCurrentConfig refId c).
Proof.
  intros refId c s; repeat split; simpl.
  - exists []; now rewrite app_nil_r.
  - intros k; apply map_has_set.
Qed.

Lemma monotone_setCurrentDispatcher : forall refId f,
  monotone (setCurrentDispatcher refId f).
Proof. intros refId f s; unchanged_tables. Qed.

Lemma monotone_recordInvocation : forall f input, monotone (recordInvocation f input).
Proof.
  intros f input s; repeat split; simpl; [exists [(f, input)]; reflexivity | auto].
Qed.

Lemma monotone_setTreeValue : forall refId v c, monotone (setTreeValue refId v c).
Proof. intros refId v c s; unchanged_tables. Qed.

Lemma monotone_identityCallback : forall refId v c,
  monotone (identityCallback refId v c).
Proof. intros; apply monotone_ret. Qed.

Lemma monotone_mapM_from : forall A B (f : A -> nat -> M B) xs i,
  (forall x j, monotone (f x j)) -> monotone (mapM_from i f xs).
Proof.
  intros A B f xs; induction xs as [|x rest IH]; intros i Hf; simpl.
  - apply monotone_ret.
  - apply monotone_bind; [apply Hf|]. intros y.
    apply monotone_bind; [now apply IH|]. intros ys. apply monotone_ret.
Qed.

Create HintDb mono.
#[local] Hint Resolve monotone_ret monotone_lift monotone_gets monotone_fresh
  monotone_getCurrentConfig monotone_getTreeValue monotone_setCurrentConfig
  monotone_setCurrentDispatcher monotone_recordInvocation : mono.

Ltac mono_step :=
  first
    [ apply monotone_bind; [|intros ?]
    | solve [auto with mono]
    | match goal with
      | |- monotone (if ?c then _ else _) => destruct c
      | |- monotone (match ?o with Some _ => _ | None => _ end) => destruct o
      end ].

Section Monotone.
Context (E : collaborators) (onPathValue : pathValueCallback).
Hypothesis callback_monotone : forall refId v c, monotone (onPathValue refId v c).

Lemma monotone_prepareArgs : forall lisp (process : argProcessor) path ctor skip,
  (forall arg p k c, monotone (process arg p k c onPathValue)) ->
  monotone (prepareArgs lisp process path ctor onPathValue skip).
Proof.
  intros lisp process path ctor skip Hp. unfold prepareArgs.
  apply monotone_bind; [|intros; apply monotone_ret].
  apply monotone_mapM_from. intros; apply Hp.
Qed.

Lemma monotone_parseProps : forall v (process : argProcessor) path prevKey ctor,
  (forall arg p k c, monotone (process arg p k c onPathValue)) ->
  monotone (parseProps E v process path prevKey ctor onPathValue).
Proof.
  intros v process path prevKey ctor Hp. unfold parseProps.
  apply monotone_bind; [auto with mono | intros _].
  apply monotone_bind; [auto with mono | intros refId].
  apply monotone_bind; [now apply monotone_prepareArgs | intros args].
  repeat mono_step.
Qed.

Lemma monotone_processLisp : forall fuel v path prevKey prevCtor,
  monotone (processLisp E fuel v path prevKey prevCtor onPathValue).
Proof.
  induction fuel as [|fuel IH]; intros v path prevKey prevCtor.
  - apply monotone_lift.
  - cbn [processLisp].
    destruct (primitiveTypes E (typeof v)); [apply monotone_ret|].
    destruct (ignoredValues E v); [repeat mono_step|].
    destruct (negb (isLispLike v)).
    + destruct (isArray v); [|repeat mono_step].
      apply monotone_bind; [auto with mono | intros nextPath].
      apply monotone_bind; [|intros; apply monotone_ret].
      apply monotone_mapM_from. intros; apply IH.
    + apply monotone_bind.
      * apply monotone_parseProps. intros arg p k c.
        destruct (isType _ domComponent); [apply IH | apply monotone_ret].
      * intros config.
        apply monotone_bind; [auto with mono | intros current].
        match goal with |- monotone (if ?c then _ else _) => destruct c end;
          [auto with mono|].
        repeat mono_step.
Qed.

End Monotone.

(** ** One evaluation of a component expression *)

Lemma mapM_from_identity : forall (xs : list value) (i : nat) (s : state),
  mapM_from i (fun arg (_ : nat) => ret arg) xs s = (s, Ok xs).
Proof.
  induction xs as [|x rest IH]; intros i s; simpl; [reflexivity|].
  unfold bind at 1, ret at 1. unfold bind. now rewrite IH.
Qed.

Lemma prepareArgs_identity :
  forall lisp path ctor (onPathValue : pathValueCallback) skip s,
  prepareArgs lisp identityProcessor path ctor onPathValue skip s
  = (s, Ok (VArr [] (skipn skip (array_items lisp)))).
Proof.
  intros. unfold prepareArgs, identityProcessor, bind.
  now rewrite mapM_from_identity.
Qed.

Lemma annotate_items : forall E v, array_items (annotate E v) = array_items v.
Proof. intros E v; unfold annotate; destruct (isDevelopment E), v; reflexivity. Qed.

Lemma annotate_index : forall E v i, get_index (annotate E v) i = get_index v i.
Proof. intros E v i; unfold annotate; destruct (isDevelopment E), v; reflexivity. Qed.

Lemma parseProps_annotate : forall E v process path prevKey ctor onPathValue,
  parseProps E (annotate E v) process path prevKey ctor onPathValue
  = parseProps E v process path prevKey ctor onPathValue.
Proof.
  intros. unfold parseProps, getPropsFromArgs, prepareArgs.
  now rewrite annotate_items, annotate_index.
Qed.

Lemma parseProps_component :
  forall E v path prevKey ctor (onPathValue : pathValueCallback) s refId,
  validateKey E (get_prop (getPropsFromArgs v) "key") "key"
    = Ok (get_prop (getPropsFromArgs v) "key") ->
  resolveRefId E (getPropsFromArgs v) path prevKey = Ok refId ->
  parseProps E v identityProcessor path prevKey ctor onPathValue s
  = match map_get strict_eq refId (currentConfigs s) with
    | Some old =>
        match call E (resolveShouldUpdate (getPropsFromArgs v))
                [cfg_props old; componentProps E v refId] with
        | Ok r =>
            (with_nextId S s,
             Ok (if negb (truthy r) then old else freshConfig E v refId ctor s))
        | Throw e => (with_nextId S s, Throw e)
        | Stuck w => (with_nextId S s, Stuck w)
        end
    | None => (with_nextId S s, Ok (freshConfig E v refId ctor s))
    end.
Proof.
  intros E v path prevKey ctor onPathValue s refId Hkey Href.
  unfold parseProps.
  unfold bind at 1, lift at 1. rewrite Hkey.
  unfold bind at 1, lift at 1. rewrite Href.
  unfold bind at 1. rewrite prepareArgs_identity.
  unfold bind at 1, fresh at 1.
  unfold bind at 1, getCurrentConfig, gets. cbn [currentConfigs with_nextId].
  fold (componentProps E v refId).
  destruct (map_get strict_eq refId (currentConfigs s)) as [old|]; [|reflexivity].
  unfold bind, lift. cbn [cfg_props].
  destruct (call E (resolveShouldUpdate (getPropsFromArgs v))
              [cfg_props old; componentProps E v refId]) as [r| |];
    try reflexivity.
  destruct (negb (truthy r)); reflexivity.
Qed.

Lemma applyProps_keeps_refId : forall E props (refId : value) (base : fields),
  isSpecialProp E (sp_refId E) = true ->
  assoc (sp_refId E) base = Some refId ->
  assoc (sp_refId E) (applyProps E base props) = Some refId.
Proof.
  intros E props refId base Hspecial. unfold applyProps.
  generalize (object_keys props) as keys.
  intros keys; revert base.
  induction keys as [|k rest IH]; intros base Hbase; simpl; [exact Hbase|].
  apply IH. destruct (isSpecialProp E k) eqn:Hk; [exact Hbase|].
  rewrite assoc_set_other; [exact Hbase|].
  destruct (String.eqb (sp_refId E) k) eqn:Heq; [|reflexivity].
  apply String.eqb_eq in Heq; subst k. congruence.
Qed.

Lemma componentProps_refId : forall E v refId,
  isSpecialProp E (sp_refId E) = true ->
  sp_refId E <> "children" ->
  get_prop (componentProps E v refId) (sp_refId E) = refId.
Proof.
  intros E v refId Hspecial Hne. unfold componentProps, configProps.
  cbn [get_prop].
  rewrite (applyProps_keeps_refId E _ refId); [reflexivity | exact Hspecial |].
  rewrite assoc_set_other.
  - cbn [assoc_set assoc]. now rewrite String.eqb_refl.
  - now apply String.eqb_neq.
Qed.

Lemma lispLike_typeof : forall v, isLispLike v = true -> typeof v = "object".
Proof. intros v; destruct v; simpl; try discriminate; reflexivity. Qed.

Lemma invoke_records :
  forall E (onPathValue : pathValueCallback) fuel refId config f fInput ctor s,
  (forall r x c, monotone (onPathValue r x c)) ->
  exists tail,
    invocations
      (fst ((setCurrentConfig refId config ;;;
             setCurrentDispatcher refId f ;;;
             recordInvocation f fInput ;;;
             nextValue <- lift (call E f [fInput]) ;;
             finalValue <- processLisp E fuel nextValue refId (VStr "@fn") ctor onPathValue ;;
             onPathValue refId finalValue config ;;;
             ret finalValue) s))
    = invocations s ++ (f, fInput) :: tail.
Proof.
  intros E onPathValue fuel refId config f fInput ctor s Hcb.
  unfold bind at 1, setCurrentConfig at 1, modify at 1.
  unfold bind at 1, setCurrentDispatcher at 1, modify at 1.
  unfold bind at 1, recordInvocation at 1, modify at 1.
  match goal with |- context [fst (?m ?s0)] =>
    assert (Hm : monotone m) end.
  { apply monotone_bind; [apply monotone_lift | intros nextValue].
    apply monotone_bind; [now apply monotone_processLisp | intros finalValue].
    apply monotone_bind; [apply Hcb | intros _]. apply monotone_ret. }
  match goal with |- context [fst (?m ?s0)] =>
    destruct (Hm s0) as [[tail Htail] _] end.
  exists tail. rewrite Htail. simpl. now rewrite <- app_assoc.
Qed.


Lemma processLisp_expression :
  forall E fuel v path prevKey prevCtor onPathValue,
  primitiveTypes E "object" = false ->
  ignoredValues E v = false ->
  isLispLike v = true ->
  processLisp E (S fuel) v path prevKey prevCtor onPathValue
  = bind (parseProps E v
            (if isType (getLispFunc v) domComponent
             then processLisp E fuel else identityProcessor)
            path prevKey (getLispFunc v) onPathValue)
         (settleInvocation E fuel (getLispFunc v) onPathValue).
Proof.
  intros E fuel v path prevKey prevCtor onPathValue Hprim Hign Hlisp.
  cbn [processLisp].
  rewrite (lispLike_typeof v Hlisp), Hprim, Hign, Hlisp. cbn [negb].
  rewrite parseProps_annotate. unfold getLispFunc.
  rewrite annotate_index. reflexivity.
Qed.

Lemma settleInvocation_invokes :
  forall E fuel f onPathValue config s,
  (forall r x c, monotone (onPathValue r x c)) ->
  match map_get strict_eq (get_prop (cfg_props config) (sp_refId E))
          (currentConfigs s) with
  | Some current => cfg_id current <> cfg_id config
  | None => True
  end ->
  exists tail,
    invocations (fst (settleInvocation E fuel f onPathValue config s))
    = invocations s
      ++ (f, if isType f domComponent then config_obj config else cfg_props config)
      :: tail.
Proof.
  intros E fuel f onPathValue config s Hcb Hfresh.
  unfold settleInvocation.
  unfold bind at 1, getCurrentConfig, gets.
  destruct (map_get strict_eq (get_prop (cfg_props config) (sp_refId E))
              (currentConfigs s)) as [current|].
  - apply Nat.eqb_neq in Hfresh. rewrite Hfresh.
    apply invoke_records, Hcb.
  - apply invoke_records, Hcb.
Qed.

Lemma settleInvocation_reuses :
  forall E fuel f onPathValue config s,
  map_get strict_eq (get_prop (cfg_props config) (sp_refId E)) (currentConfigs s)
    = Some config ->
  settleInvocation E fuel f onPathValue config s
  = (s, Ok (lookupTreeValue (get_prop (cfg_props config) (sp_refId E)) s)).
Proof.
  intros E fuel f onPathValue config s Hcur.
  unfold settleInvocation, bind, getCurrentConfig, gets.
  rewrite Hcur, Nat.eqb_refl. reflexivity.
Qed.

(** C1 (amended). A component function evaluated at a RefId that already
    has a recorded config is skipped exactly when the [shouldUpdate]
    predicate of the expression answers a falsy value on the recorded and
    the new props: the evaluation then answers the tree value stored for
    the RefId, and no table changes (only an object identity is used up).
    When the predicate answers a truthy value, when no config is recorded,
    and when no predicate is supplied, the component is invoked again with
    the new props. *)
Theorem memoization_follows_shouldUpdate :
  forall (E : collaborators) (fuel : nat) (v path prevKey prevCtor : value)
         (onPathValue : pathValueCallback) (s : state) (refId : value),
  primitiveTypes E "object" = false ->
  ignoredValues E v = false ->
  isSpecialProp E (sp_refId E) = true ->
  sp_refId E <> "children" ->
  (forall r x c, monotone (onPathValue r x c)) ->
  isLispLike v = true ->
  isType (getLispFunc v) domComponent = false ->
  validateKey E (get_prop (getPropsFromArgs v) "key") "key"
    = Ok (get_prop (getPropsFromArgs v) "key") ->
  resolveRefId E (getPropsFromArgs v) path prevKey = Ok refId ->
  (forall old, map_get strict_eq refId (currentConfigs s) = Some old ->
     get_prop (cfg_props old) (sp_refId E) = refId /\ cfg_id old < nextId s) ->
  let run := processLisp E (S fuel) v path prevKey prevCtor onPathValue s in
  let f := getLispFunc v in
  let newProps := componentProps E v refId in
  let predicate := resolveShouldUpdate (getPropsFromArgs v) in
  (forall old r,
     map_get strict_eq refId (currentConfigs s) = Some old ->
     call E predicate [cfg_props old; newProps] = Ok r ->
     truthy r = false ->
     run = (with_nextId S s, Ok (lookupTreeValue refId s)))
  /\ (forall old r,
        map_get strict_eq refId (currentConfigs s) = Some old ->
        call E predicate [cfg_props old; newProps] = Ok r ->
        truthy r = true ->
        exists tail, invocations (fst run) = invocations s ++ (f, newProps) :: tail)
  /\ (map_get strict_eq refId (currentConfigs s) = None ->
      exists tail, invocations (fst run) = invocations s ++ (f, newProps) :: tail)
  /\ (get_prop (getPropsFromArgs v) "shouldUpdate" = VUndef ->
      exists tail, invocations (fst run) = invocations s ++ (f, newProps) :: tail).
Proof.
  intros E fuel v path prevKey prevCtor onPathValue s refId
         Hprim Hign Hspecial Hne Hcb Hlisp Hcomp Hkey Href Hwf run f newProps predicate.
  assert (Hrun : run =
            bind (parseProps E v identityProcessor path prevKey f onPathValue)
                 (settleInvocation E fuel f onPathValue) s).
  { unfold run. rewrite processLisp_expression by assumption.
    fold f. unfold f at 1. now rewrite Hcomp. }
  rewrite Hrun. unfold bind.
  rewrite (parseProps_component E v path prevKey f onPathValue s refId Hkey Href).
  fold predicate newProps.
  assert (Hinvoke :
            exists tail,
              invocations (fst (settleInvocation E fuel f onPathValue
                                  (freshConfig E v refId f s) (with_nextId S s)))
              = invocations s ++ (f, newProps) :: tail).
  { destruct (settleInvocation_invokes E fuel f onPathValue
                (freshConfig E v refId f s) (with_nextId S s) Hcb) as [tail Htail].
    - cbn [freshConfig cfg_props cfg_id with_nextId currentConfigs].
      rewrite (componentProps_refId E v refId Hspecial Hne).
      destruct (map_get strict_eq refId (currentConfigs s)) as [old|] eqn:Hold;
        [|exact I].
      destruct (Hwf old eq_refl) as [_ Hlt]. lia.
    - exists tail. rewrite Htail. unfold f at 2. rewrite Hcomp. reflexivity. }
  repeat split.
  - intros old r Hold Hcall Hfalsy. rewrite Hold, Hcall, Hfalsy. cbn [negb].
    destruct (Hwf old Hold) as [Hid _].
    rewrite settleInvocation_reuses; rewrite Hid; [reflexivity | exact Hold].
  - intros old r Hold Hcall Htruthy. rewrite Hold, Hcall, Htruthy. exact Hinvoke.
  - intros Hnone. rewrite Hnone. exact Hinvoke.
  - intros Hundef. unfold predicate, resolveShouldUpdate. rewrite Hundef.
    cbn [isDef call].
    destruct (map_get strict_eq refId (currentConfigs s)); exact Hinvoke.
Qed.

(** The scenario of the specification (§8, memoization skip):
    [shouldUpdate = (a, b) => a.x === b.x].
    The second render with [{x: 1}] invokes the component again (the
    predicate answers [true]); the third, with [{x: 2}], does not (the
    predicate answers [false]) and answers the text node of [1]. *)
Lemma memoization_skip_is_inverted :
  length (invocations memoState1) = 1
  /\ length (invocations memoState2) = 2
  /\ length (invocations memoState3) = 2
  /\ answer_of (renderMemo 2) memoState2 = Ok (specCreateTextVnode (VNum 1)).
Proof. vm_compute. repeat split. Qed.

Lemma memoization_follows_shouldUpdate_witness :
  processLisp prodEnv 6 (memoExpression 2) newPath (VStr "R") VUndef
    setTreeValue memoState2
  = (with_nextId S memoState2, Ok (lookupTreeValue (VStr "R") memoState2)).
Proof.
  refine (proj1 (memoization_follows_shouldUpdate prodEnv 5 (memoExpression 2)
                   newPath (VStr "R") VUndef setTreeValue memoState2 (VStr "R")
                   eq_refl eq_refl eq_refl _ monotone_setTreeValue eq_refl
                   eq_refl eq_refl eq_refl _)
                {| cfg_id := 2;
                   cfg_props := VObj [("$$refId", VStr "R");
                                      ("children", VArr [] []);
                                      ("x", VNum 1)];
                   cfg_key := VStr "R";
                   cfg_ctor := VFun (FUser 0) |}
                (VBool false) eq_refl eq_refl eq_refl).
  - discriminate.
  - intros old Hold. vm_compute in Hold. inversion Hold; subst old.
    split; [reflexivity | vm_compute; lia].
Defined.

(** ** Collections: the index as the default key *)

Lemma monotone_settleInvocation : forall E fuel f onPathValue config,
  (forall r x c, monotone (onPathValue r x c)) ->
  monotone (settleInvocation E fuel f onPathValue config).
Proof.
  intros E fuel f onPathValue config Hcb. unfold settleInvocation.
  apply monotone_bind; [apply monotone_getCurrentConfig | intros current].
  match goal with |- monotone (if ?c then _ else _) => destruct c end;
    [apply monotone_getTreeValue|].
  apply monotone_bind; [apply monotone_setCurrentConfig | intros _].
  apply monotone_bind; [apply monotone_setCurrentDispatcher | intros _].
  apply monotone_bind; [apply monotone_recordInvocation | intros _].
  apply monotone_bind; [apply monotone_lift | intros nextValue].
  apply monotone_bind; [now apply monotone_processLisp | intros finalValue].
  apply monotone_bind; [apply Hcb | intros _]. apply monotone_ret.
Qed.

(** The config [parseProps] answers is the one recorded at the RefId, or a
    new one that carries the RefId. *)
Lemma parseProps_answer :
  forall E v (process : argProcessor) path prevKey ctor onPathValue s s' cfg refId,
  isSpecialProp E (sp_refId E) = true ->
  sp_refId E <> "children" ->
  resolveRefId E (getPropsFromArgs v) path prevKey = Ok refId ->
  parseProps E v process path prevKey ctor onPathValue s = (s', Ok cfg) ->
  map_has strict_eq refId (currentConfigs s') = true
  \/ get_prop (cfg_props cfg) (sp_refId E) = refId.
Proof.
  intros E v process path prevKey ctor onPathValue s s' cfg refId
         Hspecial Hne Href Hrun.
  unfold parseProps in Hrun.
  unfold bind at 1, lift at 1 in Hrun.
  destruct (validateKey E (get_prop (getPropsFromArgs v) "key") "key");
    try discriminate.
  unfold bind at 1, lift at 1 in Hrun. rewrite Href in Hrun.
  unfold bind at 1 in Hrun.
  destruct (prepareArgs v process refId ctor onPathValue
              (skipValues (getPropsFromArgs v)) s) as [sa [args| |]];
    try discriminate.
  unfold bind at 1, fresh at 1 in Hrun.
  unfold bind at 1, getCurrentConfig, gets in Hrun.
  cbn [currentConfigs with_nextId] in Hrun.
  assert (Hfresh : get_prop (configProps E (getPropsFromArgs v) refId args)
                     (sp_refId E) = refId).
  { unfold configProps. cbn [get_prop].
    rewrite (applyProps_keeps_refId E _ refId); [reflexivity | exact Hspecial |].
    rewrite assoc_set_other by now apply String.eqb_neq.
    cbn [assoc_set assoc]. now rewrite String.eqb_refl. }
  destruct (map_get strict_eq refId (currentConfigs sa)) as [current|] eqn:Hcur.
  - unfold bind, lift in Hrun. cbn [cfg_props] in Hrun.
    destruct (call E _ _) as [r| |]; try discriminate.
    destruct (negb (truthy r)); inversion Hrun; subst s' cfg.
    + left. unfold map_has. cbn [currentConfigs with_nextId]. now rewrite Hcur.
    + right. exact Hfresh.
  - inversion Hrun; subst s' cfg. right. exact Hfresh.
Qed.

Lemma map_has_set_same : forall (k : value) (c : config) m,
  strict_eq k k = true -> map_has strict_eq k (map_set strict_eq k c m) = true.
Proof.
  intros k c m Hrefl. unfold map_has. now rewrite map_get_set_same.
Qed.

Lemma settleInvocation_records :
  forall E fuel f onPathValue cfg s refId,
  (forall r x c, monotone (onPathValue r x c)) ->
  strict_eq refId refId = true ->
  map_has strict_eq refId (currentConfigs s) = true
  \/ get_prop (cfg_props cfg) (sp_refId E) = refId ->
  map_has strict_eq refId
    (currentConfigs (fst (settleInvocation E fuel f onPathValue cfg s))) = true.
Proof.
  intros E fuel f onPathValue cfg s refId Hcb Hrefl Hcases.
  destruct (map_has strict_eq refId (currentConfigs s)) eqn:Hhas.
  - now apply (monotone_settleInvocation E fuel f onPathValue cfg Hcb s).
  - destruct Hcases as [Habs | Hcarries]; [discriminate|].
    unfold settleInvocation. rewrite Hcarries.
    unfold bind at 1, getCurrentConfig, gets.
    unfold map_has in Hhas.
    destruct (map_get strict_eq refId (currentConfigs s)); [discriminate|].
    unfold bind at 1, setCurrentConfig at 1, modify at 1.
    match goal with |- context [fst (?m ?s0)] =>
      assert (Hm : monotone m); [|apply (Hm s0)] end.
    + apply monotone_bind; [apply monotone_setCurrentDispatcher | intros _].
      apply monotone_bind; [apply monotone_recordInvocation | intros _].
      apply monotone_bind; [apply monotone_lift | intros nextValue].
      apply monotone_bind; [now apply monotone_processLisp | intros finalValue].
      apply monotone_bind; [apply Hcb | intros _]. apply monotone_ret.
    + cbn [currentConfigs with_configs]. now apply map_has_set_same.
Qed.

(** An expression evaluated to the end leaves a config recorded under its
    RefId. *)
Lemma processLisp_records :
  forall E fuel v path prevKey prevCtor onPathValue s s' r refId,
  primitiveTypes E "object" = false ->
  ignoredValues E v = false ->
  isSpecialProp E (sp_refId E) = true ->
  sp_refId E <> "children" ->
  (forall r x c, monotone (onPathValue r x c)) ->
  isLispLike v = true ->
  resolveRefId E (getPropsFromArgs v) path prevKey = Ok refId ->
  strict_eq refId refId = true ->
  processLisp E fuel v path prevKey prevCtor onPathValue s = (s', Ok r) ->
  map_has strict_eq refId (currentConfigs s') = true.
Proof.
  intros E fuel v path prevKey prevCtor onPathValue s s' r refId
         Hprim Hign Hspecial Hne Hcb Hlisp Href Hrefl Hrun.
  destruct fuel as [|fuel]; [discriminate|].
  rewrite processLisp_expression in Hrun by assumption.
  unfold bind in Hrun.
  destruct (parseProps E v _ path prevKey (getLispFunc v) onPathValue s)
    as [sp [cfg| |]] eqn:Hparse; try discriminate.
  pose proof (parseProps_answer E v _ path prevKey (getLispFunc v) onPathValue
                s sp cfg refId Hspecial Hne Href Hparse) as Hanswer.
  pose proof (settleInvocation_records E fuel (getLispFunc v) onPathValue cfg sp
                refId Hcb Hrefl Hanswer) as Hrec.
  now rewrite Hrun in Hrec.
Qed.





(** ** Children given twice *)

Lemma mapO_from_length : forall A B (f : A -> nat -> outcome B) xs i ys,
  mapO_from i f xs = Ok ys -> length ys = length xs.
Proof.
  intros A B f xs; induction xs as [|x rest IH]; intros i ys H; simpl in H.
  - now inversion H.
  - destruct (f x i) as [y| |]; try discriminate. simpl in H.
    destruct (mapO_from (S i) f rest) as [ys'| |] eqn:Hrest; try discriminate.
    inversion H; subst ys. simpl. f_equal. eapply IH; eauto.
Qed.

Lemma mapO_from_head : forall A B (f : A -> nat -> outcome B) x xs i ys,
  mapO_from i f (x :: xs) = Ok ys ->
  exists y ys', ys = y :: ys' /\ f x i = Ok y.
Proof.
  intros A B f x xs i ys H; simpl in H.
  destruct (f x i) as [y| |]; try discriminate. simpl in H.
  destruct (mapO_from (S i) f xs) as [ys'| |]; try discriminate.
  inversion H; subst ys. eauto.
Qed.

Lemma checked_processLisp_object : forall L fuel fs nodePath r,
  ChildrenCheck.processLisp L fuel (VObj fs) nodePath = Ok r -> r = VObj fs.
Proof.
  intros L fuel fs nodePath r H. destruct fuel as [|fuel]; [discriminate|].
  cbn [ChildrenCheck.processLisp] in H.
  destruct (ChildrenCheck.parsePath nodePath); try discriminate.
  simpl in H. now inversion H.
Qed.

(** C3 (amended). In the revision whose [parseProps] checks for duplicated
    children, an expression whose configuration object has a truthy
    [children] prop and that has one or more positional children raises
    the conflicting-children error as soon as its arguments have been
    evaluated, and produces no node. *)
Theorem duplicate_children_rejected :
  forall (L : vnodeLibrary) (fuel : nat) (named config : fields)
         (head child : value) (children path : list value),
  isFunc head = true ->
  isVnode L (VObj config) = false ->
  truthy (get_prop (VObj config) "children") = true ->
  (exists args,
     prepareArgsEarlier
       (VArr named (head :: VObj config :: child :: children))
       (ChildrenCheck.processLisp L fuel) path = Ok args) ->
  ChildrenCheck.processLisp L (S fuel)
    (VArr named (head :: VObj config :: child :: children)) (VArr [] path)
  = Throw DuplicateChildrenError.
Proof.
  intros L fuel named config head child children path Hhead Hvnode Htruthy
         [args Hargs].
  cbn [ChildrenCheck.processLisp ChildrenCheck.parsePath obind].
  unfold isLispLike. cbn [isArray get_index nth andb]. rewrite Hhead.
  cbn [negb]. unfold ChildrenCheck.parseProps. rewrite Hargs. cbn [obind].
  unfold prepareArgsEarlier in Hargs. cbn [array_items skipn] in Hargs.
  pose proof (mapO_from_length _ _ _ _ _ _ Hargs) as Hlen.
  destruct (mapO_from_head _ _ _ _ _ _ _ Hargs) as (first & others & Hsplit & Hfirst).
  apply checked_processLisp_object in Hfirst. subst first args.
  unfold shiftProps. cbn [nth isPlainObject andb]. rewrite Hvnode.
  cbn [negb skipn]. simpl in Hlen.
  destruct others as [|o others]; [discriminate|].
  cbn [length Nat.ltb Nat.leb andb]. rewrite Htruthy. reflexivity.
Qed.

(** The current evaluator has no such check: the expression is evaluated
    and a node comes out.  The checking revision lets a falsy [children]
    prop pass. *)
Lemma duplicate_children_accepted :
  answer_of (processLisp devEnv 5
               (duplicatedChildren (VFun (FUser 7)) (VArr [] [VStr "a"]))
               newPath (VStr "R") VUndef identityCallback) emptyState
  = Ok (specCreateTextVnode (VStr "text"))
  /\ ChildrenCheck.processLisp (specVnodeLibrary true sampleFns) 5
       (duplicatedChildren (VFun (FUser 7)) (VNum 0)) (VArr [] [VStr "R"])
     = Ok (VStr "text").
Proof. split; reflexivity. Qed.

Lemma duplicate_children_rejected_witness :
  ChildrenCheck.processLisp (specVnodeLibrary true sampleFns) 5
    (duplicatedChildren (VFun (FUser 7)) (VArr [] [VStr "a"]))
    (VArr [] [VStr "R"])
  = Throw DuplicateChildrenError.
Proof.
  apply (duplicate_children_rejected (specVnodeLibrary true sampleFns) 4 []
           [("children", VArr [] [VStr "a"])] (VFun (FUser 7)) (VStr "b") []
           [VStr "R"]); try reflexivity.
  exists [VObj [("children", VArr [] [VStr "a"])]; VStr "b"]. reflexivity.
Defined.

(** ** The key of a component reaches the leaf *)

Section KeyPropagation.
Context (L : vnodeLibrary) (laws : vnodeLibraryLaws L).

Lemma processLisp_not_list : forall fuel v nodePath r,
  isArray v = false ->
  KeyPassthrough.processLisp L fuel v nodePath = Ok r -> r = v.
Proof.
  intros fuel v nodePath r Hv H. destruct fuel as [|fuel]; [discriminate|].
  cbn [KeyPassthrough.processLisp] in H.
  destruct (KeyPassthrough.parsePath nodePath); try discriminate.
  cbn [obind] in H. unfold isLispLike in H. rewrite Hv in H.
  cbn [andb negb] in H. now inversion H.
Qed.

Lemma processLisp_collection : forall fuel v nodePath r,
  isArray v = true -> isLispLike v = false ->
  KeyPassthrough.processLisp L fuel v nodePath = Ok r -> isArray r = true.
Proof.
  intros fuel v nodePath r Hv Hlisp H. destruct fuel as [|fuel]; [discriminate|].
  cbn [KeyPassthrough.processLisp] in H.
  destruct (KeyPassthrough.parsePath nodePath); try discriminate.
  cbn [obind] in H. rewrite Hlisp, Hv in H. cbn [negb] in H.
  destruct (mapO_from 0 _ (array_items v)); try discriminate.
  now inversion H.
Qed.

Lemma parseProps_key : forall v (process : earlierProcessor) path props key,
  (forall fs p x, process (VObj fs) p = Ok x -> x = VObj fs) ->
  invokedWithKey L key v ->
  truthy key = true ->
  KeyPassthrough.parseProps L v process path = Ok props ->
  js_or (get_prop v "$$keyPassthrough") (get_prop props "key") = key.
Proof.
  intros v process path props key Hprocess Hkey Htruthy Hparse.
  destruct Hkey as [v Hpass | named head config rest Hnone Hvnode Hown].
  - unfold js_or. now rewrite Hpass, Htruthy.
  - unfold js_or. cbn [get_prop String.eqb Ascii.eqb Bool.eqb].
    rewrite Hnone.
    unfold KeyPassthrough.parseProps in Hparse.
    destruct (prepareArgsEarlier _ process path) as [args| |] eqn:Hargs;
      try discriminate.
    cbn [obind] in Hparse.
    unfold prepareArgsEarlier in Hargs. cbn [array_items skipn] in Hargs.
    destruct (mapO_from_head _ _ _ _ _ _ _ Hargs)
      as (first & others & Hsplit & Hfirst).
    apply Hprocess in Hfirst. subst first args.
    unfold shiftProps in Hparse. cbn [nth isPlainObject andb] in Hparse.
    rewrite Hvnode in Hparse. cbn [negb skipn] in Hparse.
    destruct (if truthy (get_prop (VObj config) "children") then _ else _)
      as [combined| |]; try discriminate.
    cbn [obind] in Hparse.
    destruct (join_path path) as [refId| |]; try discriminate.
    cbn [obind own_fields] in Hparse. inversion Hparse; subst props.
    cbn [get_prop]. rewrite !assoc_set_other by reflexivity.
    exact Hown.
Qed.

Lemma key_reaches_leaf : forall fuel v nodePath key r,
  truthy key = true ->
  isLispLike v = true ->
  invokedWithKey L key v ->
  KeyPassthrough.processLisp L fuel v nodePath = Ok r ->
  isVnode L r = true ->
  get_prop r "key" = key.
Proof.
  induction fuel as [|fuel IH]; intros v nodePath key r Htruthy Hlisp Hkey Hrun Hnode;
    [discriminate|].
  cbn [KeyPassthrough.processLisp] in Hrun.
  destruct (KeyPassthrough.parsePath nodePath) as [pathArray| |]; try discriminate.
  cbn [obind] in Hrun. rewrite Hlisp in Hrun. cbn [negb] in Hrun.
  destruct (KeyPassthrough.parseProps L v _ pathArray) as [props| |] eqn:Hparse;
    try discriminate.
  cbn [obind] in Hrun.
  destruct (callEarlier L (getLispFunc v) [props; VArr [] pathArray])
    as [nextValue| |]; try discriminate.
  cbn [obind] in Hrun.
  assert (Hk : js_or (get_prop v "$$keyPassthrough") (get_prop props "key") = key).
  { eapply parseProps_key; [|exact Hkey|exact Htruthy|exact Hparse].
    intros fs p x Hx.
    destruct (truthy (get_prop (getLispFunc v) "isVnodeFactory")).
    - eapply processLisp_not_list; [|exact Hx]. reflexivity.
    - now inversion Hx. }
  rewrite Hk in Hrun.
  assert (Hdef : isDef key = true) by (destruct key; try discriminate; reflexivity).
  rewrite Hdef in Hrun. cbn [andb] in Hrun.
  destruct (ignoredValuesOf L nextValue) eqn:Hign.
  - (* an ignored value is returned as it is and is no node *)
    cbn [negb obind] in Hrun.
    destruct (ignored_is_no_node L laws nextValue Hign) as [Harr Hno].
    apply processLisp_not_list in Hrun; [|exact Harr]. subst r. congruence.
  - cbn [negb] in Hrun.
    destruct (isVnode L nextValue) eqn:Hvn.
    + (* the component answered a node: the key is written onto it *)
      destruct (vnode_is_object L laws nextValue Hvn) as [fs Hfs]. subst nextValue.
      cbn [set_prop obind] in Hrun.
      apply processLisp_not_list in Hrun; [|reflexivity]. subst r.
      cbn [get_prop]. now rewrite assoc_set_same.
    + (* anything else is marked and evaluated further *)
      destruct nextValue as [| | b | n | s | d | f | named items | fs |];
        cbn [set_prop obind] in Hrun; try discriminate.
      * destruct (isLispLike (VArr named items)) eqn:Hl.
        -- apply (IH (VArr (assoc_set "$$keyPassthrough" key named) items)
                     (VArr [] pathArray) key r); auto.
           apply passedThrough. cbn [get_prop String.eqb Ascii.eqb Bool.eqb].
           now rewrite assoc_set_same.
        -- apply processLisp_collection in Hrun; [|reflexivity|exact Hl].
           destruct (vnode_is_object L laws r Hnode) as [fs Hfs]. subst r.
           discriminate.
      * apply processLisp_not_list in Hrun; [|reflexivity]. subst r.
        rewrite (passthrough_mark_is_no_vnode L laws fs key Hvn) in Hnode.
        discriminate.
Qed.

End KeyPropagation.

Lemma specVnodeLibrary_laws : forall dev fns,
  vnodeLibraryLaws (specVnodeLibrary dev fns).
Proof.
  intros dev fns; constructor; cbn [isVnode ignoredValuesOf specVnodeLibrary].
  - intros x Hx. destruct x; try discriminate. eauto.
  - intros fs k. unfold isType. cbn [isPlainObject truthy andb get_prop].
    now rewrite assoc_set_other by reflexivity.
  - intros x Hx. destruct x as [| |[|]| | | | | | |]; try discriminate;
      split; reflexivity.
Qed.

(** C4 (amended). In the revision of src/unnamed/part_001, which threads
    [$$keyPassthrough]: when an expression that carries no truthy
    [$$keyPassthrough] marker of its own is invoked with a truthy key in
    its configuration object (an object that is no node) and its
    evaluation ends in a node -- whatever chain of component expressions
    its component returned on the way -- that node carries the key.
    [isVnode], [createVnode] and [ignoredValues] of that revision's
    vnode.js are taken with the three laws of [vnodeLibraryLaws]. *)
Theorem key_propagates_to_leaf :
  forall (L : vnodeLibrary) (fuel : nat) (named config : fields)
         (wrapper key leaf nodePath : value) (rest : list value),
  vnodeLibraryLaws L ->
  isFunc wrapper = true ->
  truthy (get_prop (VArr named (wrapper :: VObj config :: rest))
            "$$keyPassthrough") = false ->
  isVnode L (VObj config) = false ->
  get_prop (VObj config) "key" = key ->
  truthy key = true ->
  KeyPassthrough.processLisp L fuel (VArr named (wrapper :: VObj config :: rest))
    nodePath = Ok leaf ->
  isVnode L leaf = true ->
  get_prop leaf "key" = key.
Proof.
  intros L fuel named config wrapper key leaf nodePath rest
         laws Hwrapper Hnone Hconfig Hkey Htruthy Hrun Hleaf.
  apply (key_reaches_leaf L laws fuel
           (VArr named (wrapper :: VObj config :: rest)) nodePath key leaf
           Htruthy); [| |exact Hrun|exact Hleaf].
  - unfold isLispLike. cbn [isArray get_index nth andb]. exact Hwrapper.
  - apply ownKey; assumption.
Qed.

(** The current evaluator writes no key onto a node: a wrapper invoked
    with the key ["k"] whose inner component answers a node built ahead
    ends in that node as it was, without the key, where the revision with
    the pass-through marker hands it over with the key. *)
Lemma key_not_written_by_current_evaluator :
  answer_of (processLisp prodEnv 6 wrapperOfPrebuilt newPath (VStr "R") VUndef
               identityCallback) emptyState = Ok prebuiltNode
  /\ get_prop prebuiltNode "key" = VUndef
  /\ obind (KeyPassthrough.processLisp (specVnodeLibrary false sampleFns) 6
              wrapperOfPrebuilt (VArr [] [VStr "R"]))
           (fun leaf => Ok (get_prop leaf "key")) = Ok (VStr "k").
Proof. repeat split. Qed.

Lemma key_propagates_to_leaf_witness :
  exists leaf,
    KeyPassthrough.processLisp (specVnodeLibrary false sampleFns) 6
      wrapperExpression (VArr [] [VStr "root"]) = Ok leaf
    /\ isVnode (specVnodeLibrary false sampleFns) leaf = true
    /\ get_prop leaf "sel" = VStr "div"
    /\ get_prop leaf "key" = VStr "k".
Proof.
  eexists. split; [vm_compute; reflexivity|]. split; [reflexivity|].
  split; [reflexivity|].
  apply (key_propagates_to_leaf (specVnodeLibrary false sampleFns) 6 []
           [("key", VStr "k")] (VFun (FUser 5)) (VStr "k") _
           (VArr [] [VStr "root"]) []
           (specVnodeLibrary_laws false sampleFns));
    reflexivity.
Defined.

(** ** Forced update of a fragment *)

Lemma processChildren_node : forall nextValue ch currentValue,
  isArray ch = false ->
  processChildren nextValue ch currentValue = (currentValue, Ok ch).
Proof. intros nextValue ch currentValue H; destruct ch; try discriminate; reflexivity. Qed.

Lemma processChildren_fragment : forall nextValue ch currentValue assigned,
  isArray ch = true ->
  sameFragment ch currentValue = true ->
  object_assign currentValue nextValue = Ok assigned ->
  processChildren nextValue ch currentValue = (assigned, Ok nextValue).
Proof.
  intros nextValue ch currentValue assigned Harr Hsame Hassign.
  destruct ch as [| | | | | | |named items| |]; try discriminate.
  unfold sameFragment in Hsame. cbn [get_index] in Hsame.
  cbn [processChildren].
  destruct (member (nth 0 items VUndef) "refId") as [a| |]; try discriminate.
  destruct (member (get_index currentValue 0) "refId") as [b| |]; try discriminate.
  now rewrite Hsame, Hassign.
Qed.

Lemma mapChildren_nodes : forall nextValue xs currentValue,
  Forall (fun c => isArray c = false) xs ->
  mapChildren nextValue xs currentValue = (currentValue, Ok xs).
Proof.
  intros nextValue xs currentValue H; induction H as [|x rest Hx Hrest IH];
    cbn [mapChildren]; [reflexivity|].
  now rewrite processChildren_node, IH.
Qed.

Lemma mapChildren_frame :
  forall nextValue before fragment after currentValue assigned,
  Forall (fun c => isArray c = false) before ->
  Forall (fun c => isArray c = false) after ->
  isArray fragment = true ->
  sameFragment fragment currentValue = true ->
  object_assign currentValue nextValue = Ok assigned ->
  mapChildren nextValue (before ++ fragment :: after) currentValue
  = (assigned, Ok (before ++ nextValue :: after)).
Proof.
  intros nextValue before fragment after currentValue assigned
         Hbefore Hafter Harr Hsame Hassign.
  induction Hbefore as [|x rest Hx Hrest IH]; cbn [app mapChildren].
  - rewrite (processChildren_fragment nextValue fragment currentValue assigned)
      by assumption.
    now rewrite mapChildren_nodes.
  - now rewrite processChildren_node, IH.
Qed.

Lemma hasTreeValue_validates : forall E seedPath s,
  map_has strict_eq seedPath (treeValues s) = true ->
  answer_of (validateSeedPath E seedPath) s = Ok tt.
Proof.
  intros E seedPath s H. unfold answer_of, validateSeedPath, bind, hasTreeValue, gets.
  now rewrite H.
Qed.

Lemma monotone_createElement : forall E fuel v seedPath onPathValue,
  (forall r x c, monotone (onPathValue r x c)) ->
  monotone (createElement E fuel v seedPath onPathValue).
Proof.
  intros E fuel v seedPath onPathValue Hcb. unfold createElement.
  apply monotone_bind.
  - destruct (isDevelopment E); [|apply monotone_ret].
    unfold validateSeedPath, hasTreeValue.
    apply monotone_bind; [apply monotone_gets | intros known].
    destruct known; [apply monotone_ret|].
    destruct (negb (vnodeKeyTypes (typeof seedPath))); [apply monotone_lift|].
    apply monotone_bind; [apply monotone_lift | intros _; apply monotone_ret].
  - intros _. destruct (isType v vnode); [apply monotone_ret|].
    apply monotone_bind; [apply monotone_lift | intros seed].
    now apply monotone_processLisp.
Qed.

(** C5. [forceUpdate] on a fragment does not leave the other children of
    the ancestor [P] as they were: with a second fragment among the
    children of [P] whose first element has the same [refId] (two text
    nodes have none), the slot of that sibling receives the new fragment
    as well; with an empty array among them, [forceUpdate] throws and
    requests no patch. *)
Lemma forceUpdate_fragment_siblings :
  get_prop (get_prop (lookupTreeValue (VStr "R") twoFragmentsState) "props")
    "children" = VArr [] [fragmentXA; fragmentXB]
  /\ lastPatchedChildren (state_after (forceUpdate devEnv 10 "R/0")
                            twoFragmentsState)
     = VArr [] [fragmentXA; fragmentXA]
  /\ answer_of (forceUpdate devEnv 10 "R/0") emptySiblingState
     = Throw (TypeError "cannot read a property of a nullish value")
  /\ patchRequests (state_after (forceUpdate devEnv 10 "R/0") emptySiblingState)
     = patchRequests emptySiblingState.
Proof. vm_compute. repeat split. Qed.

(* ================================================================== *)
(** * Further properties of the sources *)
(* ================================================================== *)

(** ** Maps: a second write, and a delete after a write *)

Section MapSetFacts.
Context {K V : Type} (eqb : K -> K -> bool).


Lemma map_set_twice : forall k (v v0 : V) m,
  eqb k k = true ->
  map_set eqb k v (map_set eqb k v0 m) = map_set eqb k v m.
Proof.
  intros k v v0 m Hrefl; induction m as [|[k1 v1] rest IH]; simpl.
  - now rewrite Hrefl.
  - destruct (eqb k k1) eqn:Hk; simpl.
    + now rewrite Hrefl.
    + now rewrite Hk, IH.
Qed.


End MapSetFacts.

(** ** hooks.js: the registry of models *)

Lemma useModel_existing :
  forall E fuel refId key initialModel options s scoped existing shouldCleanup,
  isDef key = true ->
  getScopedModels E refId s = Some scoped ->
  map_get strict_eq key scoped = Some existing ->
  shouldCleanupOf options = Ok shouldCleanup ->
  let update := mkWatcher (nextId s) refId in
  let m := addWatch existing refId update in
  useModel E (S fuel) refId key initialModel options s
  = (afterUseModel E refId key m scoped (mkHook refId key shouldCleanup update) 1 s,
     Ok m).
Proof.
  intros E fuel refId key initialModel options s scoped existing shouldCleanup
         Hkey Hscoped Hget Hopt update m.
  cbn [useModel]. rewrite Hkey.
  unfold bind at 1. unfold gets at 1. rewrite Hscoped, Hget.
  unfold shouldCleanupOf in Hopt.
  unfold bind, ret, lift, fresh, enqueueHook, setScopedModel, modify.
  destruct (isDef options).
  - destruct (member options "shouldCleanup") as [given| |]; try discriminate.
    cbn [obind] in Hopt. inversion Hopt; subst shouldCleanup.
    unfold getScopedModels in Hscoped.
    unfold with_hookQueue, with_activeModels, with_nextId, afterUseModel.
    cbn [currentConfigs currentDispatchers treeValues activeModels hookQueue
         nextId invocations patchRequests completedPasses Nat.add].
    rewrite Hscoped. reflexivity.
  - inversion Hopt; subst shouldCleanup.
    unfold getScopedModels in Hscoped.
    unfold with_hookQueue, with_activeModels, with_nextId, afterUseModel.
    cbn [currentConfigs currentDispatchers treeValues activeModels hookQueue
         nextId invocations patchRequests completedPasses Nat.add].
    rewrite Hscoped. reflexivity.
Qed.

Lemma useModel_created :
  forall E fuel refId key initialModel options s scoped initial shouldCleanup,
  isDef key = true ->
  getScopedModels E refId s = Some scoped ->
  map_get strict_eq key scoped = None ->
  (if isFunc initialModel then call E initialModel [] else Ok initialModel)
    = Ok initial ->
  shouldCleanupOf options = Ok shouldCleanup ->
  let update := mkWatcher (S (nextId s)) refId in
  let m := addWatch (mkModel (nextId s) initial []) refId update in
  useModel E (S fuel) refId key initialModel options s
  = (afterUseModel E refId key m scoped (mkHook refId key shouldCleanup update) 2 s,
     Ok m).
Proof.
  intros E fuel refId key initialModel options s scoped initial shouldCleanup
         Hkey Hscoped Hget Hinit Hopt update m.
  cbn [useModel]. rewrite Hkey.
  unfold bind at 1. unfold gets at 1. rewrite Hscoped, Hget.
  unfold shouldCleanupOf in Hopt. unfold initModel.
  unfold bind, ret, lift, fresh, enqueueHook, setScopedModel, modify.
  destruct (isFunc initialModel); rewrite ?Hinit.
  - destruct (isDef options).
    + destruct (member options "shouldCleanup") as [given| |]; try discriminate.
      cbn [obind] in Hopt. inversion Hopt; subst shouldCleanup.
      unfold getScopedModels in Hscoped.
    unfold with_hookQueue, with_activeModels, with_nextId, afterUseModel.
    cbn [currentConfigs currentDispatchers treeValues activeModels hookQueue
         nextId invocations patchRequests completedPasses Nat.add].
    rewrite Hscoped. reflexivity.
    + inversion Hopt; subst shouldCleanup.
      unfold getScopedModels in Hscoped.
    unfold with_hookQueue, with_activeModels, with_nextId, afterUseModel.
    cbn [currentConfigs currentDispatchers treeValues activeModels hookQueue
         nextId invocations patchRequests completedPasses Nat.add].
    rewrite Hscoped. reflexivity.
  - inversion Hinit; subst initial.
    destruct (isDef options).
    + destruct (member options "shouldCleanup") as [given| |]; try discriminate.
      cbn [obind] in Hopt. inversion Hopt; subst shouldCleanup.
      unfold getScopedModels in Hscoped.
    unfold with_hookQueue, with_activeModels, with_nextId, afterUseModel.
    cbn [currentConfigs currentDispatchers treeValues activeModels hookQueue
         nextId invocations patchRequests completedPasses Nat.add].
    rewrite Hscoped. reflexivity.
    + inversion Hopt; subst shouldCleanup.
      unfold getScopedModels in Hscoped.
    unfold with_hookQueue, with_activeModels, with_nextId, afterUseModel.
    cbn [currentConfigs currentDispatchers treeValues activeModels hookQueue
         nextId invocations patchRequests completedPasses Nat.add].
    rewrite Hscoped. reflexivity.
Qed.

(** What a call of [useModel] that answers has done to the tables. *)
Lemma useModel_effect :
  forall E fuel refId key initialModel options s s' m,
  useModel E fuel refId key initialModel options s = (s', Ok m) ->
  let k := if isDef key then key else VStr refId in
  let scoped := withDefault (getScopedModels E refId s) [] in
  exists h used,
    s' = afterUseModel E refId k m scoped h used s
    /\ 1 <= used <= 2
    /\ hook_refId h = refId /\ hook_key h = k
    /\ shouldCleanupOf options = Ok (hook_shouldCleanup h)
    /\ map_get strict_eq (VStr refId) (watchersList m) = Some (hook_watcherFn h)
    /\ nextId s <= watcher_id (hook_watcherFn h) < nextId s'
    /\ match map_get strict_eq k scoped with
       | Some existing =>
           model_id m = model_id existing
           /\ model_value m = model_value existing
           /\ watchersList m
              = map_set strict_eq (VStr refId) (hook_watcherFn h)
                  (watchersList existing)
       | None =>
           model_id m = nextId s
           /\ (if isFunc initialModel then call E initialModel []
               else Ok initialModel) = Ok (model_value m)
           /\ watchersList m = [(VStr refId, hook_watcherFn h)]
       end.
Proof.
  intros E fuel refId key initialModel options s s' m Hrun k scoped.
  assert (Hk : isDef k = true) by (unfold k; destruct key; reflexivity).
  assert (Hkk : (if isDef k then k else VStr refId) = k) by now rewrite Hk.
  assert (Hbody : forall fuel0 s0 scoped0,
            getScopedModels E refId s0 = Some scoped0 ->
            useModel E (S fuel0) refId k initialModel options s0 = (s', Ok m) ->
            exists h used,
              s' = afterUseModel E refId k m scoped0 h used s0
              /\ 1 <= used <= 2
              /\ hook_refId h = refId /\ hook_key h = k
              /\ shouldCleanupOf options = Ok (hook_shouldCleanup h)
              /\ map_get strict_eq (VStr refId) (watchersList m)
                 = Some (hook_watcherFn h)
              /\ nextId s0 <= watcher_id (hook_watcherFn h) < nextId s'
              /\ match map_get strict_eq k scoped0 with
                 | Some existing =>
                     model_id m = model_id existing
                     /\ model_value m = model_value existing
                     /\ watchersList m
                        = map_set strict_eq (VStr refId) (hook_watcherFn h)
                            (watchersList existing)
                 | None =>
                     model_id m = nextId s0
                     /\ (if isFunc initialModel then call E initialModel []
                         else Ok initialModel) = Ok (model_value m)
                     /\ watchersList m = [(VStr refId, hook_watcherFn h)]
                 end).
  { intros fuel0 s0 scoped0 Hscoped Hrun0.
    assert (Hopt : exists sc, shouldCleanupOf options = Ok sc).
    { cbn [useModel] in Hrun0. rewrite Hk in Hrun0.
      unfold bind at 1 in Hrun0. unfold gets at 1 in Hrun0.
      rewrite Hscoped in Hrun0. unfold shouldCleanupOf.
      unfold bind at 1 in Hrun0.
      destruct (match map_get strict_eq k scoped0 with
                | Some existing => ret existing
                | None => initModel E initialModel
                end s0) as [sa [ma| |]]; try discriminate.
      unfold bind at 1 in Hrun0.
      destruct (isDef options); [|eauto].
      unfold lift in Hrun0.
      destruct (member options "shouldCleanup"); try discriminate.
      cbn [obind]. eauto. }
    destruct Hopt as [sc Hopt].
    destruct (map_get strict_eq k scoped0) as [existing|] eqn:Hget.
    - rewrite (useModel_existing E fuel0 refId k initialModel options s0 scoped0
                 existing sc Hk Hscoped Hget Hopt) in Hrun0.
      inversion Hrun0; subst s' m; clear Hrun0.
      eexists; exists 1. split; [reflexivity|].
      cbn [hook_refId hook_key hook_shouldCleanup hook_watcherFn watcher_id
           model_id model_value watchersList addWatch afterUseModel nextId].
      repeat split; try lia; try assumption.
      apply map_get_set_same, strict_eq_VStr_refl.
    - assert (Hinit : exists initial,
                (if isFunc initialModel then call E initialModel []
                 else Ok initialModel) = Ok initial).
      { cbn [useModel] in Hrun0. rewrite Hk in Hrun0.
        unfold bind at 1 in Hrun0. unfold gets at 1 in Hrun0.
        rewrite Hscoped, Hget in Hrun0. unfold initModel in Hrun0.
        unfold bind at 1 in Hrun0. unfold bind at 1 in Hrun0.
        destruct (isFunc initialModel); [|eauto].
        unfold lift in Hrun0.
        destruct (call E initialModel []); try discriminate. eauto. }
      destruct Hinit as [initial Hinit].
      rewrite (useModel_created E fuel0 refId k initialModel options s0 scoped0
                 initial sc Hk Hscoped Hget Hinit Hopt) in Hrun0.
      inversion Hrun0; subst s' m; clear Hrun0.
      eexists; exists 2. split; [reflexivity|].
      cbn [hook_refId hook_key hook_shouldCleanup hook_watcherFn watcher_id
           model_id model_value watchersList addWatch afterUseModel nextId
           map_set].
      repeat split; try lia; try assumption.
      cbn [map_get]. now rewrite strict_eq_VStr_refl. }
  destruct fuel as [|fuel]; [discriminate|].
  assert (Hrun' : useModel E (S fuel) refId k initialModel options s = (s', Ok m)).
  { rewrite <- Hrun. cbn [useModel]. fold k. now rewrite Hk. }
  destruct (getScopedModels E refId s) as [scoped0|] eqn:Hscoped.
  - unfold scoped. cbn [withDefault]. eapply Hbody; eauto.
  - cbn [useModel] in Hrun'. rewrite Hk in Hrun'.
    unfold bind at 1 in Hrun'. unfold gets at 1 in Hrun'.
    rewrite Hscoped in Hrun'. unfold bind at 1 in Hrun'.
    unfold setupScopedModels, modify in Hrun'.
    destruct fuel as [|fuel]; [discriminate|].
    assert (Hsetup : getScopedModels E refId
              (with_activeModels (map_set String.eqb (getPathRoot E refId) []) s)
              = Some []) by exact (getScopedModels_after_setup E refId s).
    destruct (Hbody fuel _ [] Hsetup Hrun') as (h & used & Hs' & Hrest).
    exists h, used.
    assert (Hstate : s' = afterUseModel E refId k m scoped h used s).
    { rewrite Hs'. unfold scoped, afterUseModel. cbn [withDefault].
      cbn [currentConfigs currentDispatchers treeValues activeModels hookQueue
           nextId invocations patchRequests completedPasses with_activeModels].
      rewrite map_set_twice by apply String.eqb_refl. reflexivity. }
    split; [exact Hstate|].
    unfold scoped in *. cbn [withDefault nextId with_activeModels] in Hrest |- *.
    exact Hrest.
Qed.

Lemma getScopedModels_afterUseModel :
  forall E refId k m scoped h used s other,
  getScopedModels E other (afterUseModel E refId k m scoped h used s)
  = if String.eqb (getPathRoot E other) (getPathRoot E refId)
    then Some (map_set strict_eq k m scoped)
    else getScopedModels E other s.
Proof.
  intros. unfold getScopedModels, afterUseModel. cbn [activeModels].
  destruct (String.eqb (getPathRoot E other) (getPathRoot E refId)) eqn:Hroot.
  - apply String.eqb_eq in Hroot. rewrite Hroot.
    apply map_get_set_same, String.eqb_refl.
  - apply map_get_set_other; [apply String.eqb_eq | exact Hroot].
Qed.

Lemma counterUse_first :
  counterUse "root/a" emptyState = (counterState1, Ok counterModel).
Proof. vm_compute. reflexivity. Qed.

Lemma counterUse_second :
  counterUse "root/a" counterState1
  = (counterState2,
     Ok (mkModel 1 (VNum 0) [(VStr "root/a", mkWatcher 3 "root/a")])).
Proof. vm_compute. reflexivity. Qed.





(** X3. A second [useModel] with the same key under the same root answers the
    model the first one left: same cell, same value, and the watchers it
    had with the watcher of the second call written under the second
    RefId; [initialModel] is not consulted, whatever it is. *)
Theorem useModel_shares_model :
  forall E fuel1 fuel2 refId1 refId2 key initial1 initial2 options1 options2
         s s1 m1 shouldCleanup,
  let k := if isDef key then key else VStr refId1 in
  useModel E fuel1 refId1 key initial1 options1 s = (s1, Ok m1) ->
  strict_eq k k = true ->
  getPathRoot E refId2 = getPathRoot E refId1 ->
  shouldCleanupOf options2 = Ok shouldCleanup ->
  exists s2 m2,
    useModel E (S fuel2) refId2 k initial2 options2 s1 = (s2, Ok m2)
    /\ model_id m2 = model_id m1
    /\ model_value m2 = model_value m1
    /\ watchersList m2
       = map_set strict_eq (VStr refId2) (mkWatcher (nextId s1) refId2)
           (watchersList m1).
Proof.
  intros E fuel1 fuel2 refId1 refId2 key initial1 initial2 options1 options2
         s s1 m1 shouldCleanup k Hrun Hrefl Hroot Hopt.
  assert (Hk : isDef k = true) by (unfold k; destruct key; reflexivity).
  destruct (useModel_effect _ _ _ _ _ _ _ _ _ Hrun) as (h & used & Hs1 & _).
  fold k in Hs1.
  assert (Hscoped : getScopedModels E refId2 s1
                    = Some (map_set strict_eq k m1
                              (withDefault (getScopedModels E refId1 s) []))).
  { rewrite Hs1, getScopedModels_afterUseModel, Hroot, String.eqb_refl.
    reflexivity. }
  eexists; eexists. split.
  - eapply useModel_existing; eauto. apply map_get_set_same, Hrefl.
  - cbn [addWatch model_id model_value watchersList]. auto.
Qed.

Lemma useModel_shares_model_witness :
  exists s2 m2,
    useModel prodEnv 1 "root/b" (VStr "count") (VFun (FUser 99)) VUndef
      counterState1 = (s2, Ok m2)
    /\ model_id m2 = model_id counterModel
    /\ model_value m2 = model_value counterModel
    /\ watchersList m2
       = map_set strict_eq (VStr "root/b") (mkWatcher (nextId counterState1) "root/b")
           (watchersList counterModel).
Proof.
  apply (useModel_shares_model prodEnv 2 0 "root/a" "root/b" (VStr "count")
           (VNum 0) (VFun (FUser 99)) VUndef VUndef emptyState counterState1
           counterModel defaultShouldCleanup counterUse_first).
  - reflexivity.
  - vm_compute. reflexivity.
  - reflexivity.
Defined.



(** ** hooks.js: teardown *)

(** X5. The hook of an earlier [useModel] is stale once the same RefId has
    used the same key again: running it at destruction changes nothing. *)
Theorem cleanupOnDestroy_stale_hook :
  forall E fuel1 fuel2 refId key initial1 initial2 options1 options2
         s s1 s2 m1 m2 h1,
  let k := if isDef key then key else VStr refId in
  useModel E fuel1 refId key initial1 options1 s = (s1, Ok m1) ->
  useModel E fuel2 refId key initial2 options2 s1 = (s2, Ok m2) ->
  strict_eq k k = true ->
  hookQueue s1 = hookQueue s ++ [h1] ->
  cleanupOnDestroy E "destroy" refId h1 s2 = (s2, Ok tt).
Proof.
  intros E fuel1 fuel2 refId key initial1 initial2 options1 options2
         s s1 s2 m1 m2 h1 k Hrun1 Hrun2 Hrefl Hqueue.
  destruct (useModel_effect _ _ _ _ _ _ _ _ _ Hrun1)
    as (h & used & Hs1 & _ & _ & Hk1 & _ & _ & Hid1 & _).
  destruct (useModel_effect _ _ _ _ _ _ _ _ _ Hrun2)
    as (h2 & used2 & Hs2 & _ & _ & _ & _ & Hw2 & Hid2 & _).
  fold k in Hs1, Hk1, Hs2.
  assert (h = h1).
  { rewrite Hs1 in Hqueue. unfold afterUseModel in Hqueue.
    cbn [hookQueue] in Hqueue. now apply app_inj_tail in Hqueue. }
  subst h.
  assert (Hscoped2 : getScopedModels E refId s2
            = Some (map_set strict_eq k m2
                      (withDefault (getScopedModels E refId s1) []))).
  { rewrite Hs2 at 1.
    now rewrite getScopedModels_afterUseModel, String.eqb_refl. }
  unfold cleanupOnDestroy, bind, gets. rewrite Hscoped2.
  cbn [String.eqb Ascii.eqb Bool.eqb]. rewrite Hk1.
  rewrite map_get_set_same by exact Hrefl. rewrite Hw2.
  replace (Nat.eqb (watcher_id (hook_watcherFn h2)) (watcher_id (hook_watcherFn h1)))
    with false by (symmetry; apply Nat.eqb_neq; lia).
  reflexivity.
Qed.

Lemma cleanupOnDestroy_stale_hook_witness :
  cleanupOnDestroy prodEnv "destroy" "root/a" counterHook counterState2
  = (counterState2, Ok tt).
Proof.
  apply (cleanupOnDestroy_stale_hook prodEnv 2 2 "root/a" (VStr "count")
           (VNum 0) (VNum 0) VUndef VUndef emptyState counterState1
           counterState2 counterModel
           (mkModel 1 (VNum 0) [(VStr "root/a", mkWatcher 3 "root/a")])
           counterHook counterUse_first counterUse_second).
  - reflexivity.
  - vm_compute. reflexivity.
Defined.



(** ** What every step of an evaluation keeps *)

Section Keeps.
Context (E : collaborators) (R : state -> state -> Prop)
        (onPathValue : pathValueCallback).
Hypothesis R_refl : forall s, R s s.
Hypothesis R_trans : forall a b c, R a b -> R b c -> R a c.
Hypothesis R_fresh : forall s, R s (with_nextId S s).
Hypothesis R_invoked : forall c f input s,
  isFunc f = true ->
  (cfg_id c < nextId s /\ exists fs, cfg_props c = VObj fs)
  \/ (exists k, map_get strict_eq k (currentConfigs s) = Some c) ->
  R s (invoked (get_prop (cfg_props c) (sp_refId E)) c f input s).
Hypothesis R_callback : forall refId v c, keeps R (onPathValue refId v c).

Lemma keeps_ret : forall A (a : A), keeps R (ret a).
Proof. intros A a s; apply R_refl. Qed.

Lemma keeps_lift : forall A (o : outcome A), keeps R (lift o).
Proof. intros A o s; apply R_refl. Qed.

Lemma keeps_gets : forall A (f : state -> A), keeps R (gets f).
Proof. intros A f s; apply R_refl. Qed.

Lemma keeps_bind : forall A B (m : M A) (k : A -> M B),
  keeps R m -> (forall a, keeps R (k a)) -> keeps R (bind m k).
Proof.
  intros A B m k Hm Hk s. unfold bind.
  specialize (Hm s). destruct (m s) as [s' [a|e|w]]; simpl in *; auto.
  eapply R_trans; [exact Hm | apply Hk].
Qed.

Lemma keeps_fresh : keeps R fresh.
Proof. intros s; apply R_fresh. Qed.

Lemma keeps_mapM_from : forall A B (f : A -> nat -> M B) xs i,
  (forall x j, keeps R (f x j)) -> keeps R (mapM_from i f xs).
Proof.
  intros A B f xs; induction xs as [|x rest IH]; intros i Hf; simpl.
  - apply keeps_ret.
  - apply keeps_bind; [apply Hf|]. intros y.
    apply keeps_bind; [now apply IH|]. intros ys. apply keeps_ret.
Qed.

Lemma keeps_prepareArgs : forall lisp (process : argProcessor) path ctor skip,
  (forall arg p k c, keeps R (process arg p k c onPathValue)) ->
  keeps R (prepareArgs lisp process path ctor onPathValue skip).
Proof.
  intros lisp process path ctor skip Hp. unfold prepareArgs.
  apply keeps_bind; [|intros; apply keeps_ret].
  apply keeps_mapM_from. intros; apply Hp.
Qed.

Lemma keeps_parseProps : forall v (process : argProcessor) path prevKey ctor,
  (forall arg p k c, keeps R (process arg p k c onPathValue)) ->
  keeps R (parseProps E v process path prevKey ctor onPathValue).
Proof.
  intros v process path prevKey ctor Hp. unfold parseProps.
  apply keeps_bind; [apply keeps_lift | intros _].
  apply keeps_bind; [apply keeps_lift | intros refId].
  apply keeps_bind; [now apply keeps_prepareArgs|].
  intros args. apply keeps_bind; [apply keeps_fresh | intros id].
  apply keeps_bind; [apply keeps_gets | intros current].
  destruct current as [current|]; [|apply keeps_ret].
  apply keeps_bind; [apply keeps_lift | intros r].
  destruct (negb (truthy r)); apply keeps_ret.
Qed.

Lemma parseProps_fresh_or_current :
  forall v (process : argProcessor) path prevKey ctor s s' c,
  parseProps E v process path prevKey ctor onPathValue s = (s', Ok c) ->
  (cfg_id c < nextId s' /\ exists fs, cfg_props c = VObj fs)
  \/ (exists k, map_get strict_eq k (currentConfigs s') = Some c).
Proof.
  intros v process path prevKey ctor s s' c Hrun.
  unfold parseProps in Hrun.
  unfold bind at 1, lift at 1 in Hrun.
  destruct (validateKey E (get_prop (getPropsFromArgs v) "key") "key");
    try discriminate.
  unfold bind at 1, lift at 1 in Hrun.
  destruct (resolveRefId E (getPropsFromArgs v) path prevKey) as [refId| |];
    try discriminate.
  unfold bind at 1 in Hrun.
  destruct (prepareArgs v process refId ctor onPathValue
              (skipValues (getPropsFromArgs v)) s) as [sa [args| |]];
    try discriminate.
  unfold bind at 1, fresh at 1 in Hrun.
  unfold bind at 1, getCurrentConfig, gets in Hrun.
  cbn [currentConfigs with_nextId] in Hrun.
  destruct (map_get strict_eq refId (currentConfigs sa)) as [current|] eqn:Hcur.
  - unfold bind, lift in Hrun.
    destruct (call E _ _) as [r| |]; try discriminate.
    destruct (negb (truthy r)); inversion Hrun; subst; clear Hrun.
    + right. exists refId. exact Hcur.
    + left. cbn. split; [lia | unfold configProps; eauto].
  - inversion Hrun; subst; clear Hrun. left. cbn.
    split; [lia | unfold configProps; eauto].
Qed.

Lemma keeps_invocation : forall fuel f config s,
  (forall v path prevKey prevCtor,
     keeps R (processLisp E fuel v path prevKey prevCtor onPathValue)) ->
  isFunc f = true ->
  (cfg_id config < nextId s /\ exists fs, cfg_props config = VObj fs)
  \/ (exists k, map_get strict_eq k (currentConfigs s) = Some config) ->
  R s (fst (settleInvocation E fuel f onPathValue config s)).
Proof.
  intros fuel f config s IH Hf Hc. unfold settleInvocation.
  unfold bind at 1, getCurrentConfig, gets.
  match goal with |- R s (fst ((if ?c then _ else _) s)) => destruct c end;
    [apply R_refl|].
  unfold bind at 1, setCurrentConfig at 1, modify at 1.
  unfold bind at 1, setCurrentDispatcher at 1, modify at 1.
  unfold bind at 1, recordInvocation at 1, modify at 1.
  eapply R_trans; [apply (R_invoked config f
     (if isType f domComponent then config_obj config else cfg_props config) s Hf Hc)|].
  match goal with |- R ?s0 (fst (?m ?s1)) =>
    change s1 with s0; generalize s0 end.
  apply keeps_bind; [apply keeps_lift | intros nextValue].
  apply keeps_bind; [apply IH | intros finalValue].
  apply keeps_bind; [apply R_callback | intros _]. apply keeps_ret.
Qed.

Lemma keeps_processLisp : forall fuel v path prevKey prevCtor,
  keeps R (processLisp E fuel v path prevKey prevCtor onPathValue).
Proof.
  induction fuel as [|fuel IH]; intros v path prevKey prevCtor.
  - apply keeps_lift.
  - cbn [processLisp].
    destruct (primitiveTypes E (typeof v)); [apply keeps_ret|].
    destruct (ignoredValues E v).
    { apply keeps_bind; [apply keeps_lift | intros; apply keeps_ret]. }
    destruct (isLispLike v) eqn:Hlisp; cbn [negb].
    + intros s. unfold bind at 1.
      match goal with |- context [parseProps E ?w ?p path prevKey ?f onPathValue s] =>
        pose proof (keeps_parseProps w p path prevKey f
          ltac:(intros arg q k c;
                destruct (isType _ domComponent); [apply IH | apply keeps_ret]) s)
          as Hkeep;
        destruct (parseProps E w p path prevKey f onPathValue s)
          as [sp [config| |]] eqn:Hparse
      end; cbn [fst] in Hkeep |- *; try exact Hkeep.
      eapply R_trans; [exact Hkeep|].
      apply (keeps_invocation fuel _ config sp IH).
      * unfold getLispFunc. rewrite annotate_index.
        unfold isLispLike in Hlisp. now apply andb_prop in Hlisp.
      * eapply parseProps_fresh_or_current; exact Hparse.
    + destruct (isArray v).
      * apply keeps_bind; [apply keeps_lift | intros nextPath].
        apply keeps_bind; [|intros; apply keeps_ret].
        apply keeps_mapM_from. intros; apply IH.
      * apply keeps_bind; [apply keeps_lift | intros; apply keeps_ret].
Qed.

Lemma keeps_createElement : forall fuel v seedPath,
  keeps R (createElement E fuel v seedPath onPathValue).
Proof.
  intros fuel v seedPath. unfold createElement.
  apply keeps_bind.
  - destruct (isDevelopment E); [|apply keeps_ret].
    unfold validateSeedPath, hasTreeValue.
    apply keeps_bind; [apply keeps_gets | intros known].
    destruct known; [apply keeps_ret|].
    destruct (negb (vnodeKeyTypes (typeof seedPath))); [apply keeps_lift|].
    apply keeps_bind; [apply keeps_lift | intros; apply keeps_ret].
  - intros _. destruct (isType v vnode); [apply keeps_ret|].
    apply keeps_bind; [apply keeps_lift | intros seed].
    apply keeps_processLisp.
Qed.

End Keeps.

Lemma noCommit_setTreeValue : forall refId v c, keeps noCommit (setTreeValue refId v c).
Proof. intros refId v c s; split; reflexivity. Qed.

Lemma noCommit_identityCallback : forall refId v c,
  keeps noCommit (identityCallback refId v c).
Proof. intros refId v c s; split; reflexivity. Qed.

(** ** Components with effects *)

Lemma bind_cong : forall A B (m m' : M A) (k k' : A -> M B),
  (forall s, m s = m' s) -> (forall a s, k a s = k' a s) ->
  forall s, bind m k s = bind m' k' s.
Proof.
  intros A B m m' k k' Hm Hk s. unfold bind. rewrite Hm.
  destruct (m' s) as [s' [a| |]]; auto.
Qed.

Lemma mapM_from_cong : forall A B (f g : A -> nat -> M B) xs i,
  (forall x j s, f x j s = g x j s) ->
  forall s, mapM_from i f xs s = mapM_from i g xs s.
Proof.
  intros A B f g xs; induction xs as [|x rest IH]; intros i Hfg s; simpl;
    [reflexivity|].
  apply bind_cong; [intros; apply Hfg | intros y s'].
  apply bind_cong; [intros; now apply IH | reflexivity].
Qed.

Lemma call_pureCode : forall E f args s,
  Reentrant.call E (pureCode E) f args s = lift (call E f args) s.
Proof. intros E f args s. destruct f as [| | | | | |[]| | |]; reflexivity. Qed.

Lemma parseProps_pureCode :
  forall E v (process process' : argProcessor) path prevKey ctor onPathValue,
  (forall arg p k c s, process arg p k c onPathValue s
                       = process' arg p k c onPathValue s) ->
  forall s,
  Reentrant.parseProps E (pureCode E) v process path prevKey ctor onPathValue s
  = parseProps E v process' path prevKey ctor onPathValue s.
Proof.
  intros E v process process' path prevKey ctor onPathValue Hp.
  unfold Reentrant.parseProps, parseProps.
  apply bind_cong; [reflexivity | intros _].
  apply bind_cong; [reflexivity | intros refId].
  apply bind_cong.
  { intros s. unfold prepareArgs.
    apply bind_cong; [|reflexivity]. intros s0. apply mapM_from_cong.
    intros; apply Hp. }
  intros args. apply bind_cong; [reflexivity | intros id].
  apply bind_cong; [reflexivity | intros [current|] s]; [|reflexivity].
  apply bind_cong; [intros; apply call_pureCode | reflexivity].
Qed.

(** With user code that is a function of its arguments, the evaluator over
    components with effects is the evaluator. *)
Lemma processLisp_pureCode :
  forall E fuel v path prevKey prevCtor onPathValue s,
  Reentrant.processLisp E (pureCode E) fuel v path prevKey prevCtor onPathValue s
  = processLisp E fuel v path prevKey prevCtor onPathValue s.
Proof.
  intros E; induction fuel as [|fuel IH];
    intros v path prevKey prevCtor onPathValue s; [reflexivity|].
  cbn [Reentrant.processLisp processLisp].
  destruct (primitiveTypes E (typeof v)); [reflexivity|].
  destruct (ignoredValues E v); [reflexivity|].
  destruct (negb (isLispLike v)).
  - destruct (isArray v); [|reflexivity].
    revert s. apply bind_cong; [reflexivity | intros nextPath].
    apply bind_cong; [|reflexivity]. intros s0. apply mapM_from_cong.
    intros; apply IH.
  - revert s. apply bind_cong.
    + apply parseProps_pureCode. intros arg p k c s0.
      destruct (isType _ domComponent); [apply IH | reflexivity].
    + intros config. apply bind_cong; [reflexivity | intros current].
      intros s0. match goal with |- (if ?c then _ else _) _ = _ => destruct c end;
        [reflexivity|].
      revert s0.
      apply bind_cong; [reflexivity | intros _].
      apply bind_cong; [reflexivity | intros _].
      apply bind_cong; [reflexivity | intros _].
      apply bind_cong; [intros; apply call_pureCode | intros nextValue].
      apply bind_cong; [intros; apply IH | reflexivity].
Qed.

Lemma renderWith_pureCode :
  forall E fuel fromNode component seedPath onPathValue s,
  Reentrant.renderWith E (pureCode E) fuel fromNode component seedPath
    onPathValue s
  = renderWith E fuel fromNode component seedPath onPathValue s.
Proof.
  intros E fuel fromNode component seedPath onPathValue.
  unfold Reentrant.renderWith, renderWith.
  apply bind_cong; [|reflexivity].
  unfold Reentrant.createElement, createElement.
  apply bind_cong; [reflexivity | intros _ s].
  destruct (isType component vnode); [reflexivity|].
  revert s. apply bind_cong; [reflexivity | intros seed s].
  apply processLisp_pureCode.
Qed.

Section KeepsReentrant.
Context (E : collaborators) (userCode : nat -> list value -> M value)
        (R : state -> state -> Prop) (onPathValue : pathValueCallback).
Hypothesis R_refl : forall s, R s s.
Hypothesis R_trans : forall a b c, R a b -> R b c -> R a c.
Hypothesis R_fresh : forall s, R s (with_nextId S s).
Hypothesis R_invoked : forall refId c f input s, R s (invoked refId c f input s).
Hypothesis R_callback : forall refId v c, keeps R (onPathValue refId v c).
Hypothesis R_userCode : forall n args, keeps R (userCode n args).

Lemma reentrant_keeps_call : forall f args,
  keeps R (Reentrant.call E userCode f args).
Proof.
  intros f args. destruct f as [| | | | | |[]| | |];
    try apply (keeps_lift R R_refl). apply R_userCode.
Qed.

Lemma reentrant_keeps_parseProps :
  forall v (process : argProcessor) path prevKey ctor,
  (forall arg p k c, keeps R (process arg p k c onPathValue)) ->
  keeps R (Reentrant.parseProps E userCode v process path prevKey ctor onPathValue).
Proof.
  intros v process path prevKey ctor Hp. unfold Reentrant.parseProps.
  apply (keeps_bind R R_trans); [apply (keeps_lift R R_refl) | intros _].
  apply (keeps_bind R R_trans); [apply (keeps_lift R R_refl) | intros refId].
  apply (keeps_bind R R_trans);
    [now apply (keeps_prepareArgs R onPathValue R_refl R_trans)|].
  intros args.
  apply (keeps_bind R R_trans); [apply (keeps_fresh R R_fresh) | intros id].
  apply (keeps_bind R R_trans); [apply (keeps_gets R R_refl) | intros current].
  destruct current as [current|]; [|apply (keeps_ret R R_refl)].
  apply (keeps_bind R R_trans); [apply reentrant_keeps_call | intros r].
  destruct (negb (truthy r)); apply (keeps_ret R R_refl).
Qed.

Lemma reentrant_keeps_processLisp : forall fuel v path prevKey prevCtor,
  keeps R (Reentrant.processLisp E userCode fuel v path prevKey prevCtor
             onPathValue).
Proof.
  induction fuel as [|fuel IH]; intros v path prevKey prevCtor.
  - apply (keeps_lift R R_refl).
  - cbn [Reentrant.processLisp].
    destruct (primitiveTypes E (typeof v)); [apply (keeps_ret R R_refl)|].
    destruct (ignoredValues E v).
    { apply (keeps_bind R R_trans);
        [apply (keeps_lift R R_refl) | intros; apply (keeps_ret R R_refl)]. }
    destruct (negb (isLispLike v)).
    + destruct (isArray v).
      * apply (keeps_bind R R_trans);
          [apply (keeps_lift R R_refl) | intros nextPath].
        apply (keeps_bind R R_trans); [|intros; apply (keeps_ret R R_refl)].
        apply (keeps_mapM_from R R_refl R_trans). intros; apply IH.
      * apply (keeps_bind R R_trans);
          [apply (keeps_lift R R_refl) | intros; apply (keeps_ret R R_refl)].
    + apply (keeps_bind R R_trans).
      * apply reentrant_keeps_parseProps. intros arg p k c.
        destruct (isType _ domComponent); [apply IH | apply (keeps_ret R R_refl)].
      * intros config.
        apply (keeps_bind R R_trans); [apply (keeps_gets R R_refl) | intros current].
        match goal with |- keeps R (if ?c then _ else _) => destruct c end;
          [apply (keeps_gets R R_refl)|].
        intros s.
        unfold bind at 1, setCurrentConfig at 1, modify at 1.
        unfold bind at 1, setCurrentDispatcher at 1, modify at 1.
        unfold bind at 1, recordInvocation at 1, modify at 1.
        match goal with
        | |- R s (fst (_ (with_invocations (fun log => log ++ [(?f, ?input)])
                            (with_dispatchers _
                               (with_configs (map_set strict_eq ?refId ?c) s))))) =>
            eapply R_trans; [apply (R_invoked refId c f input s)|];
            change (with_invocations (fun log => log ++ [(f, input)])
                      (with_dispatchers (map_set strict_eq refId f)
                         (with_configs (map_set strict_eq refId c) s)))
              with (invoked refId c f input s);
            generalize (invoked refId c f input s)
        end.
        apply (keeps_bind R R_trans); [apply reentrant_keeps_call | intros nextValue].
        apply (keeps_bind R R_trans); [apply IH | intros finalValue].
        apply (keeps_bind R R_trans); [apply R_callback | intros _].
        apply (keeps_ret R R_refl).
Qed.

Lemma reentrant_keeps_createElement : forall fuel v seedPath,
  keeps R (Reentrant.createElement E userCode fuel v seedPath onPathValue).
Proof.
  intros fuel v seedPath. unfold Reentrant.createElement.
  apply (keeps_bind R R_trans).
  - destruct (isDevelopment E); [|apply (keeps_ret R R_refl)].
    unfold validateSeedPath, hasTreeValue.
    apply (keeps_bind R R_trans); [apply (keeps_gets R R_refl) | intros known].
    destruct known; [apply (keeps_ret R R_refl)|].
    destruct (negb (vnodeKeyTypes (typeof seedPath)));
      [apply (keeps_lift R R_refl)|].
    apply (keeps_bind R R_trans);
      [apply (keeps_lift R R_refl) | intros; apply (keeps_ret R R_refl)].
  - intros _. destruct (isType v vnode); [apply (keeps_ret R R_refl)|].
    apply (keeps_bind R R_trans); [apply (keeps_lift R R_refl) | intros seed].
    apply reentrant_keeps_processLisp.
Qed.

End KeepsReentrant.

Lemma noRender_refl : forall s, noRender s s.
Proof. intros s; repeat split. Qed.

Lemma noRender_trans : forall a b c, noRender a b -> noRender b c -> noRender a c.
Proof.
  intros a b c (H1 & H2 & H3) (H4 & H5 & H6); repeat split; congruence.
Qed.

Lemma noCommit_refl : forall s, noCommit s s.
Proof. intros s; split; reflexivity. Qed.

Lemma noCommit_trans : forall a b c, noCommit a b -> noCommit b c -> noCommit a c.
Proof. intros a b c [H1 H2] [H3 H4]; split; congruence. Qed.

(** [useModel] renders nothing, whether it answers or not. *)
Lemma noRender_useModel : forall E fuel refId key initialModel options,
  keeps noRender (useModel E fuel refId key initialModel options).
Proof.
  intros E; induction fuel as [|fuel IH]; intros refId key initialModel options.
  - intros s; apply noRender_refl.
  - cbn [useModel].
    apply (keeps_bind noRender noRender_trans);
      [apply (keeps_gets noRender noRender_refl) | intros scoped].
    destruct scoped as [scoped|].
    + apply (keeps_bind noRender noRender_trans).
      { destruct (map_get strict_eq _ scoped);
          [apply (keeps_ret noRender noRender_refl)|].
        unfold initModel.
        apply (keeps_bind noRender noRender_trans).
        { destruct (isFunc initialModel);
            [apply (keeps_lift noRender noRender_refl)
            |apply (keeps_ret noRender noRender_refl)]. }
        intros initial.
        apply (keeps_bind noRender noRender_trans);
          [intros s; repeat split | intros id].
        apply (keeps_ret noRender noRender_refl). }
      intros m.
      apply (keeps_bind noRender noRender_trans).
      { destruct (isDef options);
          [apply (keeps_lift noRender noRender_refl)
          |apply (keeps_ret noRender noRender_refl)]. }
      intros given.
      apply (keeps_bind noRender noRender_trans);
        [intros s; repeat split | intros wid].
      apply (keeps_bind noRender noRender_trans);
        [intros s; repeat split | intros _].
      apply (keeps_bind noRender noRender_trans);
        [intros s; repeat split | intros _].
      apply (keeps_ret noRender noRender_refl).
    + apply (keeps_bind noRender noRender_trans);
        [intros s; repeat split | intros _]. apply IH.
Qed.

Lemma noRender_counterComponent : forall n args,
  keeps noRender (counterComponent n args).
Proof.
  intros n args. unfold counterComponent.
  apply (keeps_bind noRender noRender_trans);
    [apply noRender_useModel | intros m; apply (keeps_ret noRender noRender_refl)].
Qed.

(** X7. [renderWith] commits once, after the evaluation, when neither a
    component nor the callback commits anything itself: when
    [createElement] answers a tree, one pass is counted and one patch is
    requested, from [fromNode] to that tree, and the answer is what the
    patch engine answers; when [createElement] fails, the failure is the
    answer and nothing is committed. *)
Theorem renderWith_commits_once :
  forall E userCode fuel fromNode component seedPath onPathValue s,
  (forall n args, keeps noCommit (userCode n args)) ->
  (forall refId v c, keeps noCommit (onPathValue refId v c)) ->
  let run := Reentrant.renderWith E userCode fuel fromNode component seedPath
               onPathValue s in
  match Reentrant.createElement E userCode fuel component seedPath onPathValue s
  with
  | (_, Ok toNode) =>
      snd run = Ok (patch E fromNode toNode)
      /\ patchRequests (fst run) = patchRequests s ++ [(fromNode, toNode)]
      /\ completedPasses (fst run) = S (completedPasses s)
  | (s1, Throw e) => run = (s1, Throw e) /\ noCommit s s1
  | (s1, Stuck w) => run = (s1, Stuck w) /\ noCommit s s1
  end.
Proof.
  intros E userCode fuel fromNode component seedPath onPathValue s Hcode Hcb run.
  pose proof (reentrant_keeps_createElement E userCode noCommit onPathValue
                noCommit_refl noCommit_trans
                (fun s0 => conj eq_refl eq_refl)
                (fun refId c f input s0 => conj eq_refl eq_refl)
                Hcb Hcode fuel component seedPath s) as Hframe.
  assert (Hrun : run
    = match Reentrant.createElement E userCode fuel component seedPath
              onPathValue s with
      | (s1, Ok toNode) =>
          (with_patchRequests (fun log => log ++ [(fromNode, toNode)])
             (with_completedPasses S s1), Ok (patch E fromNode toNode))
      | (s1, Throw e) => (s1, Throw e)
      | (s1, Stuck w) => (s1, Stuck w)
      end).
  { unfold run, Reentrant.renderWith, bind, onVtreeCompleted, requestPatch,
      modify, ret.
    destruct (Reentrant.createElement E userCode fuel component seedPath
                onPathValue s) as [s1 [toNode|e|w]]; reflexivity. }
  clearbody run.
  destruct (Reentrant.createElement E userCode fuel component seedPath
              onPathValue s) as [s1 [toNode|e|w]]; cbn [fst] in Hframe;
    subst run; try (split; [reflexivity | exact Hframe]).
  destruct Hframe as [Hpatch Hpasses].
  cbn [fst snd patchRequests completedPasses with_patchRequests
       with_completedPasses].
  rewrite Hpatch, Hpasses. repeat split.
Qed.

Lemma renderWith_commits_once_witness :
  patchRequests
    (fst (Reentrant.renderWith prodEnv counterComponent 10 VUndef
            counterExpression (VStr "R") setTreeValue emptyState))
  = [(VUndef, specCreateTextVnode (VNum 0))]
  /\ completedPasses
       (fst (Reentrant.renderWith prodEnv counterComponent 10 VUndef
               counterExpression (VStr "R") setTreeValue emptyState))
     = 1.
Proof.
  assert (Hcreate :
    Reentrant.createElement prodEnv counterComponent 10 counterExpression
      (VStr "R") setTreeValue emptyState
    = (fst (Reentrant.createElement prodEnv counterComponent 10
              counterExpression (VStr "R") setTreeValue emptyState),
       Ok (specCreateTextVnode (VNum 0))))
    by (vm_compute; reflexivity).
  pose proof (renderWith_commits_once prodEnv counterComponent 10 VUndef
                counterExpression (VStr "R") setTreeValue emptyState
                (fun n args s =>
                   proj2 (noRender_counterComponent n args s))
                noCommit_setTreeValue) as H.
  cbv zeta in H. rewrite Hcreate in H. destruct H as (_ & Hpatch & Hpasses).
  split; [exact Hpatch | exact Hpasses].
Defined.

(** X8. With its default callback [createElement] renders nothing itself:
    when no component writes a tree value, requests a patch or completes a
    pass, the evaluation has not either, whether it answers or fails. *)
Theorem createElement_records_no_tree :
  forall E userCode fuel v seedPath s,
  (forall n args, keeps noRender (userCode n args)) ->
  noRender s
    (fst (Reentrant.createElement E userCode fuel v seedPath identityCallback s)).
Proof.
  intros E userCode fuel v seedPath s Hcode.
  apply (reentrant_keeps_createElement E userCode noRender identityCallback
           noRender_refl noRender_trans).
  - intros s0; repeat split.
  - intros refId c f input s0; repeat split.
  - intros refId x c s0; apply noRender_refl.
  - exact Hcode.
Qed.

Lemma createElement_records_no_tree_witness :
  noRender emptyState
    (fst (Reentrant.createElement prodEnv counterComponent 10 counterExpression
            (VStr "R") identityCallback emptyState))
  /\ hasModel prodEnv "R" (VStr "count")
       (fst (Reentrant.createElement prodEnv counterComponent 10
               counterExpression (VStr "R") identityCallback emptyState))
     = true.
Proof.
  split.
  - apply (createElement_records_no_tree prodEnv counterComponent 10
             counterExpression (VStr "R") emptyState noRender_counterComponent).
  - vm_compute. reflexivity.
Defined.

(** ** The store of recorded configs *)

Section WellFormed.
Context (E : collaborators) (onPathValue : pathValueCallback).
Hypothesis callback_keeps : forall refId v c,
  keeps (keepsWellFormed E) (onPathValue refId v c).

Lemma keepsWellFormed_refl : forall s, keepsWellFormed E s s.
Proof. intros s; split; auto. Qed.

Lemma keepsWellFormed_trans : forall a b c,
  keepsWellFormed E a b -> keepsWellFormed E b c -> keepsWellFormed E a c.
Proof. intros a b c [H1 H2] [H3 H4]; split; [lia | auto]. Qed.

Lemma keepsWellFormed_fresh : forall s, keepsWellFormed E s (with_nextId S s).
Proof.
  intros s; split; [cbn; lia|]. intros Hwf k c Hget.
  destruct (Hwf k c Hget) as (H1 & H0 & H2 & H3).
  repeat split; [exact H1 | exact H0 | cbn; lia | exact H3].
Qed.

Lemma keepsWellFormed_invoked : forall c f input s,
  isFunc f = true ->
  (cfg_id c < nextId s /\ exists fs, cfg_props c = VObj fs)
  \/ (exists k, map_get strict_eq k (currentConfigs s) = Some c) ->
  keepsWellFormed E s (invoked (get_prop (cfg_props c) (sp_refId E)) c f input s).
Proof.
  intros c f input s Hf Hc; split; [cbn; lia|]. intros Hwf k c' Hget.
  unfold invoked in *. cbn [currentConfigs currentDispatchers nextId] in *.
  assert (Hid : cfg_id c < nextId s /\ exists fs, cfg_props c = VObj fs).
  { destruct Hc as [Hlt | [k0 Hk0]]; [exact Hlt|].
    destruct (Hwf k0 c Hk0) as (_ & H0 & H2 & _). split; assumption. }
  destruct (strict_eq k (get_prop (cfg_props c) (sp_refId E))) eqn:Hk.
  - pose proof (strict_eq_eq _ _ Hk) as Heq. subst k.
    rewrite map_get_set_same in Hget by exact Hk.
    inversion Hget; subst c'.
    repeat split; [apply Hid | apply Hid |].
    exists f. split; [apply map_get_set_same, Hk | exact Hf].
  - rewrite map_get_set_other in Hget by (try apply strict_eq_eq; exact Hk).
    destruct (Hwf k c' Hget) as (H1 & H0 & H2 & g & H3 & H4).
    repeat split; [exact H1 | exact H0 | exact H2 |]. exists g. split; [|exact H4].
    rewrite map_get_set_other by (try apply strict_eq_eq; exact Hk). exact H3.
Qed.

Lemma keepsWellFormed_processLisp : forall fuel v path prevKey prevCtor,
  keeps (keepsWellFormed E)
    (processLisp E fuel v path prevKey prevCtor onPathValue).
Proof.
  apply keeps_processLisp.
  - exact keepsWellFormed_refl.
  - exact keepsWellFormed_trans.
  - exact keepsWellFormed_fresh.
  - exact keepsWellFormed_invoked.
  - exact callback_keeps.
Qed.

Lemma keepsWellFormed_createElement : forall fuel v seedPath,
  keeps (keepsWellFormed E) (createElement E fuel v seedPath onPathValue).
Proof.
  apply keeps_createElement.
  - exact keepsWellFormed_refl.
  - exact keepsWellFormed_trans.
  - exact keepsWellFormed_fresh.
  - exact keepsWellFormed_invoked.
  - exact callback_keeps.
Qed.
End WellFormed.

Lemma keepsWellFormed_setTreeValue : forall E refId v c,
  keeps (keepsWellFormed E) (setTreeValue refId v c).
Proof. intros E refId v c s; split; [cbn; lia | intros H; exact H]. Qed.

Lemma keepsWellFormed_identityCallback : forall E refId v c,
  keeps (keepsWellFormed E) (identityCallback refId v c).
Proof. intros E refId v c s; apply keepsWellFormed_refl. Qed.

Lemma storeWellFormed_empty : forall E, storeWellFormed E emptyState.
Proof. intros E k c H; discriminate. Qed.

Lemma storeWellFormed_renderWith :
  forall E fuel fromNode v seedPath onPathValue s,
  (forall refId x c, keeps (keepsWellFormed E) (onPathValue refId x c)) ->
  storeWellFormed E s ->
  storeWellFormed E (fst (renderWith E fuel fromNode v seedPath onPathValue s)).
Proof.
  intros E fuel fromNode v seedPath onPathValue s Hcb Hwf.
  pose proof (keepsWellFormed_createElement E onPathValue Hcb fuel v seedPath s)
    as [_ Hkeep].
  specialize (Hkeep Hwf). unfold renderWith, bind.
  destruct (createElement E fuel v seedPath onPathValue s) as [s1 [toNode|e|w]];
    exact Hkeep.
Qed.

(** X9. Through an evaluation and through a render (with a callback that
    keeps it so) the store of recorded configs stays well formed: every
    recorded config sits under the RefId its props carry, has an object
    literal as props, is older than the next object identity, and has a
    function recorded as its dispatcher. *)
Theorem evaluation_keeps_store_wellFormed :
  forall E fuel fromNode v seedPath onPathValue s,
  (forall refId x c, keeps (keepsWellFormed E) (onPathValue refId x c)) ->
  storeWellFormed E s ->
  storeWellFormed E (fst (createElement E fuel v seedPath onPathValue s))
  /\ storeWellFormed E (fst (renderWith E fuel fromNode v seedPath onPathValue s)).
Proof.
  intros E fuel fromNode v seedPath onPathValue s Hcb Hwf. split.
  - now apply (keepsWellFormed_createElement E onPathValue Hcb fuel v seedPath s).
  - now apply storeWellFormed_renderWith.
Qed.

Lemma evaluation_keeps_store_wellFormed_witness :
  storeWellFormed prodEnv
    (fst (createElement prodEnv 10 (memoExpression 1) (VStr "R") setTreeValue
            emptyState))
  /\ storeWellFormed prodEnv
       (fst (renderWith prodEnv 10 VUndef (memoExpression 1) (VStr "R")
               setTreeValue emptyState)).
Proof.
  apply (evaluation_keeps_store_wellFormed prodEnv 10 VUndef (memoExpression 1)
           (VStr "R") setTreeValue emptyState).
  - apply keepsWellFormed_setTreeValue.
  - apply storeWellFormed_empty.
Defined.

(** ** hooks.js: [forceUpdate] of a single node *)

Lemma applyProps_assoc : forall E props k base,
  assoc k (applyProps E base props)
  = if isSpecialProp E k then assoc k base
    else if existsb (String.eqb k) (object_keys props)
         then Some (get_prop props k)
         else assoc k base.
Proof.
  intros E props k. unfold applyProps.
  generalize (object_keys props) as keys.
  induction keys as [|k0 rest IH]; intros base; cbn [fold_left existsb].
  - destruct (isSpecialProp E k); reflexivity.
  - rewrite IH. destruct (isSpecialProp E k) eqn:Hk.
    + destruct (isSpecialProp E k0) eqn:Hk0; [reflexivity|].
      apply assoc_set_other. destruct (String.eqb k k0) eqn:Heq; [|reflexivity].
      apply String.eqb_eq in Heq; congruence.
    + destruct (existsb (String.eqb k) rest); cbn [orb].
      * now rewrite orb_true_r.
      * rewrite orb_false_r.
        destruct (String.eqb k k0) eqn:Heq.
        -- apply String.eqb_eq in Heq; subst k0. rewrite Hk.
           apply assoc_set_same.
        -- destruct (isSpecialProp E k0); [reflexivity|].
           now apply assoc_set_other.
Qed.

Lemma configProps_refId : forall E props refId args,
  isSpecialProp E (sp_refId E) = true ->
  sp_refId E <> "children" ->
  get_prop (configProps E props refId args) (sp_refId E) = refId.
Proof.
  intros E props refId args Hspecial Hne. unfold configProps. cbn [get_prop].
  rewrite applyProps_assoc, Hspecial.
  rewrite assoc_set_other by now apply String.eqb_neq.
  cbn [assoc_set assoc]. now rewrite String.eqb_refl.
Qed.

Lemma parseProps_always_fresh :
  forall E v (process : argProcessor) path prevKey ctor onPathValue s sp cfg refId,
  (forall arg p k c, keeps (keepsWellFormed E) (process arg p k c onPathValue)) ->
  isSpecialProp E (sp_refId E) = true ->
  sp_refId E <> "children" ->
  resolveShouldUpdate (getPropsFromArgs v) = VFun FAlwaysTrue ->
  resolveRefId E (getPropsFromArgs v) path prevKey = Ok refId ->
  storeWellFormed E s ->
  parseProps E v process path prevKey ctor onPathValue s = (sp, Ok cfg) ->
  storeWellFormed E sp
  /\ (forall k c, map_get strict_eq k (currentConfigs sp) = Some c ->
        cfg_id c <> cfg_id cfg)
  /\ exists args,
       cfg_props cfg = configProps E (getPropsFromArgs v) refId args.
Proof.
  intros E v process path prevKey ctor onPathValue s sp cfg refId
         Hp Hspecial Hne Hupdate Href Hwf Hrun.
  unfold parseProps in Hrun.
  unfold bind at 1, lift at 1 in Hrun.
  destruct (validateKey E (get_prop (getPropsFromArgs v) "key") "key");
    try discriminate.
  unfold bind at 1, lift at 1 in Hrun. rewrite Href in Hrun.
  unfold bind at 1 in Hrun.
  pose proof (keeps_prepareArgs (keepsWellFormed E) onPathValue
                (keepsWellFormed_refl E) (keepsWellFormed_trans E)
                v process refId ctor (skipValues (getPropsFromArgs v)) Hp s)
    as [_ Hkeep].
  destruct (prepareArgs v process refId ctor onPathValue
              (skipValues (getPropsFromArgs v)) s) as [sa [args| |]];
    try discriminate.
  cbn [fst] in Hkeep. specialize (Hkeep Hwf).
  unfold bind at 1, fresh at 1 in Hrun.
  unfold bind at 1, getCurrentConfig, gets in Hrun.
  cbn [currentConfigs with_nextId] in Hrun.
  rewrite Hupdate in Hrun.
  assert (Hanswer : (with_nextId S sa,
                     Ok (mkConfig (nextId sa)
                           (configProps E (getPropsFromArgs v) refId args)
                           refId ctor)) = (sp, Ok cfg)).
  { destruct (map_get strict_eq refId (currentConfigs sa)); exact Hrun. }
  inversion Hanswer; subst sp cfg; clear Hanswer Hrun.
  split; [apply (keepsWellFormed_fresh E sa), Hkeep|].
  split.
  - intros k c Hget. cbn [currentConfigs with_nextId cfg_id] in *.
    destruct (Hkeep k c Hget) as (_ & _ & Hlt & _). lia.
  - exists args. reflexivity.
Qed.

Lemma renderWith_answer :
  forall E fuel fromNode component seedPath onPathValue s s2 nextValue,
  renderWith E fuel fromNode component seedPath onPathValue s = (s2, Ok nextValue) ->
  exists s1 toNode,
    createElement E fuel component seedPath onPathValue s = (s1, Ok toNode)
    /\ s2 = with_patchRequests (fun log => log ++ [(fromNode, toNode)])
              (with_completedPasses S s1)
    /\ nextValue = patch E fromNode toNode.
Proof.
  intros E fuel fromNode component seedPath onPathValue s s2 nextValue Hrun.
  unfold renderWith, bind, onVtreeCompleted, requestPatch, modify, ret in Hrun.
  destruct (createElement E fuel component seedPath onPathValue s)
    as [s1 [toNode|e|w]]; try discriminate.
  inversion Hrun; subst. eauto.
Qed.

Lemma createElement_expression :
  forall E fuel v seedPath onPathValue s s1 r,
  isType v vnode = false ->
  createElement E fuel v seedPath onPathValue s = (s1, Ok r) ->
  exists seed,
    String_ seedPath = Ok seed
    /\ processLisp E fuel v newPath (VStr seed) VUndef onPathValue s = (s1, Ok r).
Proof.
  intros E fuel v seedPath onPathValue s s1 r Hnode Hrun.
  unfold createElement in Hrun. rewrite Hnode in Hrun.
  unfold bind at 1 in Hrun.
  assert (Hseed : fst ((if isDevelopment E then validateSeedPath E seedPath
                        else ret tt) s) = s).
  { destruct (isDevelopment E); [|reflexivity].
    unfold validateSeedPath, bind, hasTreeValue, gets, lift, ret.
    destruct (map_has strict_eq seedPath (treeValues s)); [reflexivity|].
    destruct (negb (vnodeKeyTypes (typeof seedPath))); [reflexivity|].
    destruct (validateKey E seedPath "seedPath"); reflexivity. }
  destruct ((if isDevelopment E then validateSeedPath E seedPath else ret tt) s)
    as [s0 [[]| |]]; try discriminate.
  cbn [fst] in Hseed. subst s0.
  unfold bind, lift in Hrun.
  destruct (String_ seedPath) as [seed| |]; try discriminate.
  exists seed. split; [reflexivity | exact Hrun].
Qed.

Lemma forcedProps_previousRefId : forall E props,
  sp_previousRefId E <> sp_shouldUpdate E ->
  get_prop (forcedProps E props) (sp_previousRefId E) = get_prop props "$$refId".
Proof.
  intros E props Hne. unfold forcedProps. cbn [get_prop].
  rewrite assoc_set_other by now apply String.eqb_neq.
  now rewrite assoc_set_same.
Qed.

Lemma forcedProps_shouldUpdate : forall E props,
  get_prop (forcedProps E props) (sp_shouldUpdate E) = VFun FAlwaysTrue.
Proof.
  intros E props. unfold forcedProps. cbn [get_prop].
  now rewrite assoc_set_same.
Qed.

Lemma assoc_remove_other : forall k k' fs,
  String.eqb k k' = false -> assoc k (assoc_remove k' fs) = assoc k fs.
Proof.
  intros k k' fs Hne; induction fs as [|[k0 v0] rest IH]; simpl; [reflexivity|].
  destruct (String.eqb k' k0) eqn:Hk0; simpl.
  - apply String.eqb_eq in Hk0; subst k0. now rewrite Hne.
  - now rewrite IH.
Qed.

Lemma assoc_not_key : forall k fs,
  existsb (String.eqb k) (map fst fs) = false -> assoc k fs = None.
Proof.
  intros k fs; induction fs as [|[k0 v0] rest IH]; simpl; [reflexivity|].
  destruct (String.eqb k k0); [discriminate | exact IH].
Qed.

Lemma forcedProps_other : forall E fs k,
  k <> "$$refId" -> k <> sp_previousRefId E -> k <> sp_shouldUpdate E ->
  get_prop (forcedProps E (VObj fs)) k = get_prop (VObj fs) k.
Proof.
  intros E fs k H1 H2 H3. unfold forcedProps. cbn [get_prop].
  rewrite !assoc_set_other by now apply String.eqb_neq.
  now rewrite assoc_remove_other by now apply String.eqb_neq.
Qed.

Lemma specEnv_bookkeeping : forall dev fns, bookkeepingLaws (specEnv dev fns).
Proof. intros dev fns; split; try reflexivity; try discriminate; auto. Qed.

Lemma storeWellFormed_memoState1 : storeWellFormed prodEnv memoState1.
Proof.
  apply storeWellFormed_renderWith;
    [apply keepsWellFormed_setTreeValue | apply storeWellFormed_empty].
Qed.

(** X10. In a well-formed store, a [forceUpdate] that comes to its end at
    a RefId whose tree value is not a fragment (the recorded props not
    being tagged as a node) has evaluated the recorded dispatcher again:
    invoked under the same RefId, whatever the recorded config would have
    memoized, with the recorded props that are not reserved (other than
    [children]).  After that evaluation it has counted one pass and
    requested one patch, from the stored value to the new tree. *)
Theorem forceUpdate_rerenders_node :
  forall E fuel refId s s' config,
  bookkeepingLaws E ->
  storeWellFormed E s ->
  map_get strict_eq (VStr refId) (currentConfigs s) = Some config ->
  let currentValue := lookupTreeValue (VStr refId) s in
  let dispatcher :=
    from_option (map_get strict_eq (VStr refId) (currentDispatchers s)) in
  let evaluated :=
    createElement E fuel
      (VArr [] [dispatcher; forcedProps E (cfg_props config)]) (VStr refId)
      (if Nat.eqb (length (split (pathSeparator E) refId)) 1
       then setTreeValue else identityCallback) s in
  isArray currentValue = false ->
  isType (forcedProps E (cfg_props config)) vnode = false ->
  forceUpdate E fuel refId s = (s', Ok tt) ->
  exists cfg toNode before after,
    snd evaluated = Ok toNode
    /\ get_prop (cfg_props cfg) (sp_refId E) = VStr refId
    /\ (forall k, isSpecialProp E k = false -> k <> "children" ->
          k <> sp_previousRefId E -> k <> "shouldUpdate" ->
          get_prop (cfg_props cfg) k = get_prop (cfg_props config) k)
    /\ invocations s'
       = invocations s ++ before
         ++ (dispatcher, if isType dispatcher domComponent
                         then config_obj cfg else cfg_props cfg) :: after
    /\ patchRequests s'
       = patchRequests (fst evaluated) ++ [(currentValue, toNode)]
    /\ completedPasses s' = S (completedPasses (fst evaluated)).
Proof.
  intros E fuel refId s s' config Hlaws Hwf Hconfig currentValue dispatcher
         evaluated Hnode Hprops Hrun.
  assert (Hev : evaluated
                = createElement E fuel
                    (VArr [] [dispatcher; forcedProps E (cfg_props config)])
                    (VStr refId)
                    (if Nat.eqb (length (split (pathSeparator E) refId)) 1
                     then setTreeValue else identityCallback) s)
    by reflexivity.
  clearbody evaluated.
  destruct Hlaws as [HrefIdName HupdateName HprevName Hreserved Hobject Harrays].
  destruct (Hwf _ _ Hconfig) as (HrefId & [fs Hfs] & Hid & f & Hdisp & Hfunc).
  assert (Hd : dispatcher = f) by (unfold dispatcher; now rewrite Hdisp).
  assert (Hchildren : sp_refId E <> "children")
    by (rewrite HrefIdName; discriminate).
  unfold forceUpdate in Hrun.
  unfold bind at 1, getCurrentConfig, gets in Hrun. rewrite Hconfig in Hrun.
  unfold bind at 1, getCurrentDispatcher, gets in Hrun.
  unfold bind at 1, getTreeValue, gets in Hrun.
  fold currentValue dispatcher in Hrun. rewrite Hnode in Hrun.
  cbn [negb] in Hrun.
  set (expr := VArr [] [dispatcher; forcedProps E (cfg_props config)]) in *.
  set (onPathValue :=
         if Nat.eqb (length (split (pathSeparator E) refId)) 1
         then setTreeValue else identityCallback) in *.
  assert (Hmono : forall r x c, monotone (onPathValue r x c)).
  { intros r x c. unfold onPathValue.
    destruct (Nat.eqb _ 1);
      [apply monotone_setTreeValue | apply monotone_identityCallback]. }
  assert (Hkeeps : forall r x c, keeps (keepsWellFormed E) (onPathValue r x c)).
  { intros r x c. unfold onPathValue.
    destruct (Nat.eqb _ 1);
      [apply keepsWellFormed_setTreeValue | apply keepsWellFormed_identityCallback]. }
  unfold bind at 1 in Hrun.
  destruct (renderWith E fuel currentValue expr (VStr refId) onPathValue s)
    as [s2 [nextValue| |]] eqn:Hrender; try discriminate.
  destruct (renderWith_answer _ _ _ _ _ _ _ _ _ Hrender)
    as (s1 & toNode & Hcreate & Hs2 & _).
  assert (Htail : invocations s' = invocations s2
                  /\ patchRequests s' = patchRequests s2
                  /\ completedPasses s' = completedPasses s2).
  { destruct (Nat.eqb (length (split (pathSeparator E) refId)) 1).
    - unfold bind, lift, ret in Hrun.
      destruct (object_assign currentValue nextValue); try discriminate.
      inversion Hrun; subst; auto.
    - unfold updateSourceValue, bind, lift, modify in Hrun.
      destruct (object_assign currentValue nextValue); try discriminate.
      inversion Hrun; subst; auto. }
  destruct Htail as (Hinv & Hpatch & Hpasses).
  destruct (createElement_expression E _ expr _ _ _ _ _ eq_refl Hcreate)
    as (seed & _ & Hprocess).
  destruct fuel as [|fuel]; [discriminate|].
  assert (Hlisp : isLispLike expr = true).
  { unfold isLispLike, expr. cbn [isArray get_index nth andb].
    rewrite Hd. exact Hfunc. }
  rewrite processLisp_expression in Hprocess
    by (try assumption; apply Harrays).
  unfold bind in Hprocess.
  assert (Hget : getPropsFromArgs expr = forcedProps E (cfg_props config)).
  { unfold getPropsFromArgs, expr. cbn [get_index nth].
    rewrite Hprops. reflexivity. }
  assert (HgetF : getLispFunc expr = dispatcher) by reflexivity.
  rewrite HgetF in Hprocess.
  match type of Hprocess with
  | context [parseProps E expr ?p _ _ _ _ s] => set (process := p) in *
  end.
  destruct (parseProps E expr process newPath (VStr seed) dispatcher onPathValue s)
    as [sp [cfg| |]] eqn:Hparse; try discriminate.
  assert (Hprocess_keeps : forall arg p k c,
            keeps (keepsWellFormed E) (process arg p k c onPathValue)).
  { intros arg p k c. unfold process.
    destruct (isType dispatcher domComponent).
    - now apply keepsWellFormed_processLisp.
    - intros s0; apply keepsWellFormed_refl. }
  assert (Hprocess_mono : forall arg p k c,
            monotone (process arg p k c onPathValue)).
  { intros arg p k c. unfold process.
    destruct (isType dispatcher domComponent).
    - now apply monotone_processLisp.
    - apply monotone_ret. }
  assert (Hprev : get_prop (forcedProps E (cfg_props config)) (sp_previousRefId E)
                  = VStr refId).
  { rewrite forcedProps_previousRefId by (rewrite HupdateName; exact HprevName).
    rewrite <- HrefIdName. exact HrefId. }
  destruct (parseProps_always_fresh E expr process newPath (VStr seed) dispatcher
              onPathValue s sp cfg (VStr refId) Hprocess_keeps Hreserved
              Hchildren) as (_ & Hfresh & args & Hcfg); try assumption.
  { rewrite Hget. unfold resolveShouldUpdate.
    rewrite <- HupdateName, forcedProps_shouldUpdate. reflexivity. }
  { rewrite Hget. unfold resolveRefId. rewrite Hprev. reflexivity. }
  assert (Hcarries : get_prop (cfg_props cfg) (sp_refId E) = VStr refId).
  { rewrite Hcfg. now apply configProps_refId. }
  destruct (settleInvocation_invokes E fuel dispatcher onPathValue cfg sp Hmono)
    as [after Hafter].
  { destruct (map_get strict_eq (get_prop (cfg_props cfg) (sp_refId E))
                (currentConfigs sp)) as [current|] eqn:Hcur; [|exact I].
    now apply (Hfresh _ _ Hcur). }
  destruct (monotone_parseProps E onPathValue expr process newPath
              (VStr seed) dispatcher Hprocess_mono s) as ([before Hbefore] & _).
  rewrite Hparse in Hbefore. cbn [fst] in Hbefore.
  rewrite Hprocess in Hafter. cbn [fst] in Hafter.
  rewrite Hcreate in Hev. subst evaluated. cbn [fst snd].
  exists cfg, toNode, before, after.
  split; [reflexivity|]. split; [exact Hcarries|]. split.
  - intros k Hk Hk1 Hk2 Hk3. rewrite Hcfg, Hget. unfold configProps.
    cbn [get_prop]. rewrite applyProps_assoc, Hk.
    assert (Hk0 : k <> "$$refId") by (intros ->; congruence).
    rewrite Hfs. rewrite <- HupdateName in Hk3.
    destruct (existsb (String.eqb k) (object_keys (forcedProps E (VObj fs))))
      eqn:Hin.
    + now rewrite forcedProps_other.
    + rewrite !assoc_set_other by (apply String.eqb_neq; congruence).
      rewrite <- (forcedProps_other E fs k) by assumption.
      unfold forcedProps in Hin |- *. cbn [object_keys get_prop] in Hin |- *.
      now rewrite (assoc_not_key _ _ Hin).
  - rewrite Hinv, Hpatch, Hpasses, Hs2.
    cbn [invocations patchRequests completedPasses with_patchRequests
         with_completedPasses].
    rewrite Hafter, Hbefore, <- app_assoc. auto.
Qed.

Lemma storeWellFormed_staleState : storeWellFormed prodEnv staleState.
Proof.
  apply (keepsWellFormed_createElement prodEnv identityCallback
           (keepsWellFormed_identityCallback prodEnv) 10 (plainExpression 2)
           (VStr "R")).
  apply storeWellFormed_renderWith;
    [apply keepsWellFormed_setTreeValue | apply storeWellFormed_empty].
Qed.

Lemma forceUpdate_rerenders_node_witness :
  exists input before after,
    get_prop input "x" = VNum 2
    /\ invocations (state_after (forceUpdate prodEnv 10 "R") staleState)
       = invocations staleState ++ before ++ (VFun (FUser 0), input) :: after
    /\ patchRequests (state_after (forceUpdate prodEnv 10 "R") staleState)
       = patchRequests staleState
         ++ [(specCreateTextVnode (VNum 1), specCreateTextVnode (VNum 2))].
Proof.
  assert (Hrun : forceUpdate prodEnv 10 "R" staleState
                 = (state_after (forceUpdate prodEnv 10 "R") staleState, Ok tt))
    by (vm_compute; reflexivity).
  assert (Hev : createElement prodEnv 10
                  (VArr [] [VFun (FUser 0);
                            forcedProps prodEnv
                              (VObj [("$$refId", VStr "R");
                                     ("children", VArr [] []); ("x", VNum 2)])])
                  (VStr "R") setTreeValue staleState
                = (fst (createElement prodEnv 10
                          (VArr [] [VFun (FUser 0);
                                    forcedProps prodEnv
                                      (VObj [("$$refId", VStr "R");
                                             ("children", VArr [] []);
                                             ("x", VNum 2)])])
                          (VStr "R") setTreeValue staleState),
                   Ok (specCreateTextVnode (VNum 2))))
    by (vm_compute; reflexivity).
  assert (Hpatches : patchRequests
                       (fst (createElement prodEnv 10
                               (VArr [] [VFun (FUser 0);
                                         forcedProps prodEnv
                                           (VObj [("$$refId", VStr "R");
                                                  ("children", VArr [] []);
                                                  ("x", VNum 2)])])
                               (VStr "R") setTreeValue staleState))
                     = patchRequests staleState)
    by (vm_compute; reflexivity).
  destruct (forceUpdate_rerenders_node prodEnv 10 "R" staleState _
              (mkConfig 2 (VObj [("$$refId", VStr "R"); ("children", VArr [] []);
                                 ("x", VNum 2)]) (VStr "R") (VFun (FUser 0)))
              (specEnv_bookkeeping false sampleFns) storeWellFormed_staleState
              eq_refl eq_refl eq_refl Hrun)
    as (cfg & toNode & before & after & Hnode & _ & Hprops & Hinv & Hpatch & _).
  change (from_option
            (map_get strict_eq (VStr "R") (currentDispatchers staleState)))
    with (VFun (FUser 0)) in Hnode, Hinv, Hpatch.
  change (lookupTreeValue (VStr "R") staleState)
    with (specCreateTextVnode (VNum 1)) in Hpatch.
  change (length (split (pathSeparator prodEnv) "R") =? 1)%nat with true
    in Hnode, Hpatch.
  cbn [cfg_props] in Hnode, Hpatch, Hprops.
  cbv iota in Hnode, Hpatch.
  rewrite Hev in Hnode, Hpatch. cbn [fst snd] in Hnode, Hpatch.
  inversion Hnode; subst toNode.
  exists (cfg_props cfg), before, after.
  split; [|split].
  - rewrite (Hprops "x"); [reflexivity | reflexivity | | |]; discriminate.
  - exact Hinv.
  - rewrite Hpatch, Hpatches. reflexivity.
Defined.

(** ** Paths and roots *)

Lemma prefix_empty : forall s, prefix "" s = true.
Proof. destruct s; reflexivity. Qed.

Lemma index_char_append : forall c a b,
  String.index 0 (String c "") (a ++ String c b)%string
  = match String.index 0 (String c "") a with
    | Some n => Some n
    | None => Some (String.length a)
    end.
Proof.
  intros c a b; induction a as [|x a IH].
  - cbn [String.append String.index String.length prefix].
    destruct (Ascii.ascii_dec c c) as [_|Hne]; [|congruence].
    now rewrite prefix_empty.
  - cbn [String.append String.index String.length prefix].
    destruct (Ascii.ascii_dec c x) as [Heq|Hne].
    + now rewrite !prefix_empty.
    + rewrite IH.
      destruct (String.index 0 (String c "") a); reflexivity.
Qed.

Lemma index_char_bound : forall c a n,
  String.index 0 (String c "") a = Some n -> n <= String.length a.
Proof.
  intros c a; induction a as [|x a IH]; intros n H.
  - cbn in H. discriminate.
  - cbn [String.index prefix] in H.
    destruct (Ascii.ascii_dec c x).
    + rewrite prefix_empty in H. inversion H. cbn. lia.
    + destruct (String.index 0 (String c "") a) as [m|]; [|discriminate].
      inversion H. cbn. specialize (IH m eq_refl). lia.
Qed.

Lemma substring_append : forall a b n,
  n <= String.length a ->
  String.substring 0 n (a ++ b)%string = String.substring 0 n a.
Proof.
  induction a as [|x a IH]; intros b n Hn.
  - cbn in Hn. assert (n = 0) by lia. subst n. destruct b; reflexivity.
  - destruct n as [|n]; [reflexivity|].
    cbn [String.append String.substring]. f_equal. apply IH. cbn in Hn. lia.
Qed.

Lemma substring_all : forall a, String.substring 0 (String.length a) a = a.
Proof. induction a as [|x a IH]; cbn; [reflexivity | now rewrite IH]. Qed.

Lemma getPathRoot_append : forall E c path rest,
  pathSeparator E = String c "" ->
  getPathRoot E (path ++ String c rest) = getPathRoot E path.
Proof.
  intros E c path rest Hsep. unfold getPathRoot. rewrite Hsep.
  rewrite index_char_append.
  destruct (String.index 0 (String c "") path) as [n|] eqn:Hidx.
  - apply substring_append. eapply index_char_bound; eassumption.
  - rewrite substring_append by lia. apply substring_all.
Qed.

(** X11. With a one-character separator, a RefId made by [addToRefId] from a
    path has the root of that path: the whole subtree of a seed shares the
    registry of models of the seed. *)
Theorem addToRefId_keeps_root :
  forall E c path location refId,
  pathSeparator E = String c "" ->
  addToRefId E (VStr path) location = Ok (VStr refId) ->
  getPathRoot E refId = getPathRoot E path
  /\ (forall s, getAllModels E refId s = getAllModels E path s)
  /\ (forall key s, hasModel E refId key s = hasModel E path key s).
Proof.
  intros E c path location refId Hsep Hadd.
  assert (Hroot : getPathRoot E refId = getPathRoot E path).
  { unfold addToRefId in Hadd. cbn in Hadd.
    destruct (to_string location) as [l| |]; try discriminate.
    cbn in Hadd. inversion Hadd; subst refId. rewrite Hsep.
    cbn [String.append]. now apply getPathRoot_append. }
  split; [exact Hroot|]. split.
  - intros s. unfold getAllModels, getScopedModels. now rewrite Hroot.
  - intros key s. unfold hasModel, getScopedModels. now rewrite Hroot.
Qed.

Lemma addToRefId_keeps_root_witness :
  getPathRoot prodEnv "root/a/@fn" = getPathRoot prodEnv "root/a".
Proof.
  apply (addToRefId_keeps_root prodEnv "/"%char "root/a" (VStr "@fn")
           "root/a/@fn"); reflexivity.
Defined.

(** X12. [findParentVnode] answers the node stored under the longest prefix
    of the path that holds one, and the marker string when no prefix does. *)
Theorem findParentVnode_nearest :
  forall E pathArray s,
  let probe n := lookupTreeValue (VStr (join (pathSeparator E) (slice0 n pathArray))) s in
  let found := findParentVnode_from E (length pathArray) pathArray s in
  (found = VStr "noParentVnodeFound"
   /\ forall n, 1 <= n <= length pathArray -> isType (probe n) vnode = false)
  \/ (exists n, 1 <= n <= length pathArray
        /\ found = probe n
        /\ isType found vnode = true
        /\ forall n', n < n' <= length pathArray -> isType (probe n') vnode = false).
Proof.
  intros E pathArray s probe found. unfold found.
  assert (Hgen : forall top, top <= length pathArray ->
    (forall n', top < n' <= length pathArray -> isType (probe n') vnode = false) ->
    (findParentVnode_from E top pathArray s = VStr "noParentVnodeFound"
     /\ forall n, 1 <= n <= length pathArray -> isType (probe n) vnode = false)
    \/ (exists n, 1 <= n <= length pathArray
          /\ findParentVnode_from E top pathArray s = probe n
          /\ isType (findParentVnode_from E top pathArray s) vnode = true
          /\ forall n', n < n' <= length pathArray -> isType (probe n') vnode = false)).
  { induction top as [|top IH]; intros Hle Habove.
    - left. split; [reflexivity|]. intros n Hn. apply Habove. lia.
    - cbn [findParentVnode_from]. fold (probe (S top)).
      destruct (isType (probe (S top)) vnode) eqn:Hnode.
      + right. exists (S top). repeat split; auto; lia.
      + apply IH; [lia|]. intros n' Hn'.
        destruct (Nat.eq_dec n' (S top)) as [->|Hne]; [exact Hnode|].
        apply Habove. lia. }
  apply Hgen; [lia|]. intros n' Hn'. lia.
Qed.

(** ** Keys and markers *)

Lemma all_chars_no_char : forall class c s,
  class c = false -> all_chars class s = true ->
  String.index 0 (String c "") s = None.
Proof.
  intros class c s Hc; induction s as [|x s IH]; intros Hall.
  - reflexivity.
  - cbn [all_chars] in Hall. apply andb_prop in Hall as [Hx Hs].
    cbn [String.index prefix].
    destruct (Ascii.ascii_dec c x) as [->|Hne]; [congruence|].
    now rewrite (IH Hs).
Qed.

(** X13. A text key that [validateKey] lets pass in development holds no
    ["@"]: it is none of the markers ["@item"] and ["@fn"] the evaluator
    puts into RefIds, and holds none of them as a segment. *)
Theorem validated_key_is_no_marker :
  forall E key keyType answer,
  isDevelopment E = true ->
  validateKey E (VStr key) keyType = Ok answer ->
  answer = VStr key
  /\ String.index 0 "@" key = None
  /\ key <> "@item" /\ key <> "@fn".
Proof.
  intros E key keyType answer Hdev Hrun.
  unfold validateKey in Hrun. rewrite Hdev in Hrun.
  cbn [negb isDef typeof vnodeKeyTypes to_string obind] in Hrun.
  cbn in Hrun.
  destruct (keyRegex_test key) eqn:Hre; cbn in Hrun; [|discriminate].
  inversion Hrun; subst answer; clear Hrun.
  assert (Hno : String.index 0 "@" key = None).
  { apply (all_chars_no_char key_char); [reflexivity | exact Hre]. }
  repeat split; [exact Hno | |]; intros ->; discriminate.
Qed.

Lemma validated_key_is_no_marker_witness :
  VStr "todo-1/title" = VStr "todo-1/title"
  /\ String.index 0 "@" "todo-1/title" = None
  /\ "todo-1/title" <> "@item" /\ "todo-1/title" <> "@fn".
Proof.
  apply (validated_key_is_no_marker devEnv "todo-1/title" "key"
           (VStr "todo-1/title")); reflexivity.
Defined.

(** ** The props of a config *)

(** X14. The props of a config, name by name: under a reserved name, and
    under a name the props of the expression do not have, the entry the
    evaluator made itself ([children]: the arguments; the RefId prop: the
    RefId; nothing otherwise); under any other name the prop of the
    expression. *)
Theorem configProps_transfers :
  forall E props refId args k,
  sp_refId E <> "children" ->
  get_prop (configProps E props refId args) k
  = if isSpecialProp E k || negb (existsb (String.eqb k) (object_keys props))
    then (if String.eqb k "children" then args
          else if String.eqb k (sp_refId E) then refId else VUndef)
    else get_prop props k.
Proof.
  intros E props refId args k Hne. unfold configProps. cbn [get_prop].
  rewrite applyProps_assoc.
  assert (Hbase : from_option
            (assoc k (assoc_set "children" args (assoc_set (sp_refId E) refId [])))
          = if String.eqb k "children" then args
            else if String.eqb k (sp_refId E) then refId else VUndef).
  { destruct (String.eqb k "children") eqn:Hc.
    - apply String.eqb_eq in Hc; subst k. now rewrite assoc_set_same.
    - rewrite assoc_set_other by exact Hc. cbn [assoc_set assoc].
      destruct (String.eqb k (sp_refId E)); reflexivity. }
  destruct (isSpecialProp E k); cbn [orb]; [exact Hbase|].
  destruct (existsb (String.eqb k) (object_keys props)); cbn [negb];
    [reflexivity | exact Hbase].
Qed.

Lemma configProps_transfers_witness :
  get_prop (configProps prodEnv (VObj [("key", VStr "k"); ("x", VNum 1)])
              (VStr "R/k") (VArr [] []))
           "key" = VUndef.
Proof.
  rewrite (configProps_transfers prodEnv (VObj [("key", VStr "k"); ("x", VNum 1)])
             (VStr "R/k") (VArr [] []) "key").
  - reflexivity.
  - discriminate.
Defined.

(** ** The inherited key *)

(** X15. The inherited key names only the expressions that have neither a
    key nor a previous RefId of their own: a leaf, a plain collection and
    an expression with a key are evaluated the same under any two
    inherited keys. *)
Theorem inherited_key_unused :
  forall E fuel v path prevKey1 prevKey2 prevCtor onPathValue s,
  isLispLike v = false
  \/ isDef (get_prop (getPropsFromArgs v) "key") = true
  \/ isDef (get_prop (getPropsFromArgs v) (sp_previousRefId E)) = true ->
  processLisp E fuel v path prevKey1 prevCtor onPathValue s
  = processLisp E fuel v path prevKey2 prevCtor onPathValue s.
Proof.
  intros E fuel v path prevKey1 prevKey2 prevCtor onPathValue s Hcases.
  destruct fuel as [|fuel]; [reflexivity|].
  cbn [processLisp].
  destruct (primitiveTypes E (typeof v)); [reflexivity|].
  destruct (ignoredValues E v); [reflexivity|].
  destruct (isLispLike v) eqn:Hlisp; cbn [negb]; [|reflexivity].
  assert (Href : resolveRefId E (getPropsFromArgs v) path prevKey1
                 = resolveRefId E (getPropsFromArgs v) path prevKey2).
  { unfold resolveRefId, resolveKey.
    destruct Hcases as [H | [H | H]]; [discriminate | |]; now rewrite H. }
  rewrite !parseProps_annotate.
  unfold parseProps. rewrite Href. reflexivity.
Qed.

Lemma inherited_key_unused_witness :
  processLisp prodEnv 5 keyedExpression (VStr "R/@item") (VNum 0) VUndef
    setTreeValue emptyState
  = processLisp prodEnv 5 keyedExpression (VStr "R/@item") (VNum 1) VUndef
      setTreeValue emptyState.
Proof.
  apply (inherited_key_unused prodEnv 5 keyedExpression (VStr "R/@item")
           (VNum 0) (VNum 1) VUndef setTreeValue emptyState).
  right. left. reflexivity.
Defined.

(** ** The tree-value store after a render *)

Lemma parseProps_carries_refId :
  forall E v (process : argProcessor) path prevKey ctor onPathValue s sp cfg refId,
  (forall arg p k c, keeps (keepsWellFormed E) (process arg p k c onPathValue)) ->
  isSpecialProp E (sp_refId E) = true ->
  sp_refId E <> "children" ->
  resolveRefId E (getPropsFromArgs v) path prevKey = Ok refId ->
  storeWellFormed E s ->
  parseProps E v process path prevKey ctor onPathValue s = (sp, Ok cfg) ->
  get_prop (cfg_props cfg) (sp_refId E) = refId.
Proof.
  intros E v process path prevKey ctor onPathValue s sp cfg refId
         Hp Hspecial Hne Href Hwf Hrun.
  unfold parseProps in Hrun.
  unfold bind at 1, lift at 1 in Hrun.
  destruct (validateKey E (get_prop (getPropsFromArgs v) "key") "key");
    try discriminate.
  unfold bind at 1, lift at 1 in Hrun. rewrite Href in Hrun.
  unfold bind at 1 in Hrun.
  pose proof (keeps_prepareArgs (keepsWellFormed E) onPathValue
                (keepsWellFormed_refl E) (keepsWellFormed_trans E)
                v process refId ctor (skipValues (getPropsFromArgs v)) Hp s)
    as [_ Hkeep].
  destruct (prepareArgs v process refId ctor onPathValue
              (skipValues (getPropsFromArgs v)) s) as [sa [args| |]];
    try discriminate.
  cbn [fst] in Hkeep. specialize (Hkeep Hwf).
  unfold bind at 1, fresh at 1 in Hrun.
  unfold bind at 1, getCurrentConfig, gets in Hrun.
  cbn [currentConfigs with_nextId] in Hrun.
  destruct (map_get strict_eq refId (currentConfigs sa)) as [current|] eqn:Hcur.
  - unfold bind, lift in Hrun.
    destruct (call E _ _) as [r| |]; try discriminate.
    destruct (negb (truthy r)); inversion Hrun; subst; clear Hrun.
    + apply (Hkeep refId cfg Hcur).
    + now apply configProps_refId.
  - inversion Hrun; subst; clear Hrun. now apply configProps_refId.
Qed.

(** X16. With [setTreeValue] as the callback, as [renderWith] passes it,
    and a well-formed store, the answer of an expression is the tree value
    the store holds under the RefId of the expression when the evaluation
    ends, whether the component was invoked or its recorded answer
    reused. *)
Theorem rendered_answer_is_stored :
  forall E fuel v path prevKey prevCtor s s' answer refId,
  primitiveTypes E "object" = false ->
  ignoredValues E v = false ->
  isSpecialProp E (sp_refId E) = true ->
  sp_refId E <> "children" ->
  isLispLike v = true ->
  resolveRefId E (getPropsFromArgs v) path prevKey = Ok refId ->
  strict_eq refId refId = true ->
  storeWellFormed E s ->
  processLisp E fuel v path prevKey prevCtor setTreeValue s = (s', Ok answer) ->
  lookupTreeValue refId s' = answer.
Proof.
  intros E fuel v path prevKey prevCtor s s' answer refId
         Hprim Hign Hspecial Hne Hlisp Href Hrefl Hwf Hrun.
  destruct fuel as [|fuel]; [discriminate|].
  rewrite processLisp_expression in Hrun by assumption.
  unfold bind at 1 in Hrun.
  destruct (parseProps E v _ path prevKey (getLispFunc v) setTreeValue s)
    as [sp [cfg| |]] eqn:Hparse; try discriminate.
  assert (Hcarries : get_prop (cfg_props cfg) (sp_refId E) = refId).
  { eapply parseProps_carries_refId; try eassumption.
    intros arg p k c. destruct (isType _ domComponent).
    - apply keepsWellFormed_processLisp. apply keepsWellFormed_setTreeValue.
    - intros s0; apply keepsWellFormed_refl. }
  unfold settleInvocation in Hrun. rewrite Hcarries in Hrun.
  unfold bind at 1, getCurrentConfig, gets in Hrun.
  match type of Hrun with (if ?c then _ else _) _ = _ => destruct c end.
  - unfold getTreeValue, gets in Hrun. now inversion Hrun.
  - unfold bind at 1, setCurrentConfig at 1, modify at 1 in Hrun.
    unfold bind at 1, setCurrentDispatcher at 1, modify at 1 in Hrun.
    unfold bind at 1, recordInvocation at 1, modify at 1 in Hrun.
    unfold bind at 1, lift at 1 in Hrun.
    destruct (call E (getLispFunc v) _) as [nextValue| |]; try discriminate.
    unfold bind at 1 in Hrun.
    destruct (processLisp E fuel nextValue refId (VStr "@fn") (getLispFunc v)
                setTreeValue _) as [s3 [finalValue| |]]; try discriminate.
    unfold bind, setTreeValue, modify, ret in Hrun.
    inversion Hrun; subst s' answer; clear Hrun.
    unfold lookupTreeValue. cbn [treeValues with_treeValues].
    now rewrite map_get_set_same.
Qed.

Lemma rendered_answer_is_stored_witness :
  lookupTreeValue (VStr "R")
    (state_after (processLisp prodEnv 6 (memoExpression 1) newPath (VStr "R")
                    VUndef setTreeValue) emptyState)
  = specCreateTextVnode (VNum 1).
Proof.
  assert (Hrun : processLisp prodEnv 6 (memoExpression 1) newPath (VStr "R")
                   VUndef setTreeValue emptyState
                 = (state_after (processLisp prodEnv 6 (memoExpression 1) newPath
                                   (VStr "R") VUndef setTreeValue) emptyState,
                    Ok (specCreateTextVnode (VNum 1))))
    by (vm_compute; reflexivity).
  refine (rendered_answer_is_stored prodEnv 6 (memoExpression 1) newPath (VStr "R")
            VUndef emptyState _ _ (VStr "R") eq_refl eq_refl eq_refl _ eq_refl
            eq_refl eq_refl (storeWellFormed_empty prodEnv) Hrun).
  discriminate.
Defined.

(** ** The root of an evaluation *)

(** X17. The root expression of [createElement] is recorded under the seed
    path, as text -- unless it has a key of its own: then it is recorded
    under that key, and the seed path is not used. *)
Theorem createElement_records_seed :
  forall E fuel v seedPath onPathValue s s' tree seed,
  primitiveTypes E "object" = false ->
  ignoredValues E v = false ->
  isSpecialProp E (sp_refId E) = true ->
  sp_refId E <> "children" ->
  (forall r x c, monotone (onPathValue r x c)) ->
  isLispLike v = true ->
  isType v vnode = false ->
  get_prop (getPropsFromArgs v) (sp_previousRefId E) = VUndef ->
  String_ seedPath = Ok seed ->
  let rootId := resolveKey (getPropsFromArgs v) (VStr seed) in
  strict_eq rootId rootId = true ->
  createElement E fuel v seedPath onPathValue s = (s', Ok tree) ->
  map_has strict_eq rootId (currentConfigs s') = true.
Proof.
  intros E fuel v seedPath onPathValue s s' tree seed Hprim Hign Hspecial Hne
         Hcb Hlisp Hnode Hprev Hseed rootId Hrefl Hrun.
  destruct (createElement_expression _ _ _ _ _ _ _ _ Hnode Hrun)
    as (seed' & Hseed' & Hprocess).
  rewrite Hseed in Hseed'. inversion Hseed'; subst seed'.
  eapply processLisp_records; try eassumption.
  unfold resolveRefId. rewrite Hprev. reflexivity.
Qed.

Lemma createElement_records_seed_witness :
  map_has strict_eq (VStr "5")
    (currentConfigs
       (state_after (createElement prodEnv 10 (memoExpression 1) (VNum 5)
                       setTreeValue) emptyState))
  = true.
Proof.
  assert (Hrun : createElement prodEnv 10 (memoExpression 1) (VNum 5) setTreeValue
                   emptyState
                 = (state_after (createElement prodEnv 10 (memoExpression 1)
                                   (VNum 5) setTreeValue) emptyState,
                    Ok (specCreateTextVnode (VNum 1))))
    by (vm_compute; reflexivity).
  refine (createElement_records_seed prodEnv 10 (memoExpression 1) (VNum 5)
            setTreeValue emptyState _ _ "5" eq_refl eq_refl eq_refl _
            monotone_setTreeValue eq_refl eq_refl eq_refl eq_refl eq_refl Hrun).
  discriminate.
Defined.

(** ** Fragments *)

(** X18. [[Fragment, ...items]], written without props, invokes [Fragment]
    with the items unevaluated and then evaluates them as a collection
    under the RefId of the expression: item [i] at the path
    [refId/@item], with [i] as its default key. *)
Theorem Fragment_items_as_collection :
  forall E fuel named items path prevKey prevCtor onPathValue s refId,
  let v := VArr named (VFun FFragment :: items) in
  let cfg := freshConfig E v (VStr refId) (VFun FFragment) s in
  primitiveTypes E "object" = false ->
  (forall named' items', ignoredValues E (VArr named' items') = false) ->
  sp_refId E <> "children" ->
  getPropsFromArgs v = VEmptyProps ->
  isFunc (nth 0 items VUndef) = false ->
  resolveRefId E VEmptyProps path prevKey = Ok (VStr refId) ->
  (forall old, map_get strict_eq (VStr refId) (currentConfigs s) = Some old ->
     cfg_id old < nextId s) ->
  processLisp E (S (S fuel)) v path prevKey prevCtor onPathValue s
  = (results <- mapM_from 0
                  (fun item i =>
                     processLisp E fuel item
                       (VStr (refId ++ pathSeparator E ++ "@item"))
                       (VNum (Z.of_nat i)) (VFun FFragment) onPathValue)
                  items ;;
     onPathValue (VStr refId) (VArr [] results) cfg ;;;
     ret (VArr [] results))
      (invoked (VStr refId) cfg (VFun FFragment) (cfg_props cfg)
         (with_nextId S s)).
Proof.
  intros E fuel named items path prevKey prevCtor onPathValue s refId v cfg
         Hprim Hign Hne Hprops Hitem Href Hold.
  assert (Hlisp : isLispLike v = true) by reflexivity.
  rewrite processLisp_expression by (try assumption; apply Hign).
  assert (Hf : getLispFunc v = VFun FFragment) by reflexivity.
  rewrite Hf. cbn [isType truthy get_prop andb strict_eq].
  assert (Hchildren : get_prop (componentProps E v (VStr refId)) "children"
                      = VArr [] items).
  { unfold componentProps, configProps. rewrite Hprops.
    cbn [skipValues get_prop String.eqb Ascii.eqb Bool.eqb truthy negb
         applyProps object_keys fold_left array_items skipn].
    now rewrite assoc_set_same. }
  assert (Hcarries : get_prop (componentProps E v (VStr refId)) (sp_refId E)
                     = VStr refId).
  { unfold componentProps, configProps. rewrite Hprops.
    cbn [applyProps object_keys fold_left get_prop].
    rewrite assoc_set_other by now apply String.eqb_neq.
    cbn [assoc_set assoc]. now rewrite String.eqb_refl. }
  unfold bind at 1.
  rewrite (parseProps_component E v path prevKey (VFun FFragment) onPathValue s
             (VStr refId)).
  2:{ rewrite Hprops. unfold validateKey.
      cbn [get_prop String.eqb Ascii.eqb Bool.eqb isDef].
      destruct (negb (isDevelopment E)); reflexivity. }
  2:{ rewrite Hprops. exact Href. }
  assert (Hparse :
    match map_get strict_eq (VStr refId) (currentConfigs s) with
    | Some old =>
        match call E (resolveShouldUpdate (getPropsFromArgs v))
                [cfg_props old; componentProps E v (VStr refId)] with
        | Ok r =>
            (with_nextId S s,
             Ok (if negb (truthy r) then old
                 else freshConfig E v (VStr refId) (VFun FFragment) s))
        | Throw e => (with_nextId S s, Throw e)
        | Stuck w => (with_nextId S s, Stuck w)
        end
    | None => (with_nextId S s, Ok (freshConfig E v (VStr refId) (VFun FFragment) s))
    end = (with_nextId S s, Ok cfg)).
  { rewrite Hprops.
    destruct (map_get strict_eq (VStr refId) (currentConfigs s)); reflexivity. }
  rewrite Hparse.
  unfold settleInvocation. fold cfg.
  cbn [isType truthy get_prop andb strict_eq].
  assert (Hcfg : cfg_props cfg = componentProps E v (VStr refId)) by reflexivity.
  rewrite Hcfg, Hcarries.
  unfold bind at 1, getCurrentConfig, gets. cbn [currentConfigs with_nextId].
  assert (Hfresh : match map_get strict_eq (VStr refId) (currentConfigs s) with
                   | Some current => Nat.eqb (cfg_id current) (cfg_id cfg)
                   | None => false
                   end = false).
  { destruct (map_get strict_eq (VStr refId) (currentConfigs s)) as [old|] eqn:Hcur;
      [|reflexivity].
    apply Nat.eqb_neq. specialize (Hold old eq_refl). cbn. lia. }
  rewrite Hfresh.
  unfold bind at 1, setCurrentConfig at 1, modify at 1.
  unfold bind at 1, setCurrentDispatcher at 1, modify at 1.
  unfold bind at 1, recordInvocation at 1, modify at 1.
  unfold bind at 1, lift at 1.
  cbn [call nth].
  assert (Hcall : Fragment (componentProps E v (VStr refId)) = Ok (VArr [] items)).
  { rewrite <- Hchildren. unfold componentProps, configProps. reflexivity. }
  rewrite Hcall.
  change (componentProps E v (VStr refId)) with (cfg_props cfg).
  change (with_invocations _ (with_dispatchers _ (with_configs _ (with_nextId S s))))
    with (invoked (VStr refId) cfg (VFun FFragment) (cfg_props cfg)
            (with_nextId S s)).
  generalize (invoked (VStr refId) cfg (VFun FFragment) (cfg_props cfg)
                (with_nextId S s)) as s0.
  intros s0. unfold bind at 1.
  cbn [processLisp typeof]. rewrite Hprim, Hign.
  unfold isLispLike at 1. cbn [isArray get_index andb]. rewrite Hitem.
  cbn [negb array_items].
  unfold bind at 1, lift at 1. unfold addToRefId.
  cbn [strict_eq newPath to_string obind].
  unfold bind. 
  destruct (mapM_from 0 _ items s0) as [s1 [results| |]]; reflexivity.
Qed.

Lemma Fragment_items_as_collection_witness :
  answer_of (processLisp prodEnv 3
               (VArr [] [VFun FFragment; VStr "a"; VStr "b"])
               newPath (VStr "R") VUndef setTreeValue) emptyState
  = Ok (VArr [] [specCreateTextVnode (VStr "a"); specCreateTextVnode (VStr "b")]).
Proof.
  unfold answer_of.
  rewrite (Fragment_items_as_collection prodEnv 1 [] [VStr "a"; VStr "b"] newPath
             (VStr "R") VUndef setTreeValue emptyState "R").
  - vm_compute. reflexivity.
  - reflexivity.
  - reflexivity.
  - discriminate.
  - reflexivity.
  - reflexivity.
  - reflexivity.
  - intros old Hget. discriminate.
Defined.

(** ** Forced update of a fragment among nodes *)

(** X19. When the component at [refId] last rendered a fragment, its
    nearest ancestor node [P] has the fragment among its children
    (recognised by the RefId of its first element), the other children of
    [P] are nodes, not arrays, and the evaluation of the recorded
    dispatcher with the forced props answers [nextValue], then
    [forceUpdate] comes to its end: it builds a new parent from [P] whose
    children are those of [P] with the fragment replaced by [nextValue]
    and every other child as it was, and after the evaluation it requests
    one patch, of [P] against the new parent. *)
Theorem forceUpdate_fragment_frame :
  forall (E : collaborators) (fuel : nat) (refId : string) (s s1 : state)
         (config : config) (currentValue nextValue assigned fragment : value)
         (parent parentProps named nextFields : fields)
         (before after : list value),
  let pathArray := split (pathSeparator E) refId in
  let dispatcher :=
    from_option (map_get strict_eq (VStr refId) (currentDispatchers s)) in
  let nextParentVnode :=
    createVnode E
      (VObj (assoc_set "props"
               (VObj (assoc_set "children"
                        (VArr [] (before ++ nextValue :: after)) parentProps))
               parent))
      VUndef in
  map_get strict_eq (VStr refId) (currentConfigs s) = Some config ->
  lookupTreeValue (VStr refId) s = currentValue ->
  isArray currentValue = true ->
  findParentVnode_from E (length pathArray) pathArray s = VObj parent ->
  get_prop (VObj parent) "props" = VObj parentProps ->
  get_prop (VObj parentProps) "children" = VArr named (before ++ fragment :: after) ->
  Forall (fun c => isArray c = false) before ->
  Forall (fun c => isArray c = false) after ->
  isArray fragment = true ->
  sameFragment fragment currentValue = true ->
  createElement E fuel (VArr [] [dispatcher; forcedProps E (cfg_props config)])
    (VStr refId) identityCallback s = (s1, Ok nextValue) ->
  object_assign currentValue nextValue = Ok assigned ->
  nextParentVnode = VObj nextFields ->
  isType nextParentVnode vnode = true ->
  isDevelopment E = false
  \/ map_has strict_eq (get_prop (VObj parentProps) "$$refId") (treeValues s1) = true ->
  exists s',
    forceUpdate E fuel refId s = (s', Ok tt)
    /\ patchRequests s' = patchRequests s1 ++ [(VObj parent, nextParentVnode)].
Proof.
  intros E fuel refId s s1 config currentValue nextValue assigned fragment
         parent parentProps named nextFields before after
         pathArray dispatcher nextParentVnode
         Hconfig Hcurrent Hfragment Hparent Hprops Hchildren Hbefore Hafter
         Harr Hsame Hcreate Hassign Hnext Hnode Hseed.
  unfold forceUpdate.
  unfold bind at 1, getCurrentConfig, gets. rewrite Hconfig.
  unfold bind at 1, getCurrentDispatcher, gets. fold dispatcher.
  unfold bind at 1, getTreeValue, gets. rewrite Hcurrent, Hfragment. cbn [negb].
  unfold bind at 1, findParentVnode, gets. fold pathArray. rewrite Hparent.
  unfold bind at 1, gets.
  unfold bind at 1, lift at 1. cbn [member]. rewrite Hprops.
  unfold bind at 1, lift at 1. cbn [member]. rewrite Hchildren.
  unfold bind at 1. rewrite Hcreate.
  rewrite (mapChildren_frame nextValue before fragment after currentValue assigned)
    by assumption.
  unfold bind at 1, modify at 1.
  unfold bind at 1, lift at 1.
  unfold bind at 1, lift at 1. cbn [spread_with].
  unfold bind at 1, lift at 1. cbn [spread_with].
  fold nextParentVnode.
  unfold bind at 1, renderWith. unfold bind at 1.
  rewrite createElement_of_vnode; [|exact Hnode|].
  2:{ destruct Hseed as [Hprod | Hknown]; [now left | right].
      apply hasTreeValue_validates. cbn [treeValues with_treeValues].
      now apply map_has_set. }
  unfold bind at 1, onVtreeCompleted, modify at 1.
  unfold requestPatch, bind at 1, modify at 1. unfold ret at 1.
  unfold updateSourceValue, bind, lift. rewrite Hnext. cbn [object_assign].
  unfold modify. eexists. split; reflexivity.
Qed.

Lemma forceUpdate_fragment_frame_witness :
  get_prop (get_prop (lookupTreeValue (VStr "R") staleListingState) "props")
    "children"
  = VArr [] [specCreateTextVnode (VStr "before"); fragmentXA;
             specCreateTextVnode (VStr "after")]
  /\ exists s' nextParent,
       forceUpdate devEnv 10 "R/1" staleListingState = (s', Ok tt)
       /\ patchRequests s'
          = patchRequests staleListingState
            ++ [(lookupTreeValue (VStr "R") staleListingState, nextParent)]
       /\ get_prop (get_prop nextParent "props") "children"
          = VArr [] [specCreateTextVnode (VStr "before"); fragmentXB;
                     specCreateTextVnode (VStr "after")].
Proof.
  split; [vm_compute; reflexivity|].
  pose (config := {| cfg_id := 3;
                     cfg_props := VObj [("$$refId", VStr "R/1");
                                        ("children", VArr [] []);
                                        ("x", VArr [] [VStr "x"; VStr "b"])];
                     cfg_key := VStr "R/1";
                     cfg_ctor := VFun (FUser 0) |}).
  pose (parentProps :=
          [("$$refId", VStr "R");
           ("children",
            VArr [] [specCreateTextVnode (VStr "before"); fragmentXA;
                     specCreateTextVnode (VStr "after")])]).
  pose (parent :=
          [("type", VSym vnode); ("sel", VStr "div"); ("props", VObj parentProps);
           ("children", get_prop (VObj parentProps) "children");
           ("key", VStr "R"); ("elm", VUndef)]).
  pose (nextProps :=
          [("$$refId", VStr "R");
           ("children",
            VArr [] [specCreateTextVnode (VStr "before"); fragmentXB;
                     specCreateTextVnode (VStr "after")])]).
  pose (nextParent :=
          [("type", VSym vnode); ("sel", VStr "div"); ("props", VObj nextProps);
           ("children", get_prop (VObj nextProps) "children");
           ("key", VStr "R"); ("elm", VUndef)]).
  pose (s1 := fst (createElement devEnv 10
                     (VArr [] [VFun (FUser 0); forcedProps devEnv (cfg_props config)])
                     (VStr "R/1") identityCallback staleListingState)).
  assert (Hs1 : patchRequests s1 = patchRequests staleListingState)
    by (vm_compute; reflexivity).
  destruct (forceUpdate_fragment_frame devEnv 10 "R/1" staleListingState s1
              config fragmentXA fragmentXB fragmentXB fragmentXA parent
              parentProps [] nextParent [specCreateTextVnode (VStr "before")]
              [specCreateTextVnode (VStr "after")])
    as [s' [Hrun Hpatch]]; try (vm_compute; reflexivity).
  all: try (repeat constructor; fail).
  exists s', (VObj nextParent). split; [exact Hrun|]. split.
  - rewrite Hpatch, Hs1. reflexivity.
  - reflexivity.
Defined.
